(** * Chess subsystem of Chat_play_room: a shallow embedding and its properties

    Three source files are embedded:
    - [src/lib/chessEngine.ts], the flat 64-square engine (module [Engine]);
    - [src/workers/aiWorker.ts], the minimax search (module [AiWorker]);
    - [server/games/chess.ts], the coordinate based engine used for networked
      play (module [Server]).

    Modelling conventions.
    - JavaScript numbers that hold squares, clocks and deltas are integers
      ([Z]); [%] is the truncating remainder ([Z.rem]) and
      [Math.floor(a / 8)] is floor division ([Z.div]).  Squares and deltas
      stay far below [2^53], where the arithmetic of doubles is exact; the
      two move counters are stepped with [Js.incr] and [Js.decr], which
      round as doubles do.
    - One-character strings are [ascii]; strings are [string] and are
      assumed to hold ASCII text only.
    - [null] and [undefined] are both [None]: the source only ever tests
      these values for truthiness.
    - An in-place update of an object is a function that returns the
      updated object. *)

From Stdlib Require Import ZArith List String Ascii Lia Bool.
From stdpp Require Import base list.
Import ListNotations.
Open Scope Z_scope.

(** ** Small JavaScript helpers shared by the three files *)

Module Js.

(** What a call can do besides returning: [throw new Error(msg)], or a
    [TypeError] raised by the runtime (iterating [undefined], reading a
    property of [null]).
    [Unmodelled] marks a call that returns in JavaScript, but with a number
    the integer model does not follow: a FEN clock or en-passant field that
    is not written in plain decimal digits (for which [Number] gives NaN, a
    fraction, or the value of some other literal form), or that denotes
    more than [2^53] (which [Number] rounds). *)
Inductive Outcome (A : Type) : Type :=
| Ok (a : A)
| ThrowError (msg : string)
| ThrowTypeError
| Unmodelled.
Arguments Ok {A} a.
Arguments ThrowError {A} msg.
Arguments ThrowTypeError {A}.
Arguments Unmodelled {A}.

Definition bind {A B} (x : Outcome A) (f : A -> Outcome B) : Outcome B :=
  match x with
  | Ok a => f a
  | ThrowError m => ThrowError m
  | ThrowTypeError => ThrowTypeError
  | Unmodelled => Unmodelled
  end.

Definition throws {A} (x : Outcome A) : bool :=
  match x with
  | ThrowError _ | ThrowTypeError => true
  | _ => false
  end.

(** [s.split(sep)] for a one-character separator. *)
Fixpoint split_go (sep : ascii) (cur : string) (s : string) : list string :=
  match s with
  | EmptyString => [cur]
  | String c rest =>
      if Ascii.eqb c sep
      then cur :: split_go sep EmptyString rest
      else split_go sep (cur ++ String c EmptyString)%string rest
  end.

Definition split (sep : ascii) (s : string) : list string :=
  split_go sep EmptyString s.

(** [xs.join(sep)] *)
Fixpoint join (sep : string) (xs : list string) : string :=
  match xs with
  | [] => EmptyString
  | [x] => x
  | x :: rest => (x ++ sep ++ join sep rest)%string
  end.

(** [s.includes(c)] for a one-character needle. *)
Fixpoint includes (s : string) (c : ascii) : bool :=
  match s with
  | EmptyString => false
  | String d rest => Ascii.eqb d c || includes rest c
  end.

(** [s.indexOf(c)] for a one-character needle, [-1] when absent. *)
Fixpoint indexOf_from (s : string) (c : ascii) (i : Z) : Z :=
  match s with
  | EmptyString => -1
  | String d rest => if Ascii.eqb d c then i else indexOf_from rest c (i + 1)
  end.

Definition indexOf (s : string) (c : ascii) : Z := indexOf_from s c 0.

(** [/\d/.test(ch)] *)
Definition isDigit (c : ascii) : bool :=
  let n := N_of_ascii c in (48 <=? n)%N && (n <=? 57)%N.

Definition digitValue (c : ascii) : Z := Z.of_N (N_of_ascii c) - 48.

(** [ch.toUpperCase()] and [ch.toLowerCase()] on ASCII. *)
Definition toUpperCase (c : ascii) : ascii :=
  let n := N_of_ascii c in
  if (97 <=? n)%N && (n <=? 122)%N then ascii_of_N (n - 32) else c.

Definition toLowerCase (c : ascii) : ascii :=
  let n := N_of_ascii c in
  if (65 <=? n)%N && (n <=? 90)%N then ascii_of_N (n + 32) else c.

(** [n.toString()] for an integer of fewer than 22 digits, which
    JavaScript writes out in full. *)
Definition digitChar (d : Z) : ascii := ascii_of_N (Z.to_N (48 + d)).

Fixpoint natDigits (fuel : nat) (n : Z) (acc : string) : string :=
  match fuel with
  | O => acc
  | S fuel' =>
      let acc' := String (digitChar (n mod 10)) acc in
      if n <? 10 then acc' else natDigits fuel' (n / 10) acc'
  end.

Definition toString (n : Z) : string :=
  if n <? 0
  then String "-"%char (natDigits (S (Z.to_nat (- n))) (- n) EmptyString)
  else natDigits (S (Z.to_nat n)) n EmptyString.

(** [Number(s)] on a string of one or more decimal digits that denote an
    integer up to [2^53], which is then the result.  Every other string is
    left out of the model ([None]): [Number] never raises on them, but
    yields NaN, the value of another literal form, or the double nearest to
    the integer denoted. *)
Fixpoint digitsValue (s : string) (acc : Z) : option Z :=
  match s with
  | EmptyString => Some acc
  | String c rest =>
      if isDigit c then digitsValue rest (10 * acc + digitValue c) else None
  end.

Definition Number (s : string) : option Z :=
  match s with
  | EmptyString => None
  | _ => match digitsValue s 0 with
         | Some v => if v <=? 2 ^ 53 then Some v else None
         | None => None
         end
  end.

(** A number is a double.  Every integer below [2^53] in absolute value is
    one; past that the doubles thin out, to one integer in [2^e] for the
    integers of [53 + e] bits.  [roundToDouble n] is the double that an
    operation with the exact result [n] yields: the nearest one, and of two
    equally near the one whose 53-bit significand is even. *)
Definition roundToDouble (n : Z) : Z :=
  let a := Z.abs n in
  if a <? 2 ^ 53 then n
  else
    let e := Z.log2 a - 52 in
    let q := Z.shiftr a e in
    let r := a - Z.shiftl q e in
    let half := 2 ^ (e - 1) in
    let q' := if r <? half then q
              else if half <? r then q + 1
              else if Z.even q then q else q + 1 in
    Z.sgn n * Z.shiftl q' e.

(** [n++] and [n--] on a counter that holds an integer. *)
Definition incr (n : Z) : Z := roundToDouble (n + 1).
Definition decr (n : Z) : Z := roundToDouble (n - 1).

(** [a || b] and [a && b] where evaluating an operand may raise: the
    second operand is evaluated only when the first does not decide. *)
Definition orM (a b : Outcome bool) : Outcome bool :=
  bind a (fun x => if x then Ok true else b).

Definition andM (a b : Outcome bool) : Outcome bool :=
  bind a (fun x => if x then b else Ok false).

(** A loop over [l] that returns [true] at the first element passing the
    test [f], and [false] when none does. *)
Fixpoint existsM {A} (f : A -> Outcome bool) (l : list A) : Outcome bool :=
  match l with
  | [] => Ok false
  | a :: l' => orM (f a) (existsM f l')
  end.

(** A loop over [l] that returns the first element passing the test. *)
Fixpoint findM {A} (f : A -> Outcome bool) (l : list A) : Outcome (option A) :=
  match l with
  | [] => Ok None
  | a :: l' => bind (f a) (fun x => if x then Ok (Some a) else findM f l')
  end.

(** A loop over [l] that appends what each element contributes. *)
Fixpoint flatMapM {A B} (f : A -> Outcome (list B)) (l : list A)
  : Outcome (list B) :=
  match l with
  | [] => Ok []
  | a :: l' =>
      bind (f a) (fun xs => bind (flatMapM f l') (fun ys => Ok (xs ++ ys)))
  end.

End Js.

Notation "'let*' x ':=' c 'in' k" := (Js.bind c (fun x => k))
  (at level 10, x name, c at level 100, k at level 200).

(** ** [src/lib/chessEngine.ts] *)

Module Engine.

Inductive Color : Type := W | B.

Definition Color_eqb (a b : Color) : bool :=
  match a, b with
  | W, W | B, B => true
  | _, _ => false
  end.

(** ['p'|'n'|'b'|'r'|'q'|'k'] at the type level; at run time any
    one-character string, since [fenToGameState] stores what it reads. *)
Definition PieceType : Type := ascii.

Record Piece : Type := mkPiece { type : PieceType; color : Color }.

Definition Square : Type := Z.

Record Move : Type := mkMove {
  from : Square;
  to : Square;
  piece : Piece;
  captured : option Piece;
  promotion : option PieceType;
  isEnPassant : bool;
  isCastling : bool
}.

Record CastlingRights : Type := mkCastling {
  wks : bool; wqs : bool; bks : bool; bqs : bool
}.

Record HistoryEntry : Type := mkEntry {
  h_move : Move;
  h_castling : CastlingRights;
  h_enPassant : option Square;
  h_halfmoveClock : Z
}.

Abbreviation Board := (list (option Piece)).

Record GameState : Type := mkGameState {
  board : Board;
  turn : Color;
  castling : CastlingRights;
  enPassant : option Square;
  halfmoveClock : Z;
  fullmoveNumber : Z;
  history : list HistoryEntry
}.

Definition initialFEN : string :=
  "rnbqkbnr/pppppppp/8/8/8/8/PPPPPPPP/RNBQKBNR w KQkq - 0 1".

(** [gs.board[i]]: [undefined] outside the array. *)
Definition getSq (b : Board) (i : Z) : option Piece :=
  if i <? 0 then None
  else match b !! Z.to_nat i with
       | Some v => v
       | None => None
       end.

(** [gs.board[i] = v].  Inside the array this is an update; at or past
    the end JavaScript grows the array, the new slots reading as
    [undefined].  A negative index leaves the array elements alone (it
    sets a property the model does not track); no generated move has a
    square off the board ([EngineProofs.pseudo_shape]). *)
Definition setSq (b : Board) (i : Z) (v : option Piece) : Board :=
  if i <? 0 then b
  else if i <? Z.of_nat (length b) then <[Z.to_nat i := v]> b
  else b ++ replicate (Z.to_nat i - length b)%nat None ++ [v].

Definition makeEmptyBoard : Board := replicate 64%nat None.

Definition squareToAlgebraic (sq : Square) : string :=
  let file := Z.rem sq 8 in
  let rank := sq / 8 + 1 in
  let letter :=
    if file <? 0 then "undefined"%string
    else match String.get (Z.to_nat file) "abcdefgh" with
         | Some c => String c EmptyString
         | None => "undefined"%string
         end in
  (letter ++ Js.toString rank)%string.

(** [rank*8 + file], with [file = -1] for a letter outside a-h.  [None]
    when the second character is missing or is not a decimal digit: the
    source then computes with [Number(s[1])], which the model does not
    follow (see [Js.Number]). *)
Definition algebraicToSquare (s : string) : option Square :=
  let file :=
    match String.get 0 s with
    | Some c => Js.indexOf "abcdefgh" c
    | None => -1
    end in
  match String.get 1 s with
  | Some c =>
      if Js.isDigit c then Some ((Js.digitValue c - 1) * 8 + file) else None
  | None => None
  end.

Definition onBoard (sq : Z) : bool := (0 <=? sq) && (sq <? 64).
Definition fileOf (sq : Z) : Z := Z.rem sq 8.
Definition rankOf (sq : Z) : Z := sq / 8.

Definition cloneGameState (gs : GameState) : GameState :=
  mkGameState (board gs) (turn gs) (castling gs) (enPassant gs)
    (halfmoveClock gs) (fullmoveNumber gs) (history gs).

Definition opposite (c : Color) : Color :=
  match c with W => B | B => W end.

(** [!gs.board[i]] *)
Definition isEmpty (b : Board) (i : Z) : bool :=
  match getSq b i with None => true | Some _ => false end.

Definition plainMove (sq t : Square) (p : Piece) : Move :=
  mkMove sq t p None None false false.

Definition promotionPieces : list PieceType :=
  ["q"%char; "r"%char; "b"%char; "n"%char].

Definition generatePawnMoves (gs : GameState) (sq : Square) (p : Piece)
  : list Move :=
  let dir := match color p with W => 8 | B => -8 end in
  let startRank := match color p with W => 1 | B => 6 end in
  let promotionRank := match color p with W => 7 | B => 0 end in
  let one := sq + dir in
  let pushes :=
    if onBoard one && isEmpty (board gs) one then
      if rankOf one =? promotionRank then
        map (fun pr => mkMove sq one p None (Some pr) false false)
            promotionPieces
      else
        plainMove sq one p ::
        (if rankOf sq =? startRank then
           let two := sq + 2 * dir in
           if onBoard two && isEmpty (board gs) two
           then [plainMove sq two p] else []
         else [])
    else [] in
  let caps := match color p with W => [7; 9] | B => [-7; -9] end in
  pushes ++
  flat_map (fun d =>
    let t := sq + d in
    if negb (onBoard t) then []
    else
      let fileDist := fileOf t - fileOf sq in
      if negb (Z.abs fileDist =? 1) then []
      else
        let enPassantCapture :=
          match enPassant gs with
          | Some ep =>
              if t =? ep then
                let capSq := match color p with W => t - 8 | B => t + 8 end in
                match getSq (board gs) capSq with
                | Some capPiece =>
                    if Ascii.eqb (type capPiece) "p"
                       && negb (Color_eqb (color capPiece) (color p))
                    then [mkMove sq t p (Some capPiece) None true false]
                    else []
                | None => []
                end
              else []
          | None => []
          end in
        match getSq (board gs) t with
        | Some target =>
            if negb (Color_eqb (color target) (color p)) then
              if rankOf t =? promotionRank then
                map (fun pr => mkMove sq t p (Some target) (Some pr) false false)
                    promotionPieces
              else [mkMove sq t p (Some target) None false false]
            else enPassantCapture
        | None => enPassantCapture
        end) caps.

Definition knightDeltas : list Z := [17; 15; 10; 6; -6; -10; -15; -17].
Definition kingDeltas : list Z := [1; -1; 8; -8; 9; 7; -7; -9].

(** The loop body shared by knight and king steps; [reach] is the largest
    file distance the piece may cover. *)
Definition stepMoves (gs : GameState) (sq : Square) (p : Piece)
           (reach : Z) (deltas : list Z) : list Move :=
  flat_map (fun d =>
    let t := sq + d in
    if negb (onBoard t) then []
    else if Z.abs (fileOf sq - fileOf t) >? reach then []
    else
      match getSq (board gs) t with
      | None => [mkMove sq t p None None false false]
      | Some target =>
          if negb (Color_eqb (color target) (color p))
          then [mkMove sq t p (Some target) None false false]
          else []
      end) deltas.

Definition generateKnightMoves (gs : GameState) (sq : Square) (p : Piece)
  : list Move := stepMoves gs sq p 2 knightDeltas.

Inductive Dir : Type := dN | dS | dE | dW | dNE | dNW | dSE | dSW.

Definition dirVals (d : Dir) : Z :=
  match d with
  | dN => 8 | dS => -8 | dE => 1 | dW => -1
  | dNE => 9 | dNW => 7 | dSE => -7 | dSW => -9
  end.

(** True for the directions whose steps are checked for wrapping: every
    direction except north and south. *)
Definition wrapChecked (d : Dir) : bool :=
  match d with dN | dS => false | _ => true end.

(** The [while (onBoard(to))] loop of [generateSlidingMoves] for one
    direction.  [fuel] bounds the number of iterations; 64 always
    suffices ([EngineProofs.slideRay_fuel]). *)
Fixpoint slideRay (fuel : nat) (gs : GameState) (sq : Square) (p : Piece)
         (dir : Dir) (t : Z) (lastFile : Z) : list Move :=
  match fuel with
  | O => []
  | S fuel' =>
      if negb (onBoard t) then []
      else
        let currentFile := fileOf t in
        if wrapChecked dir && negb (Z.abs (currentFile - lastFile) =? 1)
        then []
        else
          match getSq (board gs) t with
          | None =>
              plainMove sq t p ::
              slideRay fuel' gs sq p dir (t + dirVals dir) currentFile
          | Some target =>
              if negb (Color_eqb (color target) (color p))
              then [mkMove sq t p (Some target) None false false]
              else []
          end
  end.

Definition slideFuel : nat := 64%nat.

Definition generateSlidingMoves (gs : GameState) (sq : Square) (p : Piece)
           (dirs : list Dir) : list Move :=
  flat_map (fun dir =>
    slideRay slideFuel gs sq p dir (sq + dirVals dir) (fileOf sq)) dirs.

Definition castleMove (sq t : Square) (p : Piece) : Move :=
  mkMove sq t p None None false true.

Definition generateKingMoves (gs : GameState) (sq : Square) (p : Piece)
  : list Move :=
  let b := board gs in
  let c := castling gs in
  stepMoves gs sq p 1 kingDeltas ++
  match color p with
  | W =>
      (if wks c && isEmpty b 5 && isEmpty b 6
       then [castleMove sq 6 p] else []) ++
      (if wqs c && isEmpty b 1 && isEmpty b 2 && isEmpty b 3
       then [castleMove sq 2 p] else [])
  | B =>
      (if bks c && isEmpty b 61 && isEmpty b 62
       then [castleMove sq 62 p] else []) ++
      (if bqs c && isEmpty b 57 && isEmpty b 58 && isEmpty b 59
       then [castleMove sq 58 p] else [])
  end.

Definition squares : list Z := map Z.of_nat (seq 0 64).

Definition movesFrom (gs : GameState) (sq : Square) : list Move :=
  match getSq (board gs) sq with
  | None => []
  | Some p =>
      if negb (Color_eqb (color p) (turn gs)) then []
      else if Ascii.eqb (type p) "p" then generatePawnMoves gs sq p
      else if Ascii.eqb (type p) "n" then generateKnightMoves gs sq p
      else if Ascii.eqb (type p) "b"
        then generateSlidingMoves gs sq p [dNE; dNW; dSE; dSW]
      else if Ascii.eqb (type p) "r"
        then generateSlidingMoves gs sq p [dN; dS; dE; dW]
      else if Ascii.eqb (type p) "q"
        then generateSlidingMoves gs sq p [dN; dS; dE; dW; dNE; dNW; dSE; dSW]
      else if Ascii.eqb (type p) "k" then generateKingMoves gs sq p
      else []
  end.

Definition generatePseudoLegalMoves (gs : GameState) : list Move :=
  flat_map (movesFrom gs) squares.

(** [makeMove] writes [move.captured]; this is the value it stores. *)
Definition setCaptured (move : Move) (c : option Piece) : Move :=
  mkMove (from move) (to move) (piece move) c (promotion move)
         (isEnPassant move) (isCastling move).

Definition enPassantVictim (move : Move) : Square :=
  match color (piece move) with W => to move - 8 | B => to move + 8 end.

Definition clearKingRights (c : Color) (r : CastlingRights) : CastlingRights :=
  match c with
  | W => mkCastling false false (bks r) (bqs r)
  | B => mkCastling (wks r) (wqs r) false false
  end.

(** The four [if (sq === ...) gs.castling.x = false] lines, used once with
    the origin of a rook move and once with the square of a captured rook. *)
Definition clearRookRights (sq : Square) (r : CastlingRights) : CastlingRights :=
  let r := if sq =? 0 then mkCastling (wks r) false (bks r) (bqs r) else r in
  let r := if sq =? 7 then mkCastling false (wqs r) (bks r) (bqs r) else r in
  let r := if sq =? 56 then mkCastling (wks r) (wqs r) (bks r) false else r in
  let r := if sq =? 63 then mkCastling (wks r) (wqs r) false (bqs r) else r in
  r.

Definition castleRook (b : Board) (t : Square) : Board :=
  if t =? 6 then setSq (setSq b 5 (getSq b 7)) 7 None
  else if t =? 2 then setSq (setSq b 3 (getSq b 0)) 0 None
  else if t =? 62 then setSq (setSq b 61 (getSq b 63)) 63 None
  else if t =? 58 then setSq (setSq b 59 (getSq b 56)) 56 None
  else b.

Definition isSome {A} (o : option A) : bool :=
  match o with Some _ => true | None => false end.

(** [makeMove(gs, move)] updates both arguments in place; the pair is the
    state and the move object after the call. The history entry holds the
    move object itself, hence its final content. *)
Definition makeMove (gs : GameState) (move0 : Move) : GameState * Move :=
  let p := piece move0 in
  let capSq := enPassantVictim move0 in
  let cap :=
    if isEnPassant move0 then getSq (board gs) capSq
    else getSq (board gs) (to move0) in
  let move := setCaptured move0 cap in
  let hist := history gs ++
    [mkEntry move (castling gs) (enPassant gs) (halfmoveClock gs)] in
  let b := if isEnPassant move0 then setSq (board gs) capSq None else board gs in
  let placed :=
    match promotion move0 with
    | Some pr => mkPiece pr (color p)
    | None => p
    end in
  let b := setSq b (to move0) (Some placed) in
  let b := setSq b (from move0) None in
  let isKing := Ascii.eqb (type p) "k" in
  let rights := if isKing then clearKingRights (color p) (castling gs)
                else castling gs in
  let b := if isKing && isCastling move0 then castleRook b (to move0) else b in
  let rights := if Ascii.eqb (type p) "r"
                then clearRookRights (from move0) rights else rights in
  let rights :=
    match cap with
    | Some c => if Ascii.eqb (type c) "r"
                then clearRookRights (to move0) rights else rights
    | None => rights
    end in
  let ep :=
    if Ascii.eqb (type p) "p" && (Z.abs (to move0 - from move0) =? 16)
    then Some ((from move0 + to move0) / 2) else None in
  let hm := if Ascii.eqb (type p) "p" || isSome cap
            then 0 else Js.incr (halfmoveClock gs) in
  let fm := match turn gs with
            | B => Js.incr (fullmoveNumber gs)
            | W => fullmoveNumber gs
            end in
  (mkGameState b (opposite (turn gs)) rights ep hm fm hist, move).

(** [xs.pop()]: the last element and the shortened array. *)
Fixpoint pop {A} (xs : list A) : option (list A * A) :=
  match xs with
  | [] => None
  | x :: rest =>
      match pop rest with
      | None => Some ([], x)
      | Some (front, lst) => Some (x :: front, lst)
      end
  end.

Definition uncastleRook (b : Board) (t : Square) : Board :=
  let b := if t =? 6 then setSq (setSq b 7 (getSq b 5)) 5 None else b in
  let b := if t =? 2 then setSq (setSq b 0 (getSq b 3)) 3 None else b in
  let b := if t =? 62 then setSq (setSq b 63 (getSq b 61)) 61 None else b in
  let b := if t =? 58 then setSq (setSq b 56 (getSq b 59)) 59 None else b in
  b.

Definition undoMove (gs : GameState) : GameState :=
  match pop (history gs) with
  | None => gs
  | Some (hist, last) =>
      let move := h_move last in
      let t := opposite (turn gs) in
      let fm := match t with
                | B => Js.decr (fullmoveNumber gs)
                | W => fullmoveNumber gs
                end in
      let b := setSq (board gs) (from move) (Some (piece move)) in
      let b :=
        if isEnPassant move
        then setSq (setSq b (enPassantVictim move) (captured move)) (to move) None
        else setSq b (to move) (captured move) in
      let b := if isCastling move then uncastleRook b (to move) else b in
      mkGameState b t (h_castling last) (h_enPassant last)
                  (h_halfmoveClock last) fm hist
  end.

Definition isPieceAt (b : Board) (sq : Z) (ty : PieceType) (c : Color) : bool :=
  match getSq b sq with
  | Some p => Ascii.eqb (type p) ty && Color_eqb (color p) c
  | None => false
  end.

(** One [while (onBoard(from))] loop of [isSquareAttacked]: walk from
    [from] in steps of [d] until the board ends, a step wraps around an
    edge, or a piece is met.  64 units of fuel always suffice
    ([EngineProofs.attackRay_fuel]). *)
Fixpoint attackRay (fuel : nat) (b : Board) (byColor : Color)
         (d : Z) (ty : PieceType) (from : Z) : bool :=
  match fuel with
  | O => false
  | S fuel' =>
      if negb (onBoard from) then false
      else
        let prev := from - d in
        let fileDiff := Z.abs (fileOf from - fileOf prev) in
        let rankDiff := Z.abs (rankOf from - rankOf prev) in
        if (fileDiff >? 1) || (rankDiff >? 1) then false
        else
          match getSq b from with
          | Some p =>
              Color_eqb (color p) byColor
              && (Ascii.eqb (type p) ty || Ascii.eqb (type p) "q")
          | None => attackRay fuel' b byColor d ty (from + d)
          end
  end.

Definition attackDirs : list (Z * PieceType) :=
  [(8, "r"%char); (-8, "r"%char); (1, "r"%char); (-1, "r"%char);
   (9, "b"%char); (7, "b"%char); (-7, "b"%char); (-9, "b"%char)].

Definition isSquareAttacked (gs : GameState) (sq : Square) (byColor : Color)
  : bool :=
  let b := board gs in
  let pawnFrom := match byColor with
                  | W => [sq - 7; sq - 9]
                  | B => [sq + 7; sq + 9]
                  end in
  existsb (fun from =>
    onBoard from && (Z.abs (fileOf sq - fileOf from) =? 1)
    && isPieceAt b from "p"%char byColor) pawnFrom
  || existsb (fun d =>
       let from := sq + d in
       onBoard from && negb (Z.abs (fileOf sq - fileOf from) >? 2)
       && isPieceAt b from "n"%char byColor) knightDeltas
  || existsb (fun dt => attackRay slideFuel b byColor (fst dt) (snd dt)
                                  (sq + fst dt)) attackDirs
  || existsb (fun d =>
       let from := sq + d in
       onBoard from && negb (Z.abs (fileOf sq - fileOf from) >? 1)
       && isPieceAt b from "k"%char byColor) kingDeltas.

Definition findKingSquare (gs : GameState) (c : Color) : option Square :=
  find (fun i => isPieceAt (board gs) i "k"%char c) squares.

Definition inCheck (gs : GameState) (c : Color) : bool :=
  match findKingSquare gs c with
  | None => false
  | Some kingSq => isSquareAttacked gs kingSq (opposite c)
  end.

Definition castlingPath (t : Square) : list Square :=
  if t =? 6 then [4; 5; 6]
  else if t =? 2 then [4; 3; 2]
  else if t =? 62 then [60; 61; 62]
  else [60; 59; 58].

(** The body of the loop of [generateLegalMoves] for one pseudo-legal move:
    the move (as [makeMove] leaves it) when it is kept. *)
Definition legalOne (gs : GameState) (mv : Move) : list Move :=
  let enemy := opposite (turn gs) in
  if isCastling mv
     && existsb (fun sq => isSquareAttacked gs sq enemy) (castlingPath (to mv))
  then []
  else
    let '(snapshot, mv') := makeMove (cloneGameState gs) mv in
    if negb (inCheck snapshot (turn gs)) then [mv'] else [].

Definition generateLegalMoves (gs : GameState) : list Move :=
  flat_map (legalOne gs) (generatePseudoLegalMoves gs).

Record Status : Type := mkStatus {
  check : bool; checkmate : bool; stalemate : bool; draw : bool
}.

Definition gameStatus (gs : GameState) : Status :=
  let legal := generateLegalMoves gs in
  let chk := inCheck gs (turn gs) in
  match legal with
  | [] => if chk then mkStatus true true false false
          else mkStatus false false true true
  | _ => mkStatus chk false false false
  end.

(** *** FEN *)

(** The [for (const ch of row)] loop. *)
Fixpoint decodeRow (row : string) (r : Z) (file : Z) (b : Board) : Board :=
  match row with
  | EmptyString => b
  | String ch rest =>
      if Js.isDigit ch then decodeRow rest r (file + Js.digitValue ch) b
      else
        let c := if Ascii.eqb ch (Js.toUpperCase ch) then W else B in
        let ty := Js.toLowerCase ch in
        decodeRow rest r (file + 1) (setSq b (r * 8 + file) (Some (mkPiece ty c)))
  end.

(** The [for (let r=0; r<8; r++)] loop; [rows[7 - r]] is [undefined] when
    the board field has too few ranks, and iterating it raises. *)
Fixpoint decodeRows (rs : list Z) (rows : list string) (b : Board)
  : Js.Outcome Board :=
  match rs with
  | [] => Js.Ok b
  | r :: rs' =>
      match rows !! Z.to_nat (7 - r) with
      | None => Js.ThrowTypeError
      | Some row => decodeRows rs' rows (decodeRow row r 0 b)
      end
  end.

Definition ranks : list Z := [0; 1; 2; 3; 4; 5; 6; 7].

(** [Number(part || dflt)] *)
Definition numberOr (part : option string) (dflt : Z) : option Z :=
  match part with
  | None => Some dflt
  | Some EmptyString => Some dflt
  | Some s => Js.Number s
  end.

Definition fromModel {A} (o : option A) : Js.Outcome A :=
  match o with Some a => Js.Ok a | None => Js.Unmodelled end.

Definition fenToGameState (fen : string) : Js.Outcome GameState :=
  let parts := Js.split " " fen in
  match parts with
  | p0 :: p1 :: p2 :: p3 :: more =>
      let rows := Js.split "/" p0 in
      Js.bind (decodeRows ranks rows makeEmptyBoard) (fun b =>
      let t := if String.eqb p1 "w" then W else B in
      let rights := mkCastling (Js.includes p2 "K") (Js.includes p2 "Q")
                               (Js.includes p2 "k") (Js.includes p2 "q") in
      Js.bind (if String.eqb p3 "-" then Js.Ok None
               else fromModel (option_map Some (algebraicToSquare p3)))
        (fun ep =>
      Js.bind (fromModel (numberOr (more !! 0%nat) 0)) (fun hm =>
      Js.bind (fromModel (numberOr (more !! 1%nat) 1)) (fun fm =>
      Js.Ok (mkGameState b t rights ep hm fm [])))))
  | _ => Js.ThrowError "Invalid FEN"
  end.

Definition pieceChar (p : Piece) : ascii :=
  match color p with
  | W => Js.toUpperCase (type p)
  | B => Js.toLowerCase (type p)
  end.

(** The [for (let f=0; f<8; f++)] loop, with [row] and [empty] as its
    state, followed by the final flush of [empty]. *)
Fixpoint encodeRow (b : Board) (r : Z) (fs : list Z) (row : string) (empty : Z)
  : string :=
  match fs with
  | [] => if empty =? 0 then row else (row ++ Js.toString empty)%string
  | f :: fs' =>
      match getSq b (r * 8 + f) with
      | None => encodeRow b r fs' row (empty + 1)
      | Some p =>
          let row := if empty =? 0 then row
                     else (row ++ Js.toString empty)%string in
          encodeRow b r fs' (row ++ String (pieceChar p) EmptyString)%string 0
      end
  end.

Definition files : list Z := [0; 1; 2; 3; 4; 5; 6; 7].

Definition gameStateToFEN (gs : GameState) : string :=
  let rows := map (fun r => encodeRow (board gs) r files EmptyString 0)
                  [7; 6; 5; 4; 3; 2; 1; 0] in
  let boardPart := Js.join "/" rows in
  let turnPart := (match turn gs with W => "w" | B => "b" end)%string in
  let c := castling gs in
  let castlePart :=
    ((if wks c then "K" else "") ++ (if wqs c then "Q" else "") ++
     (if bks c then "k" else "") ++ (if bqs c then "q" else ""))%string in
  let castlePart := if String.eqb castlePart "" then "-"%string else castlePart in
  let epPart := match enPassant gs with
                | None => "-"%string
                | Some sq => squareToAlgebraic sq
                end in
  (boardPart ++ " " ++ turnPart ++ " " ++ castlePart ++ " " ++ epPart ++ " "
   ++ Js.toString (halfmoveClock gs) ++ " " ++ Js.toString (fullmoveNumber gs))%string.

(** *** Notions used to state the properties *)

(** The test [attackRay] applies to a step between neighbours of its walk. *)
Definition stepOK (a b : Z) : Prop :=
  Z.abs (fileOf a - fileOf b) <= 1 /\ Z.abs (rankOf a - rankOf b) <= 1.

(** The walk of [attackRay] without fuel: from [from], in steps of [d],
    the first piece met is of colour [byColor] and is a [ty] or a queen. *)
Inductive RayHits (b : Board) (byColor : Color) (d : Z) (ty : PieceType)
  : Z -> Prop :=
| hit_here from p :
    onBoard from = true -> stepOK from (from - d) ->
    getSq b from = Some p -> color p = byColor ->
    type p = ty \/ type p = "q"%char ->
    RayHits b byColor d ty from
| hit_later from :
    onBoard from = true -> stepOK from (from - d) ->
    getSq b from = None ->
    RayHits b byColor d ty (from + d) ->
    RayHits b byColor d ty from.

(** Squares left on the board ahead of [from] when walking by [d]. *)
Definition rayMeasure (d from : Z) : nat :=
  Z.to_nat (if 0 <? d then 64 - from else from + 1).

(** The piece type whose attack runs along a direction. *)
Definition sliderOf (dir : Dir) : PieceType :=
  match dir with
  | dN | dS | dE | dW => "r"%char
  | _ => "b"%char
  end.

(** The position [initialFEN] denotes, written out. *)

Definition wP (ty : PieceType) : option Piece := Some (mkPiece ty W).
Definition bP (ty : PieceType) : option Piece := Some (mkPiece ty B).

Definition startBoard : Board :=
  [wP "r"; wP "n"; wP "b"; wP "q"; wP "k"; wP "b"; wP "n"; wP "r"]%char
  ++ replicate 8%nat (wP "p"%char)
  ++ replicate 32%nat None
  ++ replicate 8%nat (bP "p"%char)
  ++ [bP "r"; bP "n"; bP "b"; bP "q"; bP "k"; bP "b"; bP "n"; bP "r"]%char.

Definition startPosition : GameState :=
  mkGameState startBoard W (mkCastling true true true true) None 0 1 [].

(** No king of colour [c] stands on the board. *)
Definition noKing (gs : GameState) (c : Color) : Prop :=
  forall sq p, getSq (board gs) sq = Some p -> type p = "k"%char -> color p <> c.

(** A position whose fullmove number is [2^53], Black to move, and the
    king move Ke8-f8. *)
Definition lateGame : string := "4k3/8/8/8/8/8/8/4K2R b K - 0 9007199254740992".

Definition lateGameMove : Move :=
  mkMove 60 61 (mkPiece "k"%char B) None None false false.

Definition emptyPosition : GameState :=
  mkGameState makeEmptyBoard W (mkCastling false false false false) None 0 1 [].

(** What legality of a position contributes to undoing a move: the board
    has its 64 squares, a castling right still held has its rook on the
    corner, and the en-passant target is an empty square. *)
Record well_formed (gs : GameState) : Prop := mkWellFormed {
  wf_length : length (board gs) = 64%nat;
  wf_wks : wks (castling gs) = true ->
           getSq (board gs) 7 = Some (mkPiece "r"%char W);
  wf_wqs : wqs (castling gs) = true ->
           getSq (board gs) 0 = Some (mkPiece "r"%char W);
  wf_bks : bks (castling gs) = true ->
           getSq (board gs) 63 = Some (mkPiece "r"%char B);
  wf_bqs : bqs (castling gs) = true ->
           getSq (board gs) 56 = Some (mkPiece "r"%char B);
  wf_ep : forall e, enPassant gs = Some e -> getSq (board gs) e = None
}.

(** The positions of a game: the initial one and those reached by legal
    moves. *)
Inductive reachable : GameState -> Prop :=
| reach_start : reachable startPosition
| reach_move gs m :
    reachable gs -> In m (generateLegalMoves gs) ->
    reachable (fst (makeMove gs m)).

(** What a position needs for its FEN text to denote it again: 64
    squares, piece types among the six letters, an en-passant target on the
    board, and clocks that are not negative. *)
Definition pieceLetters : list PieceType :=
  ["p"%char; "n"%char; "b"%char; "r"%char; "q"%char; "k"%char].

Record printable (gs : GameState) : Prop := mkPrintable {
  pr_length : length (board gs) = 64%nat;
  pr_types : forall i q, getSq (board gs) i = Some q -> In (type q) pieceLetters;
  pr_ep : forall e, enPassant gs = Some e -> 0 <= e < 64;
  pr_halfmove : 0 <= halfmoveClock gs <= 2 ^ 53;
  pr_fullmove : 0 <= fullmoveNumber gs <= 2 ^ 53
}.

(** The state a decoder can produce: the history is not part of FEN. *)
Definition withoutHistory (gs : GameState) : GameState :=
  mkGameState (board gs) (turn gs) (castling gs) (enPassant gs)
              (halfmoveClock gs) (fullmoveNumber gs) [].

(** [B] holds the pieces of [b] below square [lim] and nothing from there on:
    the state of the board being decoded. *)
Definition decodedUpTo (b B : Board) (lim : Z) : Prop :=
  length B = 64%nat /\
  forall j, getSq B j = if j <? lim then getSq b j else None.

(** The conditions under which [generateKingMoves] offers castling to
    square [t]. *)
Definition castleOffered (gs : GameState) (c : Color) (t : Square) : Prop :=
  let b := board gs in
  match c with
  | W => (t = 6 /\ wks (castling gs) = true /\ getSq b 5 = None /\ getSq b 6 = None)
         \/ (t = 2 /\ wqs (castling gs) = true
             /\ getSq b 1 = None /\ getSq b 2 = None /\ getSq b 3 = None)
  | B => (t = 62 /\ bks (castling gs) = true
          /\ getSq b 61 = None /\ getSq b 62 = None)
         \/ (t = 58 /\ bqs (castling gs) = true
             /\ getSq b 57 = None /\ getSq b 58 = None /\ getSq b 59 = None)
  end.

(** The three kinds of move the generator produces. *)
Inductive MoveKind (gs : GameState) (m : Move) : Prop :=
| kind_plain :
    isEnPassant m = false -> isCastling m = false ->
    (type (piece m) = "p"%char -> Z.abs (to m - from m) = 16 ->
     getSq (board gs) ((from m + to m) / 2) = None) ->
    MoveKind gs m
| kind_enPassant cp :
    isEnPassant m = true -> isCastling m = false ->
    type (piece m) = "p"%char -> promotion m = None ->
    enPassant gs = Some (to m) ->
    getSq (board gs) (enPassantVictim m) = Some cp -> type cp = "p"%char ->
    Z.abs (to m - from m) = 7 \/ Z.abs (to m - from m) = 9 ->
    MoveKind gs m
| kind_castle :
    isCastling m = true -> isEnPassant m = false ->
    type (piece m) = "k"%char -> promotion m = None ->
    castleOffered gs (color (piece m)) (to m) ->
    MoveKind gs m.

Record MoveShape (gs : GameState) (m : Move) : Prop := mkMoveShape {
  ms_from : onBoard (from m) = true;
  ms_to : onBoard (to m) = true;
  ms_apart : from m <> to m;
  ms_piece : getSq (board gs) (from m) = Some (piece m);
  ms_turn : color (piece m) = turn gs;
  ms_promotion : forall pr, promotion m = Some pr -> In pr promotionPieces;
  ms_kind : MoveKind gs m
}.


(** The board field and the castling field of [gameStateToFEN]. *)
Definition boardText (b : Board) : string :=
  Js.join "/" (map (fun r => encodeRow b r files EmptyString 0)
                   [7; 6; 5; 4; 3; 2; 1; 0]).

Definition castleText (c : CastlingRights) : string :=
  let t := ((if wks c then "K" else "") ++ (if wqs c then "Q" else "") ++
            (if bks c then "k" else "") ++ (if bqs c then "q" else ""))%string in
  if String.eqb t "" then "-"%string else t.

(** *** Notions used for the further properties *)

(** The value [makeMove] stores in [move.captured]. *)
Definition capturedAsMade (gs : GameState) (m : Move) : option Piece :=
  if isEnPassant m then getSq (board gs) (enPassantVictim m)
  else getSq (board gs) (to m).

Definition pawnStartRank (c : Color) : Z := match c with W => 1 | B => 6 end.
Definition pawnLastRank (c : Color) : Z := match c with W => 7 | B => 0 end.
Definition pawnStep (c : Color) : Z := match c with W => 8 | B => -8 end.

(** What the generators fix about a move made for the piece [p] on [sq]. *)
Record MoveEnds (gs : GameState) (sq : Square) (p : Piece) (m : Move)
  : Prop := mkMoveEnds {
  me_from : from m = sq;
  me_piece : piece m = p;
  me_captured : captured m = capturedAsMade gs m;
  me_enemy : forall q, captured m = Some q -> color q <> color p;
  me_jump : type p = "p"%char -> Z.abs (to m - sq) = 16 ->
            rankOf sq = pawnStartRank (color p) /\
            to m = sq + 2 * pawnStep (color p);
  me_promotion : forall pr, promotion m = Some pr ->
                 type p = "p"%char /\ rankOf (to m) = pawnLastRank (color p);
  me_last_rank : type p = "p"%char -> isEnPassant m = false ->
                 rankOf (to m) = pawnLastRank (color p) ->
                 promotion m <> None
}.

(** 1.e4, the move used to exhibit the properties. *)
Definition kingsPawnOpening : Move :=
  mkMove 12 28 (mkPiece "p"%char W) None None false false.

(** A capture of [q] on [sq] by the piece [p] standing on [a]. *)
Definition captureMove (a sq : Square) (p q : Piece) : Move :=
  mkMove a sq p (Some q) None false false.

(** The generator standing on [t], having come from [t - delta], goes on
    to capture [q] on [sq] whatever piece of colour [c] it runs for. *)
Definition genReaches (gs : GameState) (c : Color) (dir : Dir)
           (sq : Square) (q : Piece) (t : Z) : Prop :=
  forall a p fuel,
    color p = c ->
    (rayMeasure (dirVals dir) t <= fuel)%nat ->
    (wrapChecked dir = true ->
     Z.abs (fileOf t - fileOf (t - dirVals dir)) = 1) ->
    In (captureMove a sq p q)
       (slideRay fuel gs a p dir t (fileOf (t - dirVals dir))).

(** 1...d5 in answer, which leaves White a capture on d5. *)
Definition centreCounter : Move :=
  mkMove 51 35 (mkPiece "p"%char B) None None false false.

Definition afterE4D5 : GameState :=
  fst (makeMove (fst (makeMove startPosition kingsPawnOpening)) centreCounter).

(** [makeMove] for each move of [ms] in turn, on the one state object. *)
Fixpoint makeMoves (gs : GameState) (ms : list Move) : GameState :=
  match ms with
  | [] => gs
  | m :: rest => makeMoves (fst (makeMove gs m)) rest
  end.

(** [undoMove] called [n] times. *)
Fixpoint undoMoves (n : nat) (gs : GameState) : GameState :=
  match n with
  | O => gs
  | S k => undoMoves k (undoMove gs)
  end.

(** Each move of the line is legal where it is played. *)
Inductive LegalLine : GameState -> list Move -> Prop :=
| line_nil gs : LegalLine gs []
| line_cons gs m rest :
    In m (generateLegalMoves gs) ->
    LegalLine (fst (makeMove gs m)) rest ->
    LegalLine gs (m :: rest).

End Engine.

(** ** [src/workers/aiWorker.ts] *)

Module AiWorker.
Import Engine.

(** The numbers the search handles: integers, the two infinities, and the
    [NaN] that [evaluate] yields for a piece type missing from
    [pieceValues]. *)
Inductive Score : Type := NegInf | Fin (z : Z) | PosInf | NaN.

Definition pieceValues (ty : PieceType) : option Z :=
  if Ascii.eqb ty "p" then Some 100
  else if Ascii.eqb ty "n" then Some 320
  else if Ascii.eqb ty "b" then Some 330
  else if Ascii.eqb ty "r" then Some 500
  else if Ascii.eqb ty "q" then Some 900
  else if Ascii.eqb ty "k" then Some 20000
  else None.

Definition addValue (score : Score) (v : option Z) (c : Color) : Score :=
  match score, v with
  | Fin s, Some n => Fin (match c with W => s + n | B => s - n end)
  | _, _ => NaN
  end.

Definition evaluate (gs : GameState) : Score :=
  fold_left (fun score sq =>
    match sq with
    | None => score
    | Some p => addValue score (pieceValues (type p)) (color p)
    end) (board gs) (Fin 0).

(** [a < b] on JavaScript numbers; false whenever a [NaN] is involved. *)
Definition lt (a b : Score) : bool :=
  match a, b with
  | NaN, _ | _, NaN => false
  | NegInf, NegInf => false
  | NegInf, _ => true
  | _, NegInf => false
  | PosInf, _ => false
  | _, PosInf => true
  | Fin x, Fin y => x <? y
  end.

Definition Score_eqb (a b : Score) : bool :=
  match a, b with
  | NegInf, NegInf | PosInf, PosInf => true
  | Fin x, Fin y => x =? y
  | _, _ => false
  end.

Definition le (a b : Score) : bool := lt a b || Score_eqb a b.

Definition max (a b : Score) : Score :=
  match a, b with
  | NaN, _ | _, NaN => NaN
  | _, _ => if lt a b then b else a
  end.

Definition min (a b : Score) : Score :=
  match a, b with
  | NaN, _ | _, NaN => NaN
  | _, _ => if lt b a then b else a
  end.

(** [moves.sort((a, b) => (b.captured ? 10 : 0) - (a.captured ? 10 : 0))]:
    the sort is stable, so captures come first and each group keeps its
    order. *)
Definition sortMoves (moves : list Move) : list Move :=
  filter (fun m => isSome (captured m)) moves
  ++ filter (fun m => negb (isSome (captured m))) moves.

(** [minimax] works on one state object, which every [makeMove] and
    [undoMove] updates in place: the state is threaded through and returned
    with the score. *)
Fixpoint minimax (depth : nat) (gs : GameState) (alpha beta : Score)
         (isMaximizing : bool) : Score * GameState :=
  let status := gameStatus gs in
  if checkmate status then ((if isMaximizing then NegInf else PosInf), gs)
  else if stalemate status || draw status then (Fin 0, gs)
  else
    match depth with
    | O => (evaluate gs, gs)
    | S depth' =>
        let moves := sortMoves (generateLegalMoves gs) in
        if isMaximizing then
          (fix loop (ms : list Move) (gs : GameState) (alpha : Score)
               (maxEval : Score) {struct ms} : Score * GameState :=
             match ms with
             | [] => (maxEval, gs)
             | move :: ms' =>
                 let gs := fst (makeMove gs move) in
                 let '(evalScore, gs) := minimax depth' gs alpha beta false in
                 let gs := undoMove gs in
                 let maxEval := max maxEval evalScore in
                 let alpha := max alpha evalScore in
                 if le beta alpha then (maxEval, gs)
                 else loop ms' gs alpha maxEval
             end) moves gs alpha NegInf
        else
          (fix loop (ms : list Move) (gs : GameState) (beta : Score)
               (minEval : Score) {struct ms} : Score * GameState :=
             match ms with
             | [] => (minEval, gs)
             | move :: ms' =>
                 let gs := fst (makeMove gs move) in
                 let '(evalScore, gs) := minimax depth' gs alpha beta true in
                 let gs := undoMove gs in
                 let minEval := min minEval evalScore in
                 let beta := min beta evalScore in
                 if le beta alpha then (minEval, gs)
                 else loop ms' gs beta minEval
             end) moves gs beta PosInf
    end.

(** The root loop of [onmessage]: [tempState] is decoded afresh from [fen]
    for every move, so it equals [gs0]. *)
Fixpoint rootLoop (gs0 : GameState) (depth : nat) (isMaximizing : bool)
         (moves : list Move) (bestMove : option Move) (bestValue : Score)
  : option Move :=
  match moves with
  | [] => bestMove
  | move :: rest =>
      let '(tempState, move') := makeMove gs0 move in
      let val := fst (minimax (Nat.pred depth) tempState NegInf PosInf
                              (negb isMaximizing)) in
      if isMaximizing then
        if lt bestValue val
        then rootLoop gs0 depth isMaximizing rest (Some move') val
        else rootLoop gs0 depth isMaximizing rest bestMove bestValue
      else
        if lt val bestValue
        then rootLoop gs0 depth isMaximizing rest (Some move') val
        else rootLoop gs0 depth isMaximizing rest bestMove bestValue
  end.

(** [onmessage]: the posted [bestMove].  [depth] is at least 1 in the
    model: with [depth = 0] the source calls [minimax] with [-1], which
    never meets its [depth === 0] test. A [color] other than ['w'] behaves
    as ['b']. *)
Definition onmessage (fen : string) (depth : nat) (c : Color)
  : Js.Outcome (option Move) :=
  Js.bind (fenToGameState fen) (fun gs =>
    let moves := generateLegalMoves gs in
    match moves with
    | [] => Js.Ok None
    | _ =>
        let isMaximizing := Color_eqb c W in
        let bestValue := if isMaximizing then NegInf else PosInf in
        Js.Ok (rootLoop gs depth isMaximizing moves None bestValue)
    end).

(** White to move has one legal move, after which Black mates. *)
Definition cornered : string := "8/8/8/8/8/6k1/q7/7K w - - 0 1".

(** *** Notions used for the further properties *)



End AiWorker.

(** ** [server/games/chess.ts]: class [ChessGame]

    The board is [ChessSquare[][]], eight rows of eight squares, row 0
    being Black's back rank.  Reading a square of a row that is not there
    and writing a field of [null] ([piece.hasMoved = true] on an empty
    square) raise a [TypeError]: every function that reads the board has
    an outcome, and the tests of the source are passed in its order. *)

Module Server.

Inductive ChessColor : Type := white | black.
Inductive ChessPieceType : Type := king | queen | rook | bishop | knight | pawn.
Inductive CastleSide : Type := kingSide | queenSide.

Definition ChessColor_eqb (a b : ChessColor) : bool :=
  match a, b with
  | white, white | black, black => true
  | _, _ => false
  end.

Definition ChessPieceType_eqb (a b : ChessPieceType) : bool :=
  match a, b with
  | king, king | queen, queen | rook, rook
  | bishop, bishop | knight, knight | pawn, pawn => true
  | _, _ => false
  end.

Record ChessPiece : Type := mkPiece {
  id : string;
  type : ChessPieceType;
  color : ChessColor;
  hasMoved : bool
}.

Record ChessCoord : Type := mkCoord { x : Z; y : Z }.

Record ChessMove : Type := mkMove {
  from : ChessCoord;
  to : ChessCoord;
  pieceId : string;
  capture : option ChessPiece;
  promotion : option ChessPieceType;
  isEnPassant : bool;
  isCastle : option CastleSide
}.

Record CastlingRights : Type := mkRights {
  whiteKingSide : bool;
  whiteQueenSide : bool;
  blackKingSide : bool;
  blackQueenSide : bool
}.

Record Players : Type := mkPlayers { p_white : string; p_black : string }.

Abbreviation Board := (list (list (option ChessPiece))).

Record ChessGameState : Type := mkState {
  board : Board;
  sideToMove : ChessColor;
  castlingRights : CastlingRights;
  enPassantSquare : option ChessCoord;
  halfmoveClock : Z;
  fullmoveNumber : Z;
  history : list string;
  lastMove : option ChessMove;
  players : Players;
  fen : string;
  gameOver : bool;
  winner : option string;
  check : bool;
  checkmate : bool;
  stalemate : bool;
  draw : bool
}.

Record MoveResult : Type := mkResult {
  success : bool;
  gameState : option ChessGameState;
  error : option string
}.

(** [board[y][x]].  When row [y] is not there, [board[y]] is [undefined]
    and reading [x] from it raises a [TypeError]; a square missing from a
    row that is there reads as [undefined]. *)
Definition getXY (b : Board) (cx cy : Z) : Js.Outcome (option ChessPiece) :=
  if cy <? 0 then Js.ThrowTypeError
  else match b !! Z.to_nat cy with
       | None => Js.ThrowTypeError
       | Some row =>
           if cx <? 0 then Js.Ok None
           else Js.Ok match row !! Z.to_nat cx with
                      | Some sq => sq
                      | None => None
                      end
       end.

(** [board[y][x] = v].  A missing row raises as for a read.  Inside the row
    this is an update; at or past its end JavaScript grows the row, the
    new slots reading as [undefined]; a negative [x] sets a property the
    model does not track. *)
Definition setXY (b : Board) (cx cy : Z) (v : option ChessPiece)
  : Js.Outcome Board :=
  if cy <? 0 then Js.ThrowTypeError
  else match b !! Z.to_nat cy with
       | None => Js.ThrowTypeError
       | Some row =>
           if cx <? 0 then Js.Ok b
           else if cx <? Z.of_nat (length row)
           then Js.Ok (<[Z.to_nat cy := <[Z.to_nat cx := v]> row]> b)
           else Js.Ok (<[Z.to_nat cy :=
                         row ++ replicate (Z.to_nat cx - length row)%nat None
                             ++ [v]]> b)
       end.

Definition backRank : list ChessPieceType :=
  [rook; knight; bishop; queen; king; bishop; knight; rook].

Definition pawns : list ChessPieceType := replicate 8%nat pawn.

(** [uuidv4] is drawn once per piece; [uuid k] is the value of call [k]. *)
Definition setupRow (uuid : nat -> string) (start : nat) (c : ChessColor)
           (pieces : list ChessPieceType) : list (option ChessPiece) :=
  imap (fun col ty => Some (mkPiece (uuid (start + col)%nat) ty c false)) pieces.

Definition createInitialBoard (uuid : nat -> string) : Board :=
  [setupRow uuid 0 black backRank;
   setupRow uuid 8 black pawns;
   replicate 8%nat None; replicate 8%nat None;
   replicate 8%nat None; replicate 8%nat None;
   setupRow uuid 16 white pawns;
   setupRow uuid 24 white backRank].

Definition initializeGame (uuid : nat -> string)
           (whitePlayerId blackPlayerId : string) : ChessGameState :=
  mkState (createInitialBoard uuid) white (mkRights true true true true)
          None 0 1 [] None (mkPlayers whitePlayerId blackPlayerId)
          "rnbqkbnr/pppppppp/8/8/8/8/PPPPPPPP/RNBQKBNR w KQkq - 0 1"
          false None false false false false.

Definition isValidPos (pos : ChessCoord) : bool :=
  (0 <=? x pos) && (x pos <? 8) && (0 <=? y pos) && (y pos <? 8).

Definition getOpponentColor (c : ChessColor) : ChessColor :=
  match c with white => black | black => white end.

(** [state.board[pos.y][pos.x]] *)
Definition at_ (st : ChessGameState) (pos : ChessCoord)
  : Js.Outcome (option ChessPiece) :=
  getXY (board st) (x pos) (y pos).

(** [p && p.color === c && p.type === ty] for the piece read at [pos]. *)
Definition isPieceAt (st : ChessGameState) (pos : ChessCoord)
           (c : ChessColor) (ty : ChessPieceType) : Js.Outcome bool :=
  let* p := at_ st pos in
  Js.Ok match p with
        | Some p => ChessColor_eqb (color p) c && ChessPieceType_eqb (type p) ty
        | None => false
        end.

Definition knightOffsets : list ChessCoord :=
  [mkCoord 1 2; mkCoord 1 (-2); mkCoord (-1) 2; mkCoord (-1) (-2);
   mkCoord 2 1; mkCoord 2 (-1); mkCoord (-2) 1; mkCoord (-2) (-1)].

Definition kingOffsets : list ChessCoord :=
  [mkCoord 0 1; mkCoord 0 (-1); mkCoord 1 0; mkCoord (-1) 0;
   mkCoord 1 1; mkCoord 1 (-1); mkCoord (-1) 1; mkCoord (-1) (-1)].

Definition rookDirs : list ChessCoord :=
  [mkCoord 0 1; mkCoord 0 (-1); mkCoord 1 0; mkCoord (-1) 0].

Definition bishopDirs : list ChessCoord :=
  [mkCoord 1 1; mkCoord 1 (-1); mkCoord (-1) 1; mkCoord (-1) (-1)].

Definition steps : list Z := [1; 2; 3; 4; 5; 6; 7].

(** The [for (let i = 1; i < 8; i++)] loop of [isSquareAttacked] for one
    direction: [true] where the source returns [true], [false] where it
    leaves the loop. *)
Fixpoint attackedAlong (st : ChessGameState) (pos dir : ChessCoord)
         (attackerColor : ChessColor) (ks : list Z) : Js.Outcome bool :=
  match ks with
  | [] => Js.Ok false
  | i :: ks' =>
      let t := mkCoord (x pos + x dir * i) (y pos + y dir * i) in
      if negb (isValidPos t) then Js.Ok false
      else
        let* sq := at_ st t in
        match sq with
        | Some p =>
            Js.Ok
              (if ChessColor_eqb (color p) attackerColor then
                 let isDiagonal := negb (x dir =? 0) && negb (y dir =? 0) in
                 ChessPieceType_eqb (type p) queen
                 || (isDiagonal && ChessPieceType_eqb (type p) bishop)
                 || (negb isDiagonal && ChessPieceType_eqb (type p) rook)
               else false)
        | None => attackedAlong st pos dir attackerColor ks'
        end
  end.

(** The four groups of tests run in the order of the source, each one
    returning [true] as soon as it finds an attacker. *)
Definition isSquareAttacked (st : ChessGameState) (pos : ChessCoord)
           (attackerColor : ChessColor) : Js.Outcome bool :=
  let pawnDir := match attackerColor with white => -1 | black => 1 end in
  let pawnRow := y pos - pawnDir in
  let stepsFrom (offsets : list ChessCoord) (ty : ChessPieceType) :=
    Js.existsM (fun off =>
      let t := mkCoord (x pos + x off) (y pos + y off) in
      if isValidPos t then isPieceAt st t attackerColor ty else Js.Ok false)
      offsets in
  Js.orM
    (if (0 <=? pawnRow) && (pawnRow <? 8) then
       Js.orM
         (if 0 <? x pos
          then isPieceAt st (mkCoord (x pos - 1) pawnRow) attackerColor pawn
          else Js.Ok false)
         (if x pos <? 7
          then isPieceAt st (mkCoord (x pos + 1) pawnRow) attackerColor pawn
          else Js.Ok false)
     else Js.Ok false)
  (Js.orM (stepsFrom knightOffsets knight)
  (Js.orM
    (Js.existsM (fun dir => attackedAlong st pos dir attackerColor steps)
                (rookDirs ++ bishopDirs))
    (stepsFrom kingOffsets king))).

Definition coords : list ChessCoord :=
  flat_map (fun cy => map (fun cx => mkCoord cx cy) [0; 1; 2; 3; 4; 5; 6; 7])
           [0; 1; 2; 3; 4; 5; 6; 7].

Definition findKing (st : ChessGameState) (c : ChessColor)
  : Js.Outcome (option ChessCoord) :=
  Js.findM (fun pos => isPieceAt st pos c king) coords.

Definition isKingInCheck (st : ChessGameState) (c : ChessColor)
  : Js.Outcome bool :=
  let* kingPos := findKing st c in
  match kingPos with
  | None => Js.Ok true
  | Some kingPos => isSquareAttacked st kingPos (getOpponentColor c)
  end.

Definition simpleMove (f t : ChessCoord) (p : ChessPiece)
           (cap : option ChessPiece) : ChessMove :=
  mkMove f t (id p) cap None false None.

Definition addPromotionMoves (f t : ChessCoord) (p : ChessPiece)
           (cap : option ChessPiece) : list ChessMove :=
  map (fun ty => mkMove f t (id p) cap (Some ty) false None)
      [queen; rook; bishop; knight].

Definition generatePawnMoves (st : ChessGameState) (f : ChessCoord)
           (p : ChessPiece) : Js.Outcome (list ChessMove) :=
  let direction := match color p with white => -1 | black => 1 end in
  let startRank := match color p with white => 6 | black => 1 end in
  let promotionRank := match color p with white => 0 | black => 7 end in
  let to1 := mkCoord (x f) (y f + direction) in
  let* forward :=
    if isValidPos to1 then
      let* sq1 := at_ st to1 in
      if negb (Engine.isSome sq1) then
        if y to1 =? promotionRank then Js.Ok (addPromotionMoves f to1 p None)
        else
          let* two :=
            if y f =? startRank then
              let to2 := mkCoord (x f) (y f + direction * 2) in
              let* sq2 := at_ st to2 in
              Js.Ok (if negb (Engine.isSome sq2)
                     then [simpleMove f to2 p None] else [])
            else Js.Ok [] in
          Js.Ok (simpleMove f to1 p None :: two)
      else Js.Ok []
    else Js.Ok [] in
  let* captures :=
    Js.flatMapM (fun offset =>
      let t := mkCoord (x f + offset) (y f + direction) in
      if isValidPos t then
        let enPassant :=
          match enPassantSquare st with
          | Some ep =>
              if (x t =? x ep) && (y t =? y ep) then
                let* capturedPawn := getXY (board st) (x t) (y f) in
                Js.Ok match capturedPawn with
                      | Some capturedPawn =>
                          if negb (ChessColor_eqb (color capturedPawn) (color p))
                          then [mkMove f t (id p) (Some capturedPawn) None
                                       true None]
                          else []
                      | None => []
                      end
              else Js.Ok []
          | None => Js.Ok []
          end in
        let* target := at_ st t in
        match target with
        | Some target =>
            if negb (ChessColor_eqb (color target) (color p)) then
              Js.Ok (if y t =? promotionRank
                     then addPromotionMoves f t p (Some target)
                     else [simpleMove f t p (Some target)])
            else enPassant
        | None => enPassant
        end
      else Js.Ok []) [-1; 1] in
  Js.Ok (forward ++ captures).

Definition generateStepMoves (st : ChessGameState) (f : ChessCoord)
           (p : ChessPiece) (offsets : list ChessCoord)
  : Js.Outcome (list ChessMove) :=
  Js.flatMapM (fun offset =>
    let t := mkCoord (x f + x offset) (y f + y offset) in
    if isValidPos t then
      let* target := at_ st t in
      Js.Ok match target with
            | None => [simpleMove f t p None]
            | Some target =>
                if negb (ChessColor_eqb (color target) (color p))
                then [simpleMove f t p (Some target)] else []
            end
    else Js.Ok []) offsets.

Definition generateKnightMoves (st : ChessGameState) (f : ChessCoord)
           (p : ChessPiece) : Js.Outcome (list ChessMove) :=
  generateStepMoves st f p knightOffsets.

(** [!state.board[y][x]] *)
Definition empty_ (st : ChessGameState) (cx cy : Z) : Js.Outcome bool :=
  let* sq := getXY (board st) cx cy in
  Js.Ok (negb (Engine.isSome sq)).

(** [!this.isSquareAttacked(state, pos, color)] *)
Definition notAttacked (st : ChessGameState) (pos : ChessCoord)
           (c : ChessColor) : Js.Outcome bool :=
  let* a := isSquareAttacked st pos c in
  Js.Ok (negb a).

Definition generateKingMoves (st : ChessGameState) (f : ChessCoord)
           (p : ChessPiece) : Js.Outcome (list ChessMove) :=
  let* stepMoves := generateStepMoves st f p kingOffsets in
  let* castling :=
    let* free :=
      Js.andM (Js.Ok (negb (hasMoved p)))
              (let* chk := isKingInCheck st (color p) in Js.Ok (negb chk)) in
    if free then
      let cy := match color p with white => 7 | black => 0 end in
      let rights := castlingRights st in
      let opp := getOpponentColor (color p) in
      let* ks :=
        Js.andM (Js.Ok (match color p with
                        | white => whiteKingSide rights
                        | black => blackKingSide rights
                        end))
        (Js.andM (empty_ st 5 cy)
        (Js.andM (empty_ st 6 cy)
        (Js.andM (notAttacked st (mkCoord 5 cy) opp)
                 (notAttacked st (mkCoord 6 cy) opp)))) in
      let* qs :=
        Js.andM (Js.Ok (match color p with
                        | white => whiteQueenSide rights
                        | black => blackQueenSide rights
                        end))
        (Js.andM (empty_ st 1 cy)
        (Js.andM (empty_ st 2 cy)
        (Js.andM (empty_ st 3 cy)
        (Js.andM (notAttacked st (mkCoord 3 cy) opp)
                 (notAttacked st (mkCoord 2 cy) opp))))) in
      Js.Ok
        ((if ks
          then [mkMove f (mkCoord 6 cy) (id p) None None false (Some kingSide)]
          else []) ++
         (if qs
          then [mkMove f (mkCoord 2 cy) (id p) None None false (Some queenSide)]
          else []))
    else Js.Ok [] in
  Js.Ok (stepMoves ++ castling).

(** The [for (let i = 1; i < 8; i++)] loop of [generateSlidingMoves]. *)
Fixpoint slideAlong (st : ChessGameState) (f : ChessCoord) (p : ChessPiece)
         (dir : ChessCoord) (ks : list Z) : Js.Outcome (list ChessMove) :=
  match ks with
  | [] => Js.Ok []
  | i :: ks' =>
      let t := mkCoord (x f + x dir * i) (y f + y dir * i) in
      if negb (isValidPos t) then Js.Ok []
      else
        let* target := at_ st t in
        match target with
        | Some target =>
            Js.Ok (if negb (ChessColor_eqb (color target) (color p))
                   then [simpleMove f t p (Some target)] else [])
        | None =>
            let* more := slideAlong st f p dir ks' in
            Js.Ok (simpleMove f t p None :: more)
        end
  end.

Definition generateSlidingMoves (st : ChessGameState) (f : ChessCoord)
           (p : ChessPiece) : Js.Outcome (list ChessMove) :=
  let directions :=
    (match type p with bishop | queen => bishopDirs | _ => [] end) ++
    (match type p with rook | queen => rookDirs | _ => [] end) in
  Js.flatMapM (fun dir => slideAlong st f p dir steps) directions.

Definition generatePseudoMoves (st : ChessGameState) (c : ChessColor)
  : Js.Outcome (list ChessMove) :=
  Js.flatMapM (fun f =>
    let* piece := at_ st f in
    match piece with
    | Some p =>
        if ChessColor_eqb (color p) c then
          match type p with
          | pawn => generatePawnMoves st f p
          | knight => generateKnightMoves st f p
          | bishop | rook | queen => generateSlidingMoves st f p
          | king => generateKingMoves st f p
          end
        else Js.Ok []
    | None => Js.Ok []
    end) coords.

Definition withMoved (p : ChessPiece) : ChessPiece :=
  mkPiece (id p) (type p) (color p) true.

Definition withType (p : ChessPiece) (ty : ChessPieceType) : ChessPiece :=
  mkPiece (id p) ty (color p) (hasMoved p).

Definition clearKing (c : ChessColor) (r : CastlingRights) : CastlingRights :=
  match c with
  | white => mkRights false false (blackKingSide r) (blackQueenSide r)
  | black => mkRights (whiteKingSide r) (whiteQueenSide r) false false
  end.

(** The four corner tests, used for a rook leaving and for a rook captured. *)
Definition clearCorner (c : ChessCoord) (r : CastlingRights) : CastlingRights :=
  let r := if (x c =? 0) && (y c =? 7)
           then mkRights (whiteKingSide r) false (blackKingSide r) (blackQueenSide r)
           else r in
  let r := if (x c =? 7) && (y c =? 7)
           then mkRights false (whiteQueenSide r) (blackKingSide r) (blackQueenSide r)
           else r in
  let r := if (x c =? 0) && (y c =? 0)
           then mkRights (whiteKingSide r) (whiteQueenSide r) (blackKingSide r) false
           else r in
  let r := if (x c =? 7) && (y c =? 0)
           then mkRights (whiteKingSide r) (whiteQueenSide r) false (blackQueenSide r)
           else r in
  r.

(** [applyMove(state, move, testMode)]: works on a deep copy of [state],
    which is the value returned.  The moved piece is one object, so the
    square it lands on shows its final content ([hasMoved], promoted type);
    on an empty origin square [piece.hasMoved = true] raises. *)
Definition applyMove (st : ChessGameState) (move : ChessMove) (testMode : bool)
  : Js.Outcome ChessGameState :=
  let* origin := at_ st (from move) in
  let moved := match origin with
               | Some piece0 =>
                   Some match promotion move with
                        | Some ty => withType (withMoved piece0) ty
                        | None => withMoved piece0
                        end
               | None => None
               end in
  let* b := setXY (board st) (x (to move)) (y (to move)) moved in
  let* b := setXY b (x (from move)) (y (from move)) None in
  match moved with
  | None => Js.ThrowTypeError
  | Some piece =>
      let* b := if Engine.isSome (capture move) && isEnPassant move
                then setXY b (x (to move)) (y (from move)) None
                else Js.Ok b in
      let* b :=
        match isCastle move with
        | None => Js.Ok b
        | Some side =>
            let row := y (from move) in
            let src := match side with kingSide => 7 | queenSide => 0 end in
            let dst := match side with kingSide => 5 | queenSide => 3 end in
            let* r := getXY b src row in
            let* b := setXY b dst row (option_map withMoved r) in
            let* b := setXY b src row None in
            match r with
            | None => Js.ThrowTypeError
            | Some _ => Js.Ok b
            end
        end in
      let ep :=
        if ChessPieceType_eqb (type piece) pawn
           && (Z.abs (y (to move) - y (from move)) =? 2)
        then Some (mkCoord (x (from move)) ((y (from move) + y (to move)) / 2))
        else None in
      let r := castlingRights st in
      let r := if ChessPieceType_eqb (type piece) king
               then clearKing (color piece) r else r in
      let r := if ChessPieceType_eqb (type piece) rook
               then clearCorner (from move) r else r in
      let r := match capture move with
               | Some c => if ChessPieceType_eqb (type c) rook
                           then clearCorner (to move) r else r
               | None => r
               end in
      Js.Ok
        (if testMode then
           mkState b (sideToMove st) r ep (halfmoveClock st)
                   (fullmoveNumber st) (history st) (lastMove st)
                   (players st) (fen st) (gameOver st) (winner st)
                   (check st) (checkmate st) (stalemate st) (draw st)
         else
           mkState b (getOpponentColor (sideToMove st)) r ep
                   (if ChessPieceType_eqb (type piece) pawn
                       || Engine.isSome (capture move)
                    then 0 else Js.incr (halfmoveClock st))
                   (match sideToMove st with
                    | black => Js.incr (fullmoveNumber st)
                    | white => fullmoveNumber st
                    end)
                   (history st) (Some move)
                   (players st) (fen st) (gameOver st) (winner st)
                   (check st) (checkmate st) (stalemate st) (draw st))
  end.

(** [pseudoMoves.filter(move => ...)]: the callback applies the move to a
    copy and asks whether the mover's king is attacked there. *)
Fixpoint filterLegal (st : ChessGameState) (ms : list ChessMove)
  : Js.Outcome (list ChessMove) :=
  match ms with
  | [] => Js.Ok []
  | move :: rest =>
      let* testState := applyMove st move true in
      let* inCheck := isKingInCheck testState (sideToMove st) in
      let* kept := filterLegal st rest in
      Js.Ok (if negb inCheck then move :: kept else kept)
  end.

Definition getLegalMoves (st : ChessGameState) : Js.Outcome (list ChessMove) :=
  let* pseudoMoves := generatePseudoMoves st (sideToMove st) in
  filterLegal st pseudoMoves.

Definition isMinor (p : ChessPiece) : bool :=
  match type p with bishop | knight => true | _ => false end.

(** [state.board.flat()] reads no square through a row index. *)
Definition isInsufficientMaterial (st : ChessGameState) : bool :=
  let pieces := omap (fun sq => sq) (concat (board st)) in
  (length pieces =? 2)%nat
  || ((length pieces =? 3)%nat && existsb isMinor pieces).

Definition typeChar (ty : ChessPieceType) : ascii :=
  match ty with
  | knight => "n" | king => "k" | queen => "q"
  | rook => "r" | bishop => "b" | pawn => "p"
  end.

Definition pieceChar (p : ChessPiece) : ascii :=
  match color p with
  | white => Js.toUpperCase (typeChar (type p))
  | black => Js.toLowerCase (typeChar (type p))
  end.

(** The inner [for (let x = 0; x < 8; x++)] loop of [generateFen] with the
    flush of [empty] that follows it. *)
Fixpoint fenRow (st : ChessGameState) (cy : Z) (xs : list Z)
         (acc : string) (empty : Z) : Js.Outcome string :=
  match xs with
  | [] => Js.Ok (if 0 <? empty then (acc ++ Js.toString empty)%string else acc)
  | cx :: xs' =>
      let* sq := getXY (board st) cx cy in
      match sq with
      | None => fenRow st cy xs' acc (empty + 1)
      | Some p =>
          let acc := if 0 <? empty then (acc ++ Js.toString empty)%string
                     else acc in
          fenRow st cy xs' (acc ++ String (pieceChar p) EmptyString)%string 0
      end
  end.

(** The outer [for (let y = 0; y < 8; y++)] loop of [generateFen]. *)
Fixpoint fenRows (st : ChessGameState) (ys : list Z) (acc : string)
  : Js.Outcome string :=
  match ys with
  | [] => Js.Ok acc
  | cy :: ys' =>
      let* acc := fenRow st cy [0; 1; 2; 3; 4; 5; 6; 7] acc 0 in
      fenRows st ys' (if cy <? 7 then (acc ++ "/")%string else acc)
  end.

Definition generateFen (st : ChessGameState) : Js.Outcome string :=
  let* boardPart := fenRows st [0; 1; 2; 3; 4; 5; 6; 7] EmptyString in
  let r := castlingRights st in
  let castlingPart :=
    ((if whiteKingSide r then "K" else "") ++
     (if whiteQueenSide r then "Q" else "") ++
     (if blackKingSide r then "k" else "") ++
     (if blackQueenSide r then "q" else ""))%string in
  let castlingPart :=
    if String.eqb castlingPart "" then "-"%string else castlingPart in
  let epPart :=
    match enPassantSquare st with
    | Some ep =>
        String (ascii_of_N (Z.to_N (97 + x ep))) (Js.toString (8 - y ep))
    | None => "-"%string
    end in
  Js.Ok
    (boardPart ++ " "
     ++ (match sideToMove st with white => "w" | black => "b" end)
     ++ " " ++ castlingPart ++ " " ++ epPart ++ " "
     ++ Js.toString (halfmoveClock st) ++ " "
     ++ Js.toString (fullmoveNumber st))%string.

(** [fen.split(' ').slice(0, 4).join(' ')] *)
Definition getPosition (f : string) : string :=
  Js.join " " (firstn 4 (Js.split " " f)).

Definition occurrences (pos : string) (hist : list string) : nat :=
  length (filter (fun p => String.eqb p pos) (map getPosition hist)).

Definition isThreefoldRepetition (st : ChessGameState) : Js.Outcome bool :=
  let* currentFen := generateFen st in
  let currentPos := getPosition currentFen in
  Js.Ok (2 <=? occurrences currentPos (history st))%nat.

Definition matches (f t : ChessCoord) (promo : option ChessPieceType)
           (m : ChessMove) : bool :=
  (x (from m) =? x f) && (y (from m) =? y f)
  && (x (to m) =? x t) && (y (to m) =? y t)
  && match promotion m with
     | None => true
     | Some ty => match promo with
                  | Some ty' => ChessPieceType_eqb ty ty'
                  | None => false
                  end
     end.

Definition reject (msg : string) : MoveResult := mkResult false None (Some msg).

Definition setFlags (st : ChessGameState) (over : bool) (win : option string)
           (chk mate stale drw : bool) : ChessGameState :=
  mkState (board st) (sideToMove st) (castlingRights st) (enPassantSquare st)
          (halfmoveClock st) (fullmoveNumber st) (history st) (lastMove st)
          (players st) (fen st) over win chk mate stale drw.

(** [newState.fen = f; newState.history.push(f)] *)
Definition recordFen (st : ChessGameState) (f : string) : ChessGameState :=
  mkState (board st) (sideToMove st) (castlingRights st) (enPassantSquare st)
          (halfmoveClock st) (fullmoveNumber st) (history st ++ [f]) (lastMove st)
          (players st) f (gameOver st) (winner st)
          (check st) (checkmate st) (stalemate st) (draw st).

(** The end-of-game tests of [makeMove] on the state after the move, whose
    [check] field already holds [isCheck]. *)
Definition endOfGame (st newState : ChessGameState)
           (nextLegalMoves : list ChessMove) (isCheck : bool)
  : Js.Outcome ChessGameState :=
  match nextLegalMoves with
  | [] =>
      Js.Ok
        (if isCheck then
           setFlags newState true
             (Some (match sideToMove st with
                    | white => p_white (players st)
                    | black => p_black (players st)
                    end))
             (check newState) true (stalemate newState) (draw newState)
         else
           setFlags newState true (winner newState) (check newState)
                    (checkmate newState) true true)
  | _ =>
      let* drawn :=
        Js.orM (Js.Ok (isInsufficientMaterial newState))
        (Js.orM (Js.Ok (100 <=? halfmoveClock newState))
                (isThreefoldRepetition newState)) in
      Js.Ok (if drawn
             then setFlags newState true (winner newState) (check newState)
                           (checkmate newState) (stalemate newState) true
             else newState)
  end.

(** [makeMove(gameState, playerId, from, to, promotion)] as a function of
    the value of [gameState]: the returned result, with the new state in
    it.  What the call does to the objects it is handed is the subject of
    [Store.makeMove] below. *)
Definition makeMove (st : ChessGameState) (playerId : string)
           (f t : ChessCoord) (promo : option ChessPieceType)
  : Js.Outcome MoveResult :=
  if gameOver st then Js.Ok (reject "Game is over")
  else
    let isWhite := String.eqb (p_white (players st)) playerId in
    let isBlack := String.eqb (p_black (players st)) playerId in
    if negb isWhite && negb isBlack then Js.Ok (reject "Not a player")
    else if isWhite && negb (ChessColor_eqb (sideToMove st) white)
      then Js.Ok (reject "Not your turn")
    else if isBlack && negb (ChessColor_eqb (sideToMove st) black)
      then Js.Ok (reject "Not your turn")
    else
      let* legalMoves := getLegalMoves st in
      match find (matches f t promo) legalMoves with
      | None => Js.Ok (reject "Illegal move")
      | Some move =>
          let* newState := applyMove st move false in
          let* nextLegalMoves := getLegalMoves newState in
          let* isCheck := isKingInCheck newState (sideToMove newState) in
          let newState :=
            setFlags newState (gameOver newState) (winner newState) isCheck
                     (checkmate newState) (stalemate newState) (draw newState) in
          let* newState := endOfGame st newState nextLegalMoves isCheck in
          let* newFen := generateFen newState in
          Js.Ok (mkResult true (Some (recordFen newState newFen)) None)
      end.

Record Submission : Type := mkSubmission {
  s_player : string;
  s_from : ChessCoord;
  s_to : ChessCoord;
  s_promotion : option ChessPieceType
}.

(** A caller that submits moves one after the other and continues with
    the returned state, as [chess.test.ts] does; [None] as soon as a move
    is rejected or raises. *)
Fixpoint playMoves (st : ChessGameState) (subs : list Submission)
  : option ChessGameState :=
  match subs with
  | [] => Some st
  | s :: rest =>
      match makeMove st (s_player s) (s_from s) (s_to s) (s_promotion s) with
      | Js.Ok r =>
          match gameState r with
          | Some st' => if success r then playMoves st' rest else None
          | None => None
          end
      | _ => None
      end
  end.

(** *** The objects a call is handed

    [makeMove] receives a reference to the caller's game state (the [Room]
    keeps it in [room.gameState]) and returns a reference to a new one.
    Objects live in a store and are named by their address; a method is a
    function from the store before the call to its outcome and the store
    after it.  A state object is stored whole: the copies the class makes
    are deep ([JSON.parse(JSON.stringify(state))]), so no two state objects
    share a board, a row or a piece that either of them writes. *)
Module Store.

Abbreviation Ref := nat.
Abbreviation Heap := (list ChessGameState).
Definition M (A : Type) : Type := Heap -> Js.Outcome A * Heap.

Definition ret {A} (a : A) : M A := fun h => (Js.Ok a, h).

(** A computation that only produces a value or raises. *)
Definition lift {A} (o : Js.Outcome A) : M A := fun h => (o, h).

Definition bind {A B} (m : M A) (k : A -> M B) : M B :=
  fun h =>
    match m h with
    | (Js.Ok a, h') => k a h'
    | (Js.ThrowError msg, h') => (Js.ThrowError msg, h')
    | (Js.ThrowTypeError, h') => (Js.ThrowTypeError, h')
    | (Js.Unmodelled, h') => (Js.Unmodelled, h')
    end.

(** Reading a field of the object at [r]; a reference that names no object
    stands for [undefined], whose fields cannot be read. *)
Definition deref (r : Ref) : M ChessGameState :=
  fun h => match h !! r with
           | Some st => (Js.Ok st, h)
           | None => (Js.ThrowTypeError, h)
           end.

(** A new object. *)
Definition alloc (st : ChessGameState) : M Ref :=
  fun h => (Js.Ok (length h), h ++ [st]).

(** Assignments to fields of the object at [r]. *)
Definition update (r : Ref) (f : ChessGameState -> ChessGameState) : M unit :=
  fun h => match h !! r with
           | Some st => (Js.Ok tt, <[r := f st]> h)
           | None => (Js.ThrowTypeError, h)
           end.

(** The result of [makeMove], with the new state by reference. *)
Record MoveResult : Type := mkResult {
  success : bool;
  gameState : option Ref;
  error : option string
}.

Definition reject (msg : string) : MoveResult := mkResult false None (Some msg).

(** [applyMove(state, move, testMode)]: the deep copy [newState] is a new
    object; it is private to the call until returned, so it enters the
    store with the content it is returned with. *)
Definition applyMove (state : Ref) (move : ChessMove) (testMode : bool)
  : M Ref :=
  bind (deref state) (fun st =>
  bind (lift (Server.applyMove st move testMode)) (fun newState =>
  alloc newState)).

(** [isKingInCheck(state, color)] only reads [state]. *)
Definition isKingInCheck (state : Ref) (c : ChessColor) : M bool :=
  bind (deref state) (fun st => lift (Server.isKingInCheck st c)).

(** The callback of [pseudoMoves.filter] in [getLegalMoves], run on each
    move in turn. *)
Fixpoint filterLegal (gameState : Ref) (ms : list ChessMove)
  : M (list ChessMove) :=
  match ms with
  | [] => ret []
  | move :: rest =>
      bind (applyMove gameState move true) (fun testState =>
      bind (deref gameState) (fun gs =>
      bind (isKingInCheck testState (sideToMove gs)) (fun inCheck =>
      bind (filterLegal gameState rest) (fun kept =>
      ret (if negb inCheck then move :: kept else kept)))))
  end.

Definition getLegalMoves (gameState : Ref) : M (list ChessMove) :=
  bind (deref gameState) (fun gs =>
  bind (lift (generatePseudoMoves gs (sideToMove gs))) (fun pseudoMoves =>
  filterLegal gameState pseudoMoves)).

(** [makeMove(gameState, playerId, from, to, promotion)], statement by
    statement. *)
Definition makeMove (gameState : Ref) (playerId : string)
           (f t : ChessCoord) (promo : option ChessPieceType)
  : M MoveResult :=
  bind (deref gameState) (fun gs =>
  if gameOver gs then ret (reject "Game is over")
  else
    let isWhite := String.eqb (p_white (players gs)) playerId in
    let isBlack := String.eqb (p_black (players gs)) playerId in
    if negb isWhite && negb isBlack then ret (reject "Not a player")
    else if isWhite && negb (ChessColor_eqb (sideToMove gs) white)
      then ret (reject "Not your turn")
    else if isBlack && negb (ChessColor_eqb (sideToMove gs) black)
      then ret (reject "Not your turn")
    else
      bind (getLegalMoves gameState) (fun legalMoves =>
      match find (matches f t promo) legalMoves with
      | None => ret (reject "Illegal move")
      | Some move =>
          bind (applyMove gameState move false) (fun newState =>
          bind (getLegalMoves newState) (fun nextLegalMoves =>
          bind (deref newState) (fun ns =>
          bind (isKingInCheck newState (sideToMove ns)) (fun isCheck =>
          bind (update newState (fun ns =>
                  setFlags ns (gameOver ns) (winner ns) isCheck
                           (checkmate ns) (stalemate ns) (draw ns))) (fun _ =>
          bind (deref gameState) (fun gs' =>
          bind (deref newState) (fun ns =>
          bind (lift (endOfGame gs' ns nextLegalMoves isCheck)) (fun ended =>
          bind (update newState (fun _ => ended)) (fun _ =>
          bind (deref newState) (fun ns =>
          bind (lift (generateFen ns)) (fun newFen =>
          bind (update newState (fun ns => recordFen ns newFen)) (fun _ =>
          ret (mkResult true (Some newState) None)))))))))))))
      end)).

(** [resignGame(gameState, playerId)], which does write to the object it
    is handed. *)
Record ResignResult : Type := mkResign {
  r_success : bool;
  r_winner : option string;
  r_error : option string
}.

Definition resignGame (gameState : Ref) (playerId : string) : M ResignResult :=
  bind (deref gameState) (fun gs =>
  if gameOver gs
  then ret (mkResign false None (Some "Game is already over"%string))
  else
    let isWhite := String.eqb (p_white (players gs)) playerId in
    let isBlack := String.eqb (p_black (players gs)) playerId in
    if negb isWhite && negb isBlack
    then ret (mkResign false None (Some "Not a player"%string))
    else
      let w := if isWhite then p_black (players gs) else p_white (players gs) in
      bind (update gameState (fun gs =>
              setFlags gs true (Some w) (check gs) (checkmate gs)
                       (stalemate gs) false)) (fun _ =>
      ret (mkResign true (Some w) None))).

(** *** Notions used to state what a call does to the store *)

(** No address of [h] is lost in [h'], and the objects at addresses below
    [n] are in [h'] what they are in [h]. *)
Definition keeps (n : nat) (h h' : Heap) : Prop :=
  (length h <= length h')%nat /\ forall l, (l < n)%nat -> h' !! l = h !! l.

(** [r'] is the result [r] with its new state held in [h], at an address
    from [n] on. *)
Definition resultAt (n : nat) (h : Heap) (r' : MoveResult)
           (r : Server.MoveResult) : Prop :=
  success r' = Server.success r /\ error r' = Server.error r /\
  match Server.gameState r with
  | Some ns => exists l, gameState r' = Some l /\ (n <= l)%nat /\
                         h !! l = Some ns
  | None => gameState r' = None
  end.

(** The outcome [o'] of a call on the store is the outcome [o] of the
    function of the state's value. *)
Definition refines (n : nat) (h : Heap) (o' : Js.Outcome MoveResult)
           (o : Js.Outcome Server.MoveResult) : Prop :=
  match o with
  | Js.Ok r => exists r', o' = Js.Ok r' /\ resultAt n h r' r
  | Js.ThrowError msg => o' = Js.ThrowError msg
  | Js.ThrowTypeError => o' = Js.ThrowTypeError
  | Js.Unmodelled => o' = Js.Unmodelled
  end.

End Store.

(** No king of colour [c] stands on the board. *)
Definition noKing (st : ChessGameState) (c : ChessColor) : Prop :=
  forall pos p, at_ st pos = Js.Ok (Some p) -> type p = king -> color p <> c.

(** The board has its rows 0 to 7. *)
Definition hasRows (st : ChessGameState) : Prop :=
  (8 <= length (board st))%nat.

Definition mirrorMoves : list Submission :=
  [mkSubmission "white-player" (mkCoord 6 7) (mkCoord 5 5) None;
   mkSubmission "black-player" (mkCoord 6 0) (mkCoord 5 2) None;
   mkSubmission "white-player" (mkCoord 5 5) (mkCoord 6 7) None;
   mkSubmission "black-player" (mkCoord 5 2) (mkCoord 6 0) None].

Definition emptyState : ChessGameState :=
  mkState (replicate 8%nat (replicate 8%nat None)) white
          (mkRights false false false false) None 0 1 [] None
          (mkPlayers "white-player" "black-player") "8/8/8/8/8/8/8/8 w - - 0 1"
          false None false false false false.

(** A state whose board has lost its rows. *)
Definition rowlessState : ChessGameState :=
  mkState [] white (mkRights false false false false) None 0 1 [] None
          (mkPlayers "white-player" "black-player") "8/8/8/8/8/8/8/8 w - - 0 1"
          false None false false false false.

(** The error strings [makeMove] returns. *)
Definition rejections : list string :=
  ["Game is over"; "Not a player"; "Not your turn"; "Illegal move"]%string.

Definition startGame : ChessGameState :=
  initializeGame (fun _ => EmptyString) "white-player" "black-player".

(** *** [toAlgebraic], [fromAlgebraic] *)

(** [toAlgebraic(coord)], for a file letter within ASCII. *)
Definition toAlgebraic (c : ChessCoord) : string :=
  String (ascii_of_N (Z.to_N (97 + x c))) (Js.toString (8 - y c)).

(** [parseInt(ch)] for the one-character string [square[1]]: the digit's
    value, NaN ([None]) for every other character. *)
Definition parseIntChar (c : ascii) : option Z :=
  if Js.isDigit c then Some (Js.digitValue c) else None.

(** [fromAlgebraic(square)]: each coordinate is a number or NaN ([None]);
    [charCodeAt(0)] of the empty string and [parseInt(undefined)] are NaN. *)
Definition fromAlgebraic (square : string) : option Z * option Z :=
  (match square with
   | String c _ => Some (Z.of_N (N_of_ascii c) - 97)
   | EmptyString => None
   end,
   match square with
   | String _ (String d _) =>
       match parseIntChar d with
       | Some v => Some (8 - v)
       | None => None
       end
   | _ => None
   end).

(** *** Notions used for the further properties *)

(** The player who holds the colour [c]. *)
Definition playerOf (st : ChessGameState) (c : ChessColor) : string :=
  match c with
  | white => p_white (players st)
  | black => p_black (players st)
  end.

(** How the end-of-game fields of a state hang together. *)
Record flagsOK (st : ChessGameState) : Prop := mkFlagsOK {
  fl_running : gameOver st = false ->
               checkmate st = false /\ stalemate st = false /\
               draw st = false /\ winner st = None;
  fl_checkmate : checkmate st = true ->
                 check st = true /\ draw st = false /\ winner st <> None;
  fl_stalemate : stalemate st = true -> draw st = true /\ check st = false;
  fl_draw : draw st = true -> winner st = None /\ checkmate st = false
}.

(** 1.e4 as the white player submits it. *)
Definition e2 : ChessCoord := mkCoord 4 6.
Definition e4 : ChessCoord := mkCoord 4 4.

(** What a new game returns when the white player submits 1.e4. *)
Definition openingResult : MoveResult :=
  match makeMove startGame "white-player" e2 e4 None with
  | Js.Ok r => r
  | _ => reject EmptyString
  end.

(** *** What a game keeps true of its state *)

Definition homeRow (c : ChessColor) : Z :=
  match c with white => 7 | black => 0 end.

Definition rookFile (s : CastleSide) : Z :=
  match s with kingSide => 7 | queenSide => 0 end.

Definition rightOf (r : CastlingRights) (c : ChessColor) (s : CastleSide)
  : bool :=
  match c, s with
  | white, kingSide => whiteKingSide r
  | white, queenSide => whiteQueenSide r
  | black, kingSide => blackKingSide r
  | black, queenSide => blackQueenSide r
  end.

Definition rookAt (st : ChessGameState) (cx cy : Z) : Prop :=
  exists p, getXY (board st) cx cy = Js.Ok (Some p) /\ type p = rook.

(** The board has its eight rows, a castling right still held has a rook
    on its corner, a king that has not moved stands on its home row, and
    the en-passant square lies on the third or the sixth rank. *)
Record consistent (st : ChessGameState) : Prop := mkConsistent {
  co_rows : hasRows st;
  co_rook : forall c s, rightOf (castlingRights st) c s = true ->
                        rookAt st (rookFile s) (homeRow c);
  co_king : forall pos p, at_ st pos = Js.Ok (Some p) -> type p = king ->
                          hasMoved p = false -> y pos = homeRow (color p);
  co_ep : forall ep, enPassantSquare st = Some ep -> y ep = 2 \/ y ep = 5
}.

(** The three kinds of move the generators make for the piece [p0]. *)
Inductive MoveKind (st : ChessGameState) (p0 : ChessPiece) (mv : ChessMove)
  : Prop :=
| kind_plain :
    isEnPassant mv = false -> isCastle mv = None ->
    at_ st (to mv) = Js.Ok (capture mv) ->
    (forall ty, promotion mv = Some ty ->
                type p0 = pawn /\ In ty [queen; rook; bishop; knight]) ->
    (type p0 = pawn -> Z.abs (y (to mv) - y (from mv)) = 2 ->
     y (from mv) + y (to mv) = 10 \/ y (from mv) + y (to mv) = 4) ->
    MoveKind st p0 mv
| kind_enPassant :
    isEnPassant mv = true -> isCastle mv = None -> promotion mv = None ->
    type p0 = pawn -> enPassantSquare st = Some (to mv) ->
    Z.abs (y (to mv) - y (from mv)) = 1 ->
    MoveKind st p0 mv
| kind_castle side :
    isCastle mv = Some side -> isEnPassant mv = false ->
    capture mv = None -> promotion mv = None ->
    type p0 = king -> hasMoved p0 = false ->
    rightOf (castlingRights st) (color p0) side = true ->
    to mv = mkCoord (match side with kingSide => 6 | queenSide => 2 end)
                    (homeRow (color p0)) ->
    MoveKind st p0 mv.

(** What the generators fix about a move. *)
Record MoveFacts (st : ChessGameState) (c : ChessColor) (mv : ChessMove)
  : Prop := mkMoveFacts {
  mf_from : isValidPos (from mv) = true;
  mf_to : isValidPos (to mv) = true;
  mf_piece : exists p0, at_ st (from mv) = Js.Ok (Some p0) /\
                        color p0 = c /\ MoveKind st p0 mv
}.

End Server.

(** * Properties *)

(** ** The flat engine *)

Module EngineProofs.
Import Engine.

Lemma fenToGameState_initial : fenToGameState initialFEN = Js.Ok startPosition.
Proof. vm_compute. reflexivity. Qed.

(** C8: from the standard initial position [generateLegalMoves] returns
    exactly 20 moves, 16 of them pawn moves and 4 knight moves. *)
Theorem initial_position_has_20_moves :
  exists gs,
    fenToGameState initialFEN = Js.Ok gs /\
    turn gs = W /\
    length (generateLegalMoves gs) = 20%nat /\
    length (filter (fun m => Ascii.eqb (type (piece m)) "p")
                   (generateLegalMoves gs)) = 16%nat /\
    length (filter (fun m => Ascii.eqb (type (piece m)) "n")
                   (generateLegalMoves gs)) = 4%nat.
Proof.
  exists startPosition. split; [apply fenToGameState_initial|].
  vm_compute. repeat split; reflexivity.
Qed.

(** C10: [undoMove] on a state whose history is empty returns the state
    with every field unchanged. *)
Theorem undoMove_empty_history (gs : GameState) :
  history gs = [] -> undoMove gs = gs.
Proof.
  intros Hh. unfold undoMove. rewrite Hh. reflexivity.
Qed.

Lemma undoMove_empty_history_witness :
  history startPosition = [] /\ undoMove startPosition = startPosition.
Proof.
  split; [reflexivity|].
  apply (undoMove_empty_history startPosition). reflexivity.
Defined.

(** *** Decoding malformed FEN *)

Lemma decodeRows_short rows b :
  (length rows < 8)%nat -> decodeRows ranks rows b = Js.ThrowTypeError.
Proof.
  intros Hlen. unfold ranks. cbn [decodeRows].
  change (Z.to_nat (7 - 0)) with 7%nat.
  rewrite (proj2 (lookup_ge_None rows 7%nat)); [reflexivity|lia].
Qed.

Lemma decodeRows_long rows b :
  (8 <= length rows)%nat -> exists b', decodeRows ranks rows b = Js.Ok b'.
Proof.
  intros Hlen.
  do 8 (destruct rows as [|? rows]; [simpl in Hlen; lia|]).
  simpl. eexists. reflexivity.
Qed.

Lemma fromModel_no_throw {A B} (o : option A) (k : A -> Js.Outcome B) :
  (forall a, Js.throws (k a) = false) ->
  Js.throws (Js.bind (fromModel o) k) = false.
Proof. intros Hk. destruct o; simpl; [apply Hk|reflexivity]. Qed.

(** C1 as the code has it: decoding signals an error exactly when the
    string has fewer than four space-separated fields or its board field
    has fewer than eight ranks; nothing else is rejected. *)
Theorem fenToGameState_throws_iff (fen : string) :
  Js.throws (fenToGameState fen) = true <->
  (length (Js.split " " fen) < 4)%nat \/
  (length (Js.split "/" (nth 0 (Js.split " " fen) EmptyString)) < 8)%nat.
Proof.
  unfold fenToGameState.
  destruct (Js.split " " fen) as [|p0 [|p1 [|p2 [|p3 more]]]];
    try (simpl; split; [intros _; left; lia | reflexivity]).
  cbn [nth length].
  destruct (Nat.lt_ge_cases (length (Js.split "/" p0)) 8) as [Hs|Hl].
  - rewrite (decodeRows_short _ _ Hs). simpl. split; [intros _; right; exact Hs|reflexivity].
  - destruct (decodeRows_long _ makeEmptyBoard Hl) as [b' ->].
    cbn [Js.bind]. split.
    + intros Ht. exfalso. revert Ht.
      assert (Hno : Js.throws
        (Js.bind (if String.eqb p3 "-" then Js.Ok None
                  else fromModel (option_map Some (algebraicToSquare p3)))
           (fun ep =>
            Js.bind (fromModel (numberOr (more !! 0%nat) 0)) (fun hm =>
            Js.bind (fromModel (numberOr (more !! 1%nat) 1)) (fun fm =>
            Js.Ok (mkGameState b' (if String.eqb p1 "w" then W else B)
                     (mkCastling (Js.includes p2 "K") (Js.includes p2 "Q")
                                 (Js.includes p2 "k") (Js.includes p2 "q"))
                     ep hm fm []))))) = false).
      { assert (Hrest : forall ep,
          Js.throws
            (Js.bind (fromModel (numberOr (more !! 0%nat) 0)) (fun hm =>
             Js.bind (fromModel (numberOr (more !! 1%nat) 1)) (fun fm =>
             Js.Ok (mkGameState b' (if String.eqb p1 "w" then W else B)
                      (mkCastling (Js.includes p2 "K") (Js.includes p2 "Q")
                                  (Js.includes p2 "k") (Js.includes p2 "q"))
                      ep hm fm [])))) = false).
        { intros ep. apply fromModel_no_throw. intros hm.
          apply fromModel_no_throw. intros fm. reflexivity. }
        destruct (String.eqb p3 "-"); [apply Hrest|].
        apply fromModel_no_throw. exact Hrest. }
      rewrite Hno. discriminate.
    + intros [H|H]; simpl in H; lia.
Qed.

(** C1 as stated fails: a board field with the unknown letter [X], and one
    with nine ranks, are both decoded into a position. *)
Lemma malformed_fen_is_decoded :
  (exists gs,
     fenToGameState "rnbqkbnr/pppppppp/8/8/8/8/PPPPPPPP/RNBQKBNX w KQkq - 0 1"
     = Js.Ok gs /\
     getSq (board gs) 7 = Some (mkPiece "x"%char W)) /\
  (exists gs,
     fenToGameState "8/8/8/8/8/8/8/8/8 w - - 0 1" = Js.Ok gs).
Proof.
  split.
  - eexists. split; [vm_compute; reflexivity|]. reflexivity.
  - eexists. vm_compute. reflexivity.
Qed.

(** *** The move generator and the check detector agree *)

Lemma fileOf_mod a : 0 <= a -> fileOf a = a mod 8.
Proof. intros. unfold fileOf. apply Z.rem_mod_nonneg; lia. Qed.

Lemma onBoard_range a : onBoard a = true <-> 0 <= a < 64.
Proof. unfold onBoard. rewrite andb_true_iff. lia. Qed.

Ltac board_arith :=
  repeat match goal with
         | H : onBoard _ = true |- _ => apply onBoard_range in H
         end;
  unfold stepOK, rankOf in *;
  repeat rewrite fileOf_mod in * by lia;
  Z.to_euclidean_division_equations; lia.

(** Case analysis on membership in an explicit list of moves. *)
Ltac in_cases H :=
  simpl in H;
  repeat match type of H with
         | _ \/ _ => destruct H as [H|H]
         | False => destruct H
         end;
  try subst.

(** Case analysis on the tests that guard a list of moves. *)
Ltac split_in H :=
  repeat match type of H with
         | In _ (match ?c with _ => _ end) => destruct c eqn:?
         end.

Lemma gen_step_ok dir a :
  onBoard a = true -> onBoard (a + dirVals dir) = true ->
  (wrapChecked dir = true ->
   Z.abs (fileOf (a + dirVals dir) - fileOf a) = 1) ->
  stepOK a (a + dirVals dir).
Proof.
  intros Ha Hb Hw.
  destruct dir; simpl in *; try specialize (Hw eq_refl); board_arith.
Qed.

Lemma RayHits_onBoard b c d ty from :
  RayHits b c d ty from -> onBoard from = true.
Proof. intros H. destruct H; assumption. Qed.

Lemma stepOK_tests a b :
  stepOK a b ->
  (Z.abs (fileOf a - fileOf b) >? 1) || (Z.abs (rankOf a - rankOf b) >? 1)
  = false.
Proof. unfold stepOK. intros [H1 H2]. apply orb_false_iff. lia. Qed.

Lemma attackRay_complete b c d ty from :
  d <> 0 -> RayHits b c d ty from ->
  forall fuel, (rayMeasure d from <= fuel)%nat ->
  attackRay fuel b c d ty from = true.
Proof.
  intros Hd H. induction H as [from p Hon Hstep Hp Hc Hty
                              |from Hon Hstep Hp Hrest IH]; intros fuel Hfuel.
  - destruct fuel as [|fuel].
    { apply onBoard_range in Hon. unfold rayMeasure in Hfuel.
      destruct (0 <? d); lia. }
    simpl. rewrite Hon, (stepOK_tests _ _ Hstep), Hp. simpl.
    rewrite Hc. destruct c; simpl;
      destruct Hty as [-> | ->]; rewrite ?Ascii.eqb_refl, ?orb_true_r;
      reflexivity.
  - destruct fuel as [|fuel].
    { apply onBoard_range in Hon. unfold rayMeasure in Hfuel.
      destruct (0 <? d); lia. }
    simpl. rewrite Hon, (stepOK_tests _ _ Hstep), Hp. simpl.
    apply IH. apply onBoard_range in Hon.
    pose proof (RayHits_onBoard _ _ _ _ _ Hrest) as Hon'.
    apply onBoard_range in Hon'.
    unfold rayMeasure in *. destruct (0 <? d) eqn:Hsign; lia.
Qed.

Lemma slideRay_capture gs sq p dir c fuel :
  forall t m,
    (onBoard t = true ->
     (wrapChecked dir = true ->
      Z.abs (fileOf t - fileOf (t - dirVals dir)) = 1) ->
     RayHits (board gs) c (- dirVals dir) (sliderOf dir) (t - dirVals dir)) ->
    In m (slideRay fuel gs sq p dir t (fileOf (t - dirVals dir))) ->
    isSome (captured m) = true ->
    RayHits (board gs) c (- dirVals dir) (sliderOf dir) (to m - dirVals dir).
Proof.
  induction fuel as [|fuel IH]; intros t m Hprev Hin Hcap; [destruct Hin|].
  simpl in Hin.
  destruct (onBoard t) eqn:Hon; simpl in Hin; [|destruct Hin].
  destruct (wrapChecked dir
            && negb (Z.abs (fileOf t - fileOf (t - dirVals dir)) =? 1))
           eqn:Hwrap; [destruct Hin|].
  assert (Hstep : wrapChecked dir = true ->
                  Z.abs (fileOf t - fileOf (t - dirVals dir)) = 1).
  { intros Hw. rewrite Hw in Hwrap. simpl in Hwrap.
    apply negb_false_iff in Hwrap. lia. }
  specialize (Hprev eq_refl Hstep).
  destruct (getSq (board gs) t) as [target|] eqn:Ht.
  - destruct (negb (Color_eqb (color target) (color p))); [|destruct Hin].
    destruct Hin as [<-|[]]. simpl. exact Hprev.
  - destruct Hin as [<-|Hin]; [discriminate Hcap|].
    apply (IH (t + dirVals dir) m); try assumption.
    + replace (t + dirVals dir - dirVals dir) with t by lia.
      intros Hon' Hw'.
      apply hit_later; try assumption.
      replace (t - - dirVals dir) with (t + dirVals dir) by lia.
      apply gen_step_ok; assumption.
    + replace (t + dirVals dir - dirVals dir) with t by lia. exact Hin.
Qed.

Lemma attackDirs_cover dir :
  In (- dirVals dir, sliderOf dir) attackDirs.
Proof. destruct dir; simpl; tauto. Qed.

Lemma dirVals_nonzero dir : - dirVals dir <> 0.
Proof. destruct dir; simpl; lia. Qed.

Lemma sliding_capture_attacked gs sq p dirs m :
  onBoard sq = true -> getSq (board gs) sq = Some p ->
  (forall dir, In dir dirs ->
               type p = sliderOf dir \/ type p = "q"%char) ->
  In m (generateSlidingMoves gs sq p dirs) ->
  isSome (captured m) = true ->
  existsb (fun dt => attackRay slideFuel (board gs) (color p) (fst dt) (snd dt)
                               (to m + fst dt)) attackDirs = true.
Proof.
  intros Hon Hp Hty Hin Hcap.
  unfold generateSlidingMoves in Hin. apply in_flat_map in Hin.
  destruct Hin as [dir [Hdir Hin]].
  apply existsb_exists. exists (- dirVals dir, sliderOf dir).
  split; [apply attackDirs_cover|]. cbn [fst snd].
  assert (Hhits : RayHits (board gs) (color p) (- dirVals dir) (sliderOf dir)
                          (to m - dirVals dir)).
  { apply (slideRay_capture gs sq p dir (color p) slideFuel
                            (sq + dirVals dir) m); try assumption.
    - replace (sq + dirVals dir - dirVals dir) with sq by lia.
      intros Hon' Hw. apply hit_here with (p := p); try assumption.
      + replace (sq - - dirVals dir) with (sq + dirVals dir) by lia.
        apply gen_step_ok; assumption.
      + reflexivity.
      + apply Hty. exact Hdir.
    - replace (sq + dirVals dir - dirVals dir) with sq by lia. exact Hin. }
  replace (to m + - dirVals dir) with (to m - dirVals dir) by lia.
  apply attackRay_complete; [apply dirVals_nonzero|exact Hhits|].
  pose proof (RayHits_onBoard _ _ _ _ _ Hhits) as Hb.
  apply onBoard_range in Hb. unfold rayMeasure, slideFuel.
  destruct (0 <? - dirVals dir); lia.
Qed.

(** *** The fuel of the two ray loops is enough *)

Lemma slideRay_fuel_irrelevant gs sq p dir : forall f1 f2 t lastFile,
  (onBoard t = true ->
   (rayMeasure (dirVals dir) t <= f1)%nat /\
   (rayMeasure (dirVals dir) t <= f2)%nat) ->
  slideRay f1 gs sq p dir t lastFile = slideRay f2 gs sq p dir t lastFile.
Proof.
  induction f1 as [|f1 IH]; intros f2 t lastFile Hfuel.
  - destruct f2 as [|f2]; [reflexivity|]. cbn [slideRay].
    destruct (onBoard t) eqn:Hon; [|reflexivity].
    destruct (Hfuel eq_refl) as [H0 _]. apply onBoard_range in Hon.
    unfold rayMeasure in H0. destruct (0 <? dirVals dir); lia.
  - destruct f2 as [|f2]; cbn [slideRay].
    + destruct (onBoard t) eqn:Hon; [|reflexivity].
      destruct (Hfuel eq_refl) as [_ H0]. apply onBoard_range in Hon.
      unfold rayMeasure in H0. destruct (0 <? dirVals dir); lia.
    + destruct (onBoard t) eqn:Hon; [|reflexivity]. cbn [negb].
      destruct (Hfuel eq_refl) as [H1 H2].
      destruct (wrapChecked dir && _); [reflexivity|].
      destruct (getSq (board gs) t); [reflexivity|].
      f_equal. apply IH. intros Hon'.
      apply onBoard_range in Hon, Hon'.
      unfold rayMeasure in *.
      pose proof (dirVals_nonzero dir).
      destruct (Z.ltb_spec 0 (dirVals dir)); lia.
Qed.

(** The loop of [generateSlidingMoves] leaves the board within 64 steps:
    more fuel changes nothing. *)
Lemma slideRay_fuel gs sq p dir t lastFile fuel :
  (64 <= fuel)%nat ->
  slideRay fuel gs sq p dir t lastFile
  = slideRay slideFuel gs sq p dir t lastFile.
Proof.
  intros Hfuel. apply slideRay_fuel_irrelevant. intros Hon.
  apply onBoard_range in Hon. unfold rayMeasure, slideFuel.
  destruct (0 <? dirVals dir); lia.
Qed.

Lemma attackRay_fuel_irrelevant b c d ty :
  d <> 0 ->
  forall f1 f2 from,
    (onBoard from = true ->
     (rayMeasure d from <= f1)%nat /\ (rayMeasure d from <= f2)%nat) ->
    attackRay f1 b c d ty from = attackRay f2 b c d ty from.
Proof.
  intros Hd. induction f1 as [|f1 IH]; intros f2 from Hfuel.
  - destruct f2 as [|f2]; [reflexivity|]. cbn [attackRay].
    destruct (onBoard from) eqn:Hon; [|reflexivity].
    destruct (Hfuel eq_refl) as [H0 _]. apply onBoard_range in Hon.
    unfold rayMeasure in H0. destruct (0 <? d); lia.
  - destruct f2 as [|f2]; cbn [attackRay].
    + destruct (onBoard from) eqn:Hon; [|reflexivity].
      destruct (Hfuel eq_refl) as [_ H0]. apply onBoard_range in Hon.
      unfold rayMeasure in H0. destruct (0 <? d); lia.
    + destruct (onBoard from) eqn:Hon; [|reflexivity]. cbn [negb].
      destruct (Hfuel eq_refl) as [H1 H2].
      destruct (_ || _); [reflexivity|].
      destruct (getSq b from); [reflexivity|].
      apply IH. intros Hon'.
      apply onBoard_range in Hon, Hon'.
      unfold rayMeasure in *.
      destruct (Z.ltb_spec 0 d); lia.
Qed.

(** The loops of [isSquareAttacked] likewise. *)
Lemma attackRay_fuel b c d ty from fuel :
  d <> 0 -> (64 <= fuel)%nat ->
  attackRay fuel b c d ty from = attackRay slideFuel b c d ty from.
Proof.
  intros Hd Hfuel. apply attackRay_fuel_irrelevant; [exact Hd|]. intros Hon.
  apply onBoard_range in Hon. unfold rayMeasure, slideFuel.
  destruct (0 <? d); lia.
Qed.

Lemma Color_eqb_eq a b : Color_eqb a b = true <-> a = b.
Proof. destruct a, b; simpl; split; congruence. Qed.

Lemma isPieceAt_intro b sq p ty c :
  getSq b sq = Some p -> type p = ty -> color p = c ->
  isPieceAt b sq ty c = true.
Proof.
  intros Hp <- <-. unfold isPieceAt. rewrite Hp, Ascii.eqb_refl.
  destruct (color p); reflexivity.
Qed.

Lemma step_capture_attacked gs sq p reach deltas m :
  onBoard sq = true -> getSq (board gs) sq = Some p ->
  (forall d, In d deltas -> In (- d) deltas) ->
  In m (stepMoves gs sq p reach deltas) ->
  existsb (fun d =>
    let from := to m + d in
    onBoard from && negb (Z.abs (fileOf (to m) - fileOf from) >? reach)
    && isPieceAt (board gs) from (type p) (color p)) deltas = true.
Proof.
  intros Hon Hp Hsym Hin.
  unfold stepMoves in Hin. apply in_flat_map in Hin.
  destruct Hin as [d [Hd Hin]].
  destruct (onBoard (sq + d)) eqn:Hon'; simpl in Hin; [|destruct Hin].
  destruct (Z.abs (fileOf sq - fileOf (sq + d)) >? reach) eqn:Hreach;
    [destruct Hin|].
  assert (Hto : to m = sq + d).
  { destruct (getSq (board gs) (sq + d)) as [target|].
    - destruct (negb (Color_eqb (color target) (color p))); [|destruct Hin].
      destruct Hin as [<-|[]]. reflexivity.
    - destruct Hin as [<-|[]]. reflexivity. }
  apply existsb_exists. exists (- d). split; [apply Hsym; exact Hd|].
  cbv zeta. rewrite Hto.
  replace (sq + d + - d) with sq by lia.
  rewrite Hon. rewrite (isPieceAt_intro _ _ p) by (assumption || reflexivity).
  rewrite !andb_true_r, andb_true_l. apply negb_true_iff.
  rewrite <- Hreach. f_equal. lia.
Qed.

Lemma knightDeltas_sym d : In d knightDeltas -> In (- d) knightDeltas.
Proof. unfold knightDeltas. simpl. intuition (subst; simpl; tauto). Qed.

Lemma kingDeltas_sym d : In d kingDeltas -> In (- d) kingDeltas.
Proof. unfold kingDeltas. simpl. intuition (subst; simpl; tauto). Qed.

Lemma pawn_capture_attacked gs sq p m :
  onBoard sq = true -> getSq (board gs) sq = Some p ->
  type p = "p"%char ->
  In m (generatePawnMoves gs sq p) ->
  isSome (captured m) = true ->
  existsb (fun from =>
    onBoard from && (Z.abs (fileOf (to m) - fileOf from) =? 1)
    && isPieceAt (board gs) from "p"%char (color p))
    match color p with
    | W => [to m - 7; to m - 9]
    | B => [to m + 7; to m + 9]
    end = true.
Proof.
  intros Hon Hp Hty Hin Hcap.
  unfold generatePawnMoves in Hin. apply in_app_or in Hin.
  destruct Hin as [Hin|Hin].
  - (* pushes never capture *)
    exfalso.
    destruct (onBoard _ && isEmpty _ _); [|destruct Hin].
    destruct (rankOf _ =? _).
    + apply in_map_iff in Hin. destruct Hin as [pr [<- _]]. discriminate.
    + destruct Hin as [<-|Hin]; [discriminate|].
      destruct (rankOf sq =? _); [|destruct Hin].
      destruct (onBoard _ && isEmpty _ _); [|destruct Hin].
      destruct Hin as [<-|[]]. discriminate.
  - apply in_flat_map in Hin. destruct Hin as [d [Hd Hin]].
    destruct (onBoard (sq + d)) eqn:Hon'; simpl in Hin; [|destruct Hin].
    destruct (Z.abs (fileOf (sq + d) - fileOf sq) =? 1) eqn:Hfile;
      simpl in Hin; [|destruct Hin].
    assert (Hto : to m = sq + d).
    { split_in Hin; in_cases Hin; reflexivity. }
    apply existsb_exists. exists sq. rewrite Hto. split.
    + destruct (color p); simpl in Hd |- *;
        destruct Hd as [<-|[<-|[]]]; [left|right; left|left|right; left]; lia.
    + rewrite Hon, Hfile.
      rewrite (isPieceAt_intro _ _ p) by (assumption || reflexivity).
      reflexivity.
Qed.

Lemma squares_onBoard sq : In sq squares -> onBoard sq = true.
Proof.
  unfold squares. intros Hin. apply in_map_iff in Hin.
  destruct Hin as [n [<- Hn]]. apply in_seq in Hn.
  apply onBoard_range. lia.
Qed.

(** C5: the destination of every pseudo-legal capture, en passant
    included, is reported as attacked by the side to move. *)
Theorem capture_destination_is_attacked (gs : GameState) (m : Move) :
  In m (generatePseudoLegalMoves gs) ->
  isSome (captured m) = true ->
  isSquareAttacked gs (to m) (turn gs) = true.
Proof.
  intros Hin Hcap.
  unfold generatePseudoLegalMoves in Hin. apply in_flat_map in Hin.
  destruct Hin as [sq [Hsq Hin]]. apply squares_onBoard in Hsq.
  unfold movesFrom in Hin.
  destruct (getSq (board gs) sq) as [p|] eqn:Hp; [|destruct Hin].
  destruct (negb (Color_eqb (color p) (turn gs))) eqn:Hturn; [destruct Hin|].
  apply negb_false_iff, Color_eqb_eq in Hturn.
  unfold isSquareAttacked. rewrite <- Hturn.
  destruct (Ascii.eqb (type p) "p") eqn:Tp.
  { apply Ascii.eqb_eq in Tp.
    rewrite (pawn_capture_attacked gs sq p m) by assumption. reflexivity. }
  destruct (Ascii.eqb (type p) "n") eqn:Tn.
  { apply Ascii.eqb_eq in Tn. unfold generateKnightMoves in Hin.
    pose proof (step_capture_attacked gs sq p 2 knightDeltas m Hsq Hp
                  knightDeltas_sym Hin) as H.
    rewrite Tn in H. cbv zeta in H. rewrite H.
    rewrite orb_true_r. reflexivity. }
  destruct (Ascii.eqb (type p) "b") eqn:Tb.
  { apply Ascii.eqb_eq in Tb.
    eassert (Hdirs : forall dir, In dir _ -> _);
      [|rewrite (sliding_capture_attacked gs sq p _ m Hsq Hp Hdirs Hin Hcap);
        rewrite orb_true_r; reflexivity].
    intros dir Hd. left. rewrite Tb.
      simpl in Hd. intuition (subst; reflexivity). }
  destruct (Ascii.eqb (type p) "r") eqn:Tr.
  { apply Ascii.eqb_eq in Tr.
    eassert (Hdirs : forall dir, In dir _ -> _);
      [|rewrite (sliding_capture_attacked gs sq p _ m Hsq Hp Hdirs Hin Hcap);
        rewrite orb_true_r; reflexivity].
    intros dir Hd. left. rewrite Tr.
      simpl in Hd. intuition (subst; reflexivity). }
  destruct (Ascii.eqb (type p) "q") eqn:Tq.
  { apply Ascii.eqb_eq in Tq.
    eassert (Hdirs : forall dir, In dir _ -> _);
      [|rewrite (sliding_capture_attacked gs sq p _ m Hsq Hp Hdirs Hin Hcap);
        rewrite orb_true_r; reflexivity].
    intros dir Hd. right. exact Tq. }
  destruct (Ascii.eqb (type p) "k") eqn:Tk; [|destruct Hin].
  apply Ascii.eqb_eq in Tk. unfold generateKingMoves in Hin.
  apply in_app_or in Hin. destruct Hin as [Hin|Hin].
  - pose proof (step_capture_attacked gs sq p 1 kingDeltas m Hsq Hp
                  kingDeltas_sym Hin) as H.
    rewrite Tk in H. cbv zeta in H. rewrite H.
    rewrite orb_true_r. reflexivity.
  - exfalso.
    destruct (color p); apply in_app_or in Hin; destruct Hin as [Hin|Hin];
      match type of Hin with
      | In _ (if ?c then _ else _) => destruct c; [|destruct Hin]
      end;
      destruct Hin as [<-|[]]; discriminate.
Qed.

Lemma capture_destination_is_attacked_witness :
  let gs := mkGameState (setSq (setSq makeEmptyBoard 0 (wP "k"%char)) 9
                               (bP "p"%char))
                        W (mkCastling false false false false) None 0 1 [] in
  let m := mkMove 0 9 (mkPiece "k"%char W) (bP "p"%char) None false false in
  In m (generatePseudoLegalMoves gs) /\
  isSome (captured m) = true /\
  isSquareAttacked gs (to m) (turn gs) = true.
Proof.
  intros gs m.
  assert (Hin : In m (generatePseudoLegalMoves gs)).
  { vm_compute. tauto. }
  split; [exact Hin|]. split; [reflexivity|].
  apply (capture_destination_is_attacked gs m Hin). reflexivity.
Defined.


(** *** Undoing a move *)

Lemma length_setSq b i v :
  0 <= i < Z.of_nat (length b) -> length (setSq b i v) = length b.
Proof.
  intros Hi. unfold setSq.
  destruct (Z.ltb_spec i 0); [lia|].
  destruct (Z.ltb_spec i (Z.of_nat (length b))); [|lia].
  apply length_insert.
Qed.

Lemma getSq_setSq b i j v :
  0 <= i < Z.of_nat (length b) ->
  getSq (setSq b i v) j = if j =? i then v else getSq b j.
Proof.
  intros Hi. unfold getSq, setSq.
  destruct (Z.ltb_spec i 0); [lia|].
  destruct (Z.ltb_spec i (Z.of_nat (length b))); [|lia].
  destruct (Z.eqb_spec j i) as [->|Hne].
  - destruct (Z.ltb_spec i 0); [lia|].
    rewrite list_lookup_insert_eq by lia. reflexivity.
  - destruct (Z.ltb_spec j 0); [reflexivity|].
    rewrite list_lookup_insert_ne by lia. reflexivity.
Qed.

Lemma board_ext (b1 b2 : Board) :
  length b1 = length b2 ->
  (forall i, 0 <= i < Z.of_nat (length b1) -> getSq b1 i = getSq b2 i) ->
  b1 = b2.
Proof.
  intros Hlen Hget. apply list_eq. intros n.
  destruct (Nat.lt_ge_cases n (length b1)) as [Hlt|Hge].
  - specialize (Hget (Z.of_nat n) ltac:(lia)). unfold getSq in Hget.
    destruct (Z.ltb_spec (Z.of_nat n) 0); [lia|].
    rewrite Nat2Z.id in Hget.
    destruct (lookup_lt_is_Some_2 b1 n Hlt) as [v1 H1].
    destruct (lookup_lt_is_Some_2 b2 n ltac:(lia)) as [v2 H2].
    rewrite H1, H2 in *. congruence.
  - rewrite (proj2 (lookup_ge_None b1 n)) by lia.
    rewrite (proj2 (lookup_ge_None b2 n)) by lia. reflexivity.
Qed.

Lemma setSq_64 b i v :
  length b = 64%nat -> 0 <= i < 64 -> length (setSq b i v) = 64%nat.
Proof. intros Hb Hi. rewrite length_setSq; [assumption|lia]. Qed.

Lemma getSq_setSq64 b i j v :
  length b = 64%nat -> 0 <= i < 64 ->
  getSq (setSq b i v) j = if j =? i then v else getSq b j.
Proof. intros Hb Hi. apply getSq_setSq. lia. Qed.

Lemma getSq_Some_range b i p :
  getSq b i = Some p -> 0 <= i < Z.of_nat (length b).
Proof.
  unfold getSq. destruct (Z.ltb_spec i 0); [discriminate|].
  destruct (b !! Z.to_nat i) eqn:Hl; [|discriminate].
  intros _. apply lookup_lt_Some in Hl. lia.
Qed.

Ltac b64 := repeat (apply setSq_64; [|lia]); assumption.
Ltac bget := repeat (rewrite getSq_setSq64; [|b64|lia]).

Lemma pop_snoc {A} (xs : list A) (x : A) : pop (xs ++ [x]) = Some (xs, x).
Proof.
  induction xs as [|y xs IH]; simpl; [reflexivity|].
  rewrite IH. reflexivity.
Qed.

Lemma opposite_involutive c : opposite (opposite c) = c.
Proof. destruct c; reflexivity. Qed.

Lemma roundToDouble_safe n : Z.abs n < 2 ^ 53 -> Js.roundToDouble n = n.
Proof.
  intros Hn. unfold Js.roundToDouble. cbv zeta.
  destruct (Z.ltb_spec (Z.abs n) (2 ^ 53)); [reflexivity|lia].
Qed.

Lemma roundToDouble_nonneg n : 0 <= n -> 0 <= Js.roundToDouble n.
Proof.
  intros Hn. unfold Js.roundToDouble. cbv zeta.
  destruct (Z.abs n <? 2 ^ 53); [exact Hn|].
  assert (Hq : 0 <= Z.shiftr (Z.abs n) (Z.log2 (Z.abs n) - 52))
    by (apply Z.shiftr_nonneg; lia).
  apply Z.mul_nonneg_nonneg; [lia|].
  apply Z.shiftl_nonneg.
  repeat match goal with
         | |- context [if ?c then _ else _] => destruct c
         end; lia.
Qed.

Lemma incr_nonneg n : 0 <= n -> 0 <= Js.incr n.
Proof. intros Hn. apply roundToDouble_nonneg. lia. Qed.

(** A counter that starts from at most [2^53] stays there. *)
Lemma incr_bound n : 0 <= n <= 2 ^ 53 -> 0 <= Js.incr n <= 2 ^ 53.
Proof.
  intros Hn. split; [apply incr_nonneg; lia|]. unfold Js.incr.
  destruct (Z.eq_dec n (2 ^ 53)) as [->|Hne]; [vm_compute; discriminate|].
  destruct (Z.eq_dec (n + 1) (2 ^ 53)) as [->|Hne'];
    [vm_compute; discriminate|].
  rewrite roundToDouble_safe by lia. lia.
Qed.

(** Below [2^53] a counter stepped up and down again is back where it
    was; at [2^53] it is not ([EngineProofs.fullmove_lost_at_2_53]). *)
Lemma decr_incr n : Z.abs n < 2 ^ 53 -> Js.decr (Js.incr n) = n.
Proof.
  intros Hn. unfold Js.incr, Js.decr.
  destruct (Z.eq_dec (n + 1) (2 ^ 53)) as [Htop|Hne].
  - replace n with (2 ^ 53 - 1) by lia. vm_compute. reflexivity.
  - rewrite (roundToDouble_safe (n + 1)) by lia.
    replace (n + 1 - 1) with n by lia.
    apply roundToDouble_safe. exact Hn.
Qed.

Lemma fullmove_restored (t : Color) (n : Z) :
  Z.abs n < 2 ^ 53 ->
  match opposite (opposite t) with
  | B => Js.decr match t with B => Js.incr n | W => n end
  | W => match t with B => Js.incr n | W => n end
  end = n.
Proof. intros Hn. destruct t; simpl; [reflexivity|apply decr_incr; exact Hn]. Qed.

Ltac eqb_cases :=
  repeat match goal with
         | |- context [?a =? ?b] => destruct (Z.eqb_spec a b)
         end.

Ltac state_simpl :=
  cbn [board turn castling enPassant halfmoveClock fullmoveNumber history] in *.

Lemma undo_make_shape gs m :
  well_formed gs -> Z.abs (fullmoveNumber gs) < 2 ^ 53 -> MoveShape gs m ->
  undoMove (fst (makeMove gs m)) = gs.
Proof.
  intros Hwf Hfm Hm. destruct Hm as [Hf Ht Hne Hp Hturn _ Hk].
  pose proof (wf_length gs Hwf) as Hlen.
  apply onBoard_range in Hf, Ht.
  unfold makeMove. cbn [fst]. unfold undoMove. cbn [history].
  rewrite pop_snoc.
  cbn [h_move h_castling h_enPassant h_halfmoveClock turn fullmoveNumber board
       setCaptured from to piece captured isEnPassant isCastling promotion].
  rewrite fullmove_restored, opposite_involutive by exact Hfm.
  destruct Hk as [Hep Hc Hdbl
                 |cp Hep Hc Hty Hpr Hepsq Hvic Hcp Hd
                 |Hc Hep Hty Hpr Hoff].
  - (* an ordinary move *)
    rewrite Hep, Hc, andb_false_r.
    destruct gs as [b t c e hm fm h]; state_simpl. f_equal.
    apply board_ext; [rewrite Hlen; b64|]. intros i Hi. bget.
    eqb_cases; subst; congruence.
  - (* en passant *)
    rewrite Hep, Hc, Hpr, andb_false_r.
    pose proof (wf_ep gs Hwf _ Hepsq) as Hempty.
    pose proof (getSq_Some_range _ _ _ Hvic) as Hv.
    assert (Hvne : enPassantVictim m <> from m /\ enPassantVictim m <> to m).
    { unfold enPassantVictim in *. destruct (color (piece m)); lia. }
    change (enPassantVictim (setCaptured m _)) with (enPassantVictim m).
    destruct gs as [b t c e hm fm h]; state_simpl. f_equal.
    apply board_ext; [rewrite Hlen; b64|]. intros i Hi. bget.
    eqb_cases; subst; try lia; congruence.
  - (* castling *)
    rewrite Hep, Hc, Hty, Hpr. cbn [Ascii.eqb Bool.eqb andb].
    unfold castleOffered in Hoff.
    assert (Hking : forall sq c, getSq (board gs) sq = Some (mkPiece "r"%char c) ->
                                 from m <> sq).
    { intros sq c Hr Heq. rewrite Heq, Hr in Hp. injection Hp as Hp.
      rewrite <- Hp in Hty. discriminate. }
    destruct (color (piece m));
      destruct Hoff as [(Hto & Hright & Hempty)|(Hto & Hright & Hempty)];
      rewrite Hto in *; cbn [castleRook uncastleRook Z.eqb Pos.eqb];
      [pose proof (Hking _ _ (wf_wks gs Hwf Hright))
      |pose proof (Hking _ _ (wf_wqs gs Hwf Hright))
      |pose proof (Hking _ _ (wf_bks gs Hwf Hright))
      |pose proof (Hking _ _ (wf_bqs gs Hwf Hright))];
      destruct gs as [b t c e hm fm h]; state_simpl; f_equal;
      (apply board_ext; [rewrite Hlen; b64|]); intros i Hi; bget;
      eqb_cases; subst; try lia; try congruence;
      intuition congruence.
Qed.

(** *** The shape of generated moves *)

Lemma isEmpty_true b i : isEmpty b i = true -> getSq b i = None.
Proof. unfold isEmpty. destruct (getSq b i); [discriminate|reflexivity]. Qed.

Lemma plain_shape gs sq t p cap pr :
  onBoard sq = true -> onBoard t = true -> sq <> t ->
  getSq (board gs) sq = Some p -> color p = turn gs ->
  (forall x, pr = Some x -> In x promotionPieces) ->
  (type p = "p"%char -> Z.abs (t - sq) = 16 ->
   getSq (board gs) ((sq + t) / 2) = None) ->
  MoveShape gs (mkMove sq t p cap pr false false).
Proof.
  intros. constructor; cbn; try assumption.
  apply kind_plain; cbn; auto.
Qed.

Lemma stepMoves_shape gs sq p reach deltas m :
  onBoard sq = true -> getSq (board gs) sq = Some p -> color p = turn gs ->
  type p <> "p"%char -> ~ In 0 deltas ->
  In m (stepMoves gs sq p reach deltas) -> MoveShape gs m.
Proof.
  intros Hon Hp Hc Hty H0 Hin.
  unfold stepMoves in Hin. apply in_flat_map in Hin.
  destruct Hin as [d [Hd Hin]].
  assert (d <> 0) by (intros ->; contradiction).
  split_in Hin; in_cases Hin;
    (apply plain_shape; try assumption;
     [apply negb_false_iff; assumption | lia | discriminate | contradiction]).
Qed.

Lemma slideRay_shape gs sq p dir fuel :
  onBoard sq = true -> getSq (board gs) sq = Some p -> color p = turn gs ->
  type p <> "p"%char ->
  forall t lastFile m,
    (0 < dirVals dir /\ sq < t) \/ (dirVals dir < 0 /\ t < sq) ->
    In m (slideRay fuel gs sq p dir t lastFile) -> MoveShape gs m.
Proof.
  intros Hon Hp Hc Hty.
  induction fuel as [|fuel IH]; intros t lastFile m Hdir Hin; [destruct Hin|].
  cbn [slideRay] in Hin.
  destruct (negb (onBoard t)) eqn:Hon'; [destruct Hin|].
  apply negb_false_iff in Hon'.
  destruct (wrapChecked dir && _); [destruct Hin|].
  destruct (getSq (board gs) t) as [target|].
  - destruct (negb _); [|destruct Hin]. in_cases Hin.
    apply plain_shape; try assumption; [lia|discriminate|contradiction].
  - destruct Hin as [<-|Hin].
    + apply plain_shape; try assumption; [lia|discriminate|contradiction].
    + apply (IH (t + dirVals dir) (fileOf t) m); [lia|exact Hin].
Qed.

Lemma slidingMoves_shape gs sq p dirs m :
  onBoard sq = true -> getSq (board gs) sq = Some p -> color p = turn gs ->
  type p <> "p"%char ->
  In m (generateSlidingMoves gs sq p dirs) -> MoveShape gs m.
Proof.
  intros Hon Hp Hc Hty Hin.
  unfold generateSlidingMoves in Hin. apply in_flat_map in Hin.
  destruct Hin as [dir [_ Hin]].
  apply (slideRay_shape gs sq p dir slideFuel Hon Hp Hc Hty
           (sq + dirVals dir) (fileOf sq) m); [|exact Hin].
  destruct dir; simpl; lia.
Qed.

Lemma castle_shape gs sq t p :
  onBoard sq = true -> getSq (board gs) sq = Some p -> color p = turn gs ->
  type p = "k"%char -> castleOffered gs (color p) t ->
  MoveShape gs (castleMove sq t p).
Proof.
  intros Hon Hp Hc Hty Hoff.
  assert (Hto : onBoard t = true /\ getSq (board gs) t = None).
  { unfold castleOffered in Hoff.
    destruct (color p); destruct Hoff as [H|H]; decompose [and] H; subst;
      split; (reflexivity || assumption). }
  destruct Hto as [Hton Htempty].
  constructor; cbn; try assumption.
  - intros ->. congruence.
  - discriminate.
  - apply kind_castle; cbn; auto.
Qed.

Lemma kingMoves_shape gs sq p m :
  onBoard sq = true -> getSq (board gs) sq = Some p -> color p = turn gs ->
  type p = "k"%char ->
  In m (generateKingMoves gs sq p) -> MoveShape gs m.
Proof.
  intros Hon Hp Hc Hty Hin.
  unfold generateKingMoves in Hin. apply in_app_or in Hin.
  destruct Hin as [Hin|Hin].
  - apply (stepMoves_shape gs sq p 1 kingDeltas); try assumption.
    + rewrite Hty. discriminate.
    + unfold kingDeltas. simpl. lia.
  - destruct (color p) eqn:Hcol; apply in_app_or in Hin;
      destruct Hin as [Hin|Hin];
      match type of Hin with
      | In _ (if ?c then _ else _) => destruct c eqn:Hcond; [|destruct Hin]
      end;
      destruct Hin as [<-|[]];
      repeat (apply andb_true_iff in Hcond; destruct Hcond as [Hcond ?]);
      apply castle_shape; try assumption;
      unfold castleOffered; rewrite Hcol;
      auto 10 using isEmpty_true.
Qed.

Lemma pawnMoves_shape gs sq p m :
  onBoard sq = true -> getSq (board gs) sq = Some p -> color p = turn gs ->
  type p = "p"%char ->
  In m (generatePawnMoves gs sq p) -> MoveShape gs m.
Proof.
  intros Hon Hp Hc Hty Hin.
  unfold generatePawnMoves in Hin. cbv zeta in Hin.
  apply in_app_or in Hin. destruct Hin as [Hin|Hin].
  - (* pushes *)
    destruct (onBoard _ && isEmpty _ _) eqn:Hone; [|destruct Hin].
    apply andb_true_iff in Hone. destruct Hone as [Hone Hempty].
    apply isEmpty_true in Hempty.
    destruct (rankOf _ =? _).
    + apply in_map_iff in Hin. destruct Hin as [pr [<- Hpr]].
      apply plain_shape; try assumption.
      * destruct (color p); lia.
      * intros x [= <-]. exact Hpr.
      * intros _ H16. destruct (color p); lia.
    + destruct Hin as [<-|Hin].
      * apply plain_shape; try assumption; try discriminate.
        -- destruct (color p); lia.
        -- intros _ H16. destruct (color p); lia.
      * destruct (rankOf sq =? _); [|destruct Hin].
        destruct (onBoard _ && isEmpty _ _) eqn:Htwo; [|destruct Hin].
        apply andb_true_iff in Htwo. destruct Htwo as [Htwo _].
        destruct Hin as [<-|[]].
        apply plain_shape; try assumption; try discriminate.
        -- destruct (color p); lia.
        -- intros _ _.
           replace ((sq + (sq + 2 * match color p with W => 8 | B => -8 end)) / 2)
             with (sq + match color p with W => 8 | B => -8 end);
             [exact Hempty|].
           destruct (color p); Z.to_euclidean_division_equations; lia.
  - (* captures *)
    apply in_flat_map in Hin. destruct Hin as [d [Hd Hin]].
    assert (Hd' : Z.abs d = 7 \/ Z.abs d = 9).
    { destruct (color p); in_cases Hd; lia. }
    destruct (negb (onBoard (sq + d))) eqn:Hon'; [destruct Hin|].
    apply negb_false_iff in Hon'.
    destruct (negb _); [destruct Hin|].
    assert (Hep : In m match enPassant gs with
                       | Some ep =>
                           if sq + d =? ep then
                             match getSq (board gs)
                                     match color p with
                                     | W => sq + d - 8
                                     | B => sq + d + 8
                                     end with
                             | Some capPiece =>
                                 if Ascii.eqb (type capPiece) "p"
                                    && negb (Color_eqb (color capPiece) (color p))
                                 then [mkMove sq (sq + d) p (Some capPiece)
                                              None true false]
                                 else []
                             | None => []
                             end
                           else []
                       | None => []
                       end -> MoveShape gs m).
    { clear Hin. intros Hin.
      destruct (enPassant gs) as [ep|] eqn:Hepsq; [|destruct Hin].
      destruct (Z.eqb_spec (sq + d) ep) as [<-|]; [|destruct Hin].
      match type of Hin with
      | context [getSq (board gs) ?v] =>
          destruct (getSq (board gs) v) as [capPiece|] eqn:Hvic; [|destruct Hin]
      end.
      destruct (_ && _) eqn:Hcond; [|destruct Hin].
      apply andb_true_iff in Hcond. destruct Hcond as [Hcp _].
      apply Ascii.eqb_eq in Hcp.
      destruct Hin as [<-|[]].
      constructor; cbn; try assumption; try lia; try discriminate.
      apply kind_enPassant with (cp := capPiece); cbn; try assumption;
        try reflexivity.
      lia. }
    destruct (getSq (board gs) (sq + d)) as [target|]; [|exact (Hep Hin)].
    destruct (negb (Color_eqb (color target) (color p))); [|exact (Hep Hin)].
    clear Hep.
    destruct (rankOf _ =? _).
    + apply in_map_iff in Hin. destruct Hin as [pr [<- Hpr]].
      apply plain_shape; try assumption; try lia.
      intros x [= <-]. exact Hpr.
    + destruct Hin as [<-|[]].
      apply plain_shape; try assumption; try lia. discriminate.
Qed.

Lemma pseudo_shape gs m :
  In m (generatePseudoLegalMoves gs) -> MoveShape gs m.
Proof.
  intros Hin.
  unfold generatePseudoLegalMoves in Hin. apply in_flat_map in Hin.
  destruct Hin as [sq [Hsq Hin]]. apply squares_onBoard in Hsq.
  unfold movesFrom in Hin.
  destruct (getSq (board gs) sq) as [p|] eqn:Hp; [|destruct Hin].
  destruct (negb (Color_eqb (color p) (turn gs))) eqn:Hturn; [destruct Hin|].
  apply negb_false_iff, Color_eqb_eq in Hturn.
  destruct (Ascii.eqb_spec (type p) "p") as [Tp|Tp].
  { apply (pawnMoves_shape gs sq p); assumption. }
  destruct (Ascii.eqb (type p) "n").
  { apply (stepMoves_shape gs sq p 2 knightDeltas); try assumption.
    unfold knightDeltas. simpl. lia. }
  destruct (Ascii.eqb (type p) "b").
  { eapply (slidingMoves_shape gs sq p); eassumption. }
  destruct (Ascii.eqb (type p) "r").
  { eapply (slidingMoves_shape gs sq p); eassumption. }
  destruct (Ascii.eqb (type p) "q").
  { eapply (slidingMoves_shape gs sq p); eassumption. }
  destruct (Ascii.eqb_spec (type p) "k") as [Tk|Tk]; [|destruct Hin].
  apply (kingMoves_shape gs sq p); assumption.
Qed.

Lemma cloneGameState_id gs : cloneGameState gs = gs.
Proof. destruct gs; reflexivity. Qed.

Lemma legal_from_pseudo gs m :
  In m (generateLegalMoves gs) ->
  exists m0, In m0 (generatePseudoLegalMoves gs) /\ m = snd (makeMove gs m0).
Proof.
  unfold generateLegalMoves. intros Hin. apply in_flat_map in Hin.
  destruct Hin as [m0 [Hm0 Hin]]. exists m0. split; [exact Hm0|].
  unfold legalOne in Hin. rewrite cloneGameState_id in Hin.
  destruct (isCastling m0 && _); [destruct Hin|].
  destruct (makeMove gs m0) as [snapshot m'].
  destruct (negb _); [|destruct Hin].
  destruct Hin as [<-|[]]. reflexivity.
Qed.

(** [makeMove] overwrites [move.captured] before reading it. *)
Lemma makeMove_again gs m : makeMove gs (snd (makeMove gs m)) = makeMove gs m.
Proof. reflexivity. Qed.

(** C3: on a well-formed state whose fullmove number is below [2^53] in
    absolute value, making any move of [generateLegalMoves] and undoing it
    gives back the state, field for field. *)
Theorem undo_after_make (gs : GameState) (m : Move) :
  well_formed gs -> Z.abs (fullmoveNumber gs) < 2 ^ 53 ->
  In m (generateLegalMoves gs) ->
  undoMove (fst (makeMove gs m)) = gs.
Proof.
  intros Hwf Hfm Hin.
  destruct (legal_from_pseudo gs m Hin) as [m0 [Hm0 ->]].
  rewrite makeMove_again.
  apply undo_make_shape; [exact Hwf|exact Hfm|].
  apply pseudo_shape. exact Hm0.
Qed.

(** The bound is needed: [fullmoveNumber] is stepped up by [makeMove] and
    down by [undoMove], with no copy kept in the history entry, and at
    [2^53] the step up is lost to rounding. *)
Lemma fullmove_lost_at_2_53 :
  exists gs,
    fenToGameState lateGame = Js.Ok gs /\
    In lateGameMove (generateLegalMoves gs) /\
    fullmoveNumber gs = 2 ^ 53 /\
    fullmoveNumber (fst (makeMove gs lateGameMove)) = 2 ^ 53 /\
    fullmoveNumber (undoMove (fst (makeMove gs lateGameMove))) = 2 ^ 53 - 1.
Proof.
  eexists. split; [vm_compute; reflexivity|].
  split; [vm_compute; left; reflexivity|].
  repeat split; vm_compute; reflexivity.
Qed.

(** *** Well-formedness is kept by every generated move *)

Lemma clearRookRights_spec sq R :
  wks (clearRookRights sq R) = wks R && negb (sq =? 7) /\
  wqs (clearRookRights sq R) = wqs R && negb (sq =? 0) /\
  bks (clearRookRights sq R) = bks R && negb (sq =? 63) /\
  bqs (clearRookRights sq R) = bqs R && negb (sq =? 56).
Proof.
  unfold clearRookRights.
  destruct (Z.eqb_spec sq 0), (Z.eqb_spec sq 7),
           (Z.eqb_spec sq 56), (Z.eqb_spec sq 63);
    try (exfalso; lia);
    destruct R as [[] [] [] []]; cbn; auto.
Qed.

Lemma clearKingRights_spec c R :
  wks (clearKingRights c R) = wks R && Color_eqb c B /\
  wqs (clearKingRights c R) = wqs R && Color_eqb c B /\
  bks (clearKingRights c R) = bks R && Color_eqb c W /\
  bqs (clearKingRights c R) = bqs R && Color_eqb c W.
Proof.
  destruct R as [a b c' d], c; cbn; rewrite ?andb_true_r, ?andb_false_r; auto.
Qed.

(** What [makeMove] leaves of the castling rights and of the clocks. *)
Lemma makeMove_state gs m :
  let cap := if isEnPassant m then getSq (board gs) (enPassantVictim m)
             else getSq (board gs) (to m) in
  let isKing := Ascii.eqb (type (piece m)) "k" in
  let r1 := if isKing then clearKingRights (color (piece m)) (castling gs)
            else castling gs in
  let r2 := if Ascii.eqb (type (piece m)) "r"
            then clearRookRights (from m) r1 else r1 in
  let r3 := match cap with
            | Some c => if Ascii.eqb (type c) "r"
                        then clearRookRights (to m) r2 else r2
            | None => r2
            end in
  castling (fst (makeMove gs m)) = r3 /\
  enPassant (fst (makeMove gs m)) =
    (if Ascii.eqb (type (piece m)) "p" && (Z.abs (to m - from m) =? 16)
     then Some ((from m + to m) / 2) else None) /\
  halfmoveClock (fst (makeMove gs m)) =
    (if Ascii.eqb (type (piece m)) "p" || isSome cap
     then 0 else Js.incr (halfmoveClock gs)) /\
  fullmoveNumber (fst (makeMove gs m)) =
    match turn gs with
    | B => Js.incr (fullmoveNumber gs)
    | W => fullmoveNumber gs
    end.
Proof. repeat split. Qed.

Lemma rights_kept gs m :
  let cap := if isEnPassant m then getSq (board gs) (enPassantVictim m)
             else getSq (board gs) (to m) in
  let keeps (old new : bool) (corner : Z) (owner : Color) :=
    new = true ->
    old = true /\
    (type (piece m) = "k"%char -> color (piece m) <> owner) /\
    (type (piece m) = "r"%char -> from m <> corner) /\
    (forall c, cap = Some c -> type c = "r"%char -> to m <> corner) in
  keeps (wks (castling gs)) (wks (castling (fst (makeMove gs m)))) 7 W /\
  keeps (wqs (castling gs)) (wqs (castling (fst (makeMove gs m)))) 0 W /\
  keeps (bks (castling gs)) (bks (castling (fst (makeMove gs m)))) 63 B /\
  keeps (bqs (castling gs)) (bqs (castling (fst (makeMove gs m)))) 56 B.
Proof.
  intros cap keeps. subst keeps. cbv beta.
  destruct (makeMove_state gs m) as [-> _]. fold cap.
  assert (Hcap : forall R,
    let r := match cap with
             | Some c => if Ascii.eqb (type c) "r"
                         then clearRookRights (to m) R else R
             | None => R
             end in
    forall (sel : CastlingRights -> bool) corner,
      sel (clearRookRights (to m) R) = sel R && negb (to m =? corner) ->
      sel r = true ->
      sel R = true /\
      (forall c, cap = Some c -> type c = "r"%char -> to m <> corner)).
  { intros R r sel corner Hspec Hr. subst r.
    destruct cap as [c|]; [|split; [exact Hr|discriminate]].
    destruct (Ascii.eqb_spec (type c) "r") as [Hc|Hc].
    - rewrite Hspec in Hr. apply andb_true_iff in Hr. destruct Hr as [Hr Hn].
      split; [exact Hr|]. intros _ _ _.
      apply negb_true_iff, Z.eqb_neq in Hn. exact Hn.
    - split; [exact Hr|]. intros c' [= <-] Hc'. contradiction. }
  assert (Hrook : forall R (sel : CastlingRights -> bool) corner,
    sel (clearRookRights (from m) R) = sel R && negb (from m =? corner) ->
    sel (if Ascii.eqb (type (piece m)) "r"
         then clearRookRights (from m) R else R) = true ->
    sel R = true /\ (type (piece m) = "r"%char -> from m <> corner)).
  { intros R sel corner Hspec Hr.
    destruct (Ascii.eqb_spec (type (piece m)) "r") as [Hc|Hc].
    - rewrite Hspec in Hr. apply andb_true_iff in Hr. destruct Hr as [Hr Hn].
      split; [exact Hr|]. intros _.
      apply negb_true_iff, Z.eqb_neq in Hn. exact Hn.
    - split; [exact Hr|]. intros Hc'. contradiction. }
  assert (Hking : forall (sel : CastlingRights -> bool) owner,
    sel (clearKingRights (color (piece m)) (castling gs))
    = sel (castling gs) && Color_eqb (color (piece m)) (opposite owner) ->
    sel (if Ascii.eqb (type (piece m)) "k"
         then clearKingRights (color (piece m)) (castling gs)
         else castling gs) = true ->
    sel (castling gs) = true /\
    (type (piece m) = "k"%char -> color (piece m) <> owner)).
  { intros sel owner Hspec Hr.
    destruct (Ascii.eqb_spec (type (piece m)) "k") as [Hc|Hc].
    - rewrite Hspec in Hr. apply andb_true_iff in Hr. destruct Hr as [Hr Hn].
      split; [exact Hr|]. intros _ Heq. rewrite Heq in Hn.
      destruct owner; discriminate.
    - split; [exact Hr|]. intros Hc'. contradiction. }
  split; [|split; [|split]]; intros Hr;
    (eapply Hcap in Hr; [|apply clearRookRights_spec]);
    destruct Hr as [Hr H3];
    (eapply Hrook in Hr; [|apply clearRookRights_spec]);
    destruct Hr as [Hr H2];
    first [ eapply (Hking _ W) in Hr; [|apply clearKingRights_spec]
          | eapply (Hking _ B) in Hr; [|apply clearKingRights_spec] ];
    destruct Hr as [Hr H1]; auto.
Qed.

Lemma makeMove_board gs m :
  board (fst (makeMove gs m)) =
  let b := if isEnPassant m then setSq (board gs) (enPassantVictim m) None
           else board gs in
  let placed := match promotion m with
                | Some pr => mkPiece pr (color (piece m))
                | None => piece m
                end in
  let b := setSq (setSq b (to m) (Some placed)) (from m) None in
  if Ascii.eqb (type (piece m)) "k" && isCastling m
  then castleRook b (to m) else b.
Proof. reflexivity. Qed.

(** The cases of a generated move, with the facts each one brings, ready
    for a proof about the board after the move. *)
Ltac by_kind Hwf Hm :=
  let Hf := fresh "Hf" in
  let Ht := fresh "Ht" in
  let Hne := fresh "Hne" in
  let Hp := fresh "Hp" in
  let Hturn := fresh "Hturn" in
  let Hpromo := fresh "Hpromo" in
  let Hk := fresh "Hk" in
  let Hlen := fresh "Hlen" in
  destruct Hm as [Hf Ht Hne Hp Hturn Hpromo Hk];
  pose proof (wf_length _ Hwf) as Hlen;
  apply onBoard_range in Hf, Ht;
  rewrite makeMove_board; cbv zeta;
  destruct Hk as [Hep Hc Hdbl
                 |cp Hep Hc Hty Hpr Hepsq Hvic Hcp Hd
                 |Hc Hep Hty Hpr Hoff];
  [ rewrite Hep, Hc, andb_false_r
  | rewrite Hep, Hc, Hpr, andb_false_r;
    pose proof (wf_ep _ Hwf _ Hepsq) as Hempty;
    pose proof (getSq_Some_range _ _ _ Hvic) as Hv;
    rewrite Hlen in Hv
  | rewrite Hep, Hc, Hty, Hpr; cbn [Ascii.eqb Bool.eqb andb];
    unfold castleOffered in Hoff ].

Lemma makeMove_length gs m :
  well_formed gs -> MoveShape gs m ->
  length (board (fst (makeMove gs m))) = 64%nat.
Proof.
  intros Hwf Hm. by_kind Hwf Hm.
  - b64.
  - b64.
  - destruct (color (piece m));
      destruct Hoff as [(Hto & _)|(Hto & _)]; rewrite Hto in *;
      cbn [castleRook Z.eqb Pos.eqb]; b64.
Qed.

Lemma rook_stays gs m corner owner :
  well_formed gs -> MoveShape gs m ->
  getSq (board gs) corner = Some (mkPiece "r"%char owner) ->
  (type (piece m) = "k"%char -> color (piece m) <> owner) ->
  (type (piece m) = "r"%char -> from m <> corner) ->
  (forall c, (if isEnPassant m then getSq (board gs) (enPassantVictim m)
              else getSq (board gs) (to m)) = Some c ->
             type c = "r"%char -> to m <> corner) ->
  match owner with
  | W => corner = 0 \/ corner = 7
  | B => corner = 56 \/ corner = 63
  end ->
  getSq (board (fst (makeMove gs m))) corner = Some (mkPiece "r"%char owner).
Proof.
  intros Hwf Hm Hrook H1 H2 H3 Hcorner.
  assert (Hfrom : from m <> corner).
  { intros Heq. apply H2; [|exact Heq].
    destruct Hm as [_ _ _ Hp _ _ _]. rewrite Heq, Hrook in Hp.
    injection Hp as <-. reflexivity. }
  by_kind Hwf Hm.
  - rewrite Hep in H3.
    assert (to m <> corner).
    { intros Heq. apply (H3 _ ltac:(rewrite Heq; exact Hrook));
        [reflexivity|exact Heq]. }
    bget. eqb_cases; subst; congruence.
  - assert (to m <> corner) by congruence.
    assert (enPassantVictim m <> corner).
    { intros Heq. rewrite Heq, Hrook in Hvic. injection Hvic as <-.
      discriminate. }
    bget. eqb_cases; subst; congruence.
  - specialize (H1 Hty).
    destruct (color (piece m)), owner; try congruence;
      destruct Hoff as [(Hto & _)|(Hto & _)]; rewrite Hto in *;
      cbn [castleRook Z.eqb Pos.eqb]; bget;
      eqb_cases; subst; try lia; try congruence.
Qed.

Lemma makeMove_well_formed gs m :
  well_formed gs -> MoveShape gs m -> well_formed (fst (makeMove gs m)).
Proof.
  intros Hwf Hm.
  destruct (rights_kept gs m) as (Kwks & Kwqs & Kbks & Kbqs).
  constructor.
  - apply makeMove_length; assumption.
  - intros Hr. apply Kwks in Hr. destruct Hr as (Hold & H1 & H2 & H3).
    apply rook_stays; auto using wf_wks.
  - intros Hr. apply Kwqs in Hr. destruct Hr as (Hold & H1 & H2 & H3).
    apply rook_stays; auto using wf_wqs.
  - intros Hr. apply Kbks in Hr. destruct Hr as (Hold & H1 & H2 & H3).
    apply rook_stays; auto using wf_bks.
  - intros Hr. apply Kbqs in Hr. destruct Hr as (Hold & H1 & H2 & H3).
    apply rook_stays; auto using wf_bqs.
  - intros e He.
    destruct (makeMove_state gs m) as (_ & Hep' & _). rewrite Hep' in He.
    destruct (Ascii.eqb_spec (type (piece m)) "p") as [Hpawn|];
      [|discriminate].
    destruct (Z.eqb_spec (Z.abs (to m - from m)) 16) as [Hstep|];
      [|discriminate].
    injection He as <-.
    assert (Hmid : (from m + to m) / 2 <> from m /\ (from m + to m) / 2 <> to m)
      by (Z.to_euclidean_division_equations; lia).
    assert (Hrange : 0 <= (from m + to m) / 2 < 64).
    { destruct Hm as [Hf Ht _ _ _ _ _]. apply onBoard_range in Hf, Ht.
      Z.to_euclidean_division_equations; lia. }
    by_kind Hwf Hm.
    + bget. eqb_cases; subst; try lia. auto.
    + lia.
    + rewrite Hty in Hpawn. discriminate.
Qed.

Lemma start_well_formed : well_formed startPosition.
Proof.
  constructor; try reflexivity. discriminate.
Qed.

Lemma legal_shape gs m :
  In m (generateLegalMoves gs) ->
  exists m0, MoveShape gs m0 /\ makeMove gs m = makeMove gs m0.
Proof.
  intros Hin. destruct (legal_from_pseudo gs m Hin) as [m0 [Hm0 ->]].
  exists m0. split; [apply pseudo_shape; exact Hm0|apply makeMove_again].
Qed.

Lemma reachable_well_formed gs : reachable gs -> well_formed gs.
Proof.
  induction 1 as [|gs m _ IH Hin]; [apply start_well_formed|].
  destruct (legal_shape gs m Hin) as [m0 [Hshape ->]].
  apply makeMove_well_formed; assumption.
Qed.

Lemma undo_after_make_witness :
  let m := mkMove 12 28 (mkPiece "p"%char W) None None false false in
  well_formed startPosition /\
  Z.abs (fullmoveNumber startPosition) < 2 ^ 53 /\
  In m (generateLegalMoves startPosition) /\
  undoMove (fst (makeMove startPosition m)) = startPosition.
Proof.
  intros m.
  assert (Hin : In m (generateLegalMoves startPosition)).
  { vm_compute. do 13 right. left. reflexivity. }
  assert (Hfm : Z.abs (fullmoveNumber startPosition) < 2 ^ 53)
    by (vm_compute; reflexivity).
  split; [apply start_well_formed|]. split; [exact Hfm|]. split; [exact Hin|].
  apply (undo_after_make startPosition m start_well_formed Hfm Hin).
Defined.

(** *** FEN round trip *)

Lemma promotionPieces_letters pr :
  In pr promotionPieces -> In pr pieceLetters.
Proof. unfold promotionPieces, pieceLetters. simpl. tauto. Qed.

Lemma makeMove_types gs m :
  well_formed gs -> MoveShape gs m ->
  (forall i q, getSq (board gs) i = Some q -> In (type q) pieceLetters) ->
  forall i q, getSq (board (fst (makeMove gs m))) i = Some q ->
              In (type q) pieceLetters.
Proof.
  intros Hwf Hm Hold i q.
  assert (Hplaced : In (type match promotion m with
                             | Some pr => mkPiece pr (color (piece m))
                             | None => piece m
                             end) pieceLetters).
  { destruct Hm as [_ _ _ Hp _ Hpromo _].
    destruct (promotion m) as [pr|].
    - apply promotionPieces_letters, Hpromo. reflexivity.
    - apply (Hold _ _ Hp). }
  by_kind Hwf Hm.
  - bget. eqb_cases; intros Hq; try discriminate.
    + injection Hq as <-. exact Hplaced.
    + apply (Hold _ _ Hq).
  - bget. eqb_cases; intros Hq; try discriminate.
    + injection Hq as <-. apply (Hold _ _ Hp).
    + apply (Hold _ _ Hq).
  - destruct (color (piece m));
      destruct Hoff as [(Hto & _)|(Hto & _)]; rewrite Hto in *;
      cbn [castleRook Z.eqb Pos.eqb]; bget;
      eqb_cases; intros Hq; try discriminate; try lia;
      try (injection Hq as <-; apply (Hold _ _ Hp));
      apply (Hold _ _ Hq).
Qed.

Lemma makeMove_printable gs m :
  well_formed gs -> MoveShape gs m -> printable gs ->
  printable (fst (makeMove gs m)).
Proof.
  intros Hwf Hm Hpr.
  destruct (makeMove_state gs m) as (_ & Hep & Hhm & Hfm).
  constructor.
  - apply makeMove_length; assumption.
  - apply makeMove_types; try assumption. apply (pr_types gs Hpr).
  - intros e. rewrite Hep.
    destruct (_ && _); [|discriminate]. intros [= <-].
    destruct Hm as [Hf Ht _ _ _ _ _]. apply onBoard_range in Hf, Ht.
    Z.to_euclidean_division_equations; lia.
  - rewrite Hhm. pose proof (pr_halfmove gs Hpr).
    destruct (_ || _); [lia|apply incr_bound; assumption].
  - rewrite Hfm. pose proof (pr_fullmove gs Hpr).
    destruct (turn gs); [assumption|apply incr_bound; assumption].
Qed.

Lemma board_types_check (b : Board) :
  forallb (fun sq => match sq with
                     | Some q => existsb (Ascii.eqb (type q)) pieceLetters
                     | None => true
                     end) b = true ->
  forall i q, getSq b i = Some q -> In (type q) pieceLetters.
Proof.
  intros Hall i q Hq. unfold getSq in Hq.
  destruct (i <? 0); [discriminate|].
  destruct (b !! Z.to_nat i) as [v|] eqn:Hl; [|discriminate]. subst v.
  rewrite forallb_forall in Hall.
  assert (Hin : In (Some q) b).
  { apply list_elem_of_In, list_elem_of_lookup. eauto. }
  specialize (Hall _ Hin). cbn beta iota in Hall.
  apply existsb_exists in Hall. destruct Hall as [c [Hc Heq]].
  apply Ascii.eqb_eq in Heq. rewrite Heq. exact Hc.
Qed.

Lemma start_printable : printable startPosition.
Proof.
  constructor; try reflexivity; try discriminate; try (cbn; lia).
  apply board_types_check. vm_compute. reflexivity.
Qed.

Lemma reachable_printable gs : reachable gs -> printable gs.
Proof.
  induction 1 as [|gs m Hreach IH Hin]; [apply start_printable|].
  destruct (legal_shape gs m Hin) as [m0 [Hshape ->]].
  apply makeMove_printable; try assumption.
  apply reachable_well_formed. exact Hreach.
Qed.

(** Strings: [split] undoes [join] on parts free of the separator. *)

Lemma sapp_assoc (a b c : string) : ((a ++ b) ++ c = a ++ (b ++ c))%string.
Proof. induction a as [|x a IH]; simpl; [reflexivity|]. rewrite IH. reflexivity. Qed.

Lemma sapp_nil_r (a : string) : (a ++ "" = a)%string.
Proof. induction a as [|x a IH]; simpl; [reflexivity|]. rewrite IH. reflexivity. Qed.

Lemma includes_app a b c :
  Js.includes (a ++ b) c = Js.includes a c || Js.includes b c.
Proof.
  induction a as [|x a IH]; simpl; [reflexivity|].
  rewrite IH. apply orb_assoc.
Qed.

Lemma split_go_cons sep a : forall cur rest,
  Js.includes a sep = false ->
  Js.split_go sep cur (a ++ String sep rest)
  = (cur ++ a)%string :: Js.split_go sep EmptyString rest.
Proof.
  induction a as [|x a IH]; intros cur rest Hno; simpl.
  - rewrite Ascii.eqb_refl, sapp_nil_r. reflexivity.
  - simpl in Hno. apply orb_false_iff in Hno. destruct Hno as [Hx Ha].
    rewrite Hx. rewrite IH by exact Ha.
    rewrite sapp_assoc. reflexivity.
Qed.

Lemma split_go_last sep a : forall cur,
  Js.includes a sep = false ->
  Js.split_go sep cur a = [(cur ++ a)%string].
Proof.
  induction a as [|x a IH]; intros cur Hno; simpl.
  - rewrite sapp_nil_r. reflexivity.
  - simpl in Hno. apply orb_false_iff in Hno. destruct Hno as [Hx Ha].
    rewrite Hx. rewrite IH by exact Ha.
    rewrite sapp_assoc. reflexivity.
Qed.

Lemma split_cons sep a rest :
  Js.includes a sep = false ->
  Js.split sep (a ++ String sep rest) = a :: Js.split sep rest.
Proof. intros Hno. unfold Js.split. rewrite split_go_cons by exact Hno. reflexivity. Qed.

Lemma split_last sep a :
  Js.includes a sep = false -> Js.split sep a = [a].
Proof. intros Hno. unfold Js.split. rewrite split_go_last by exact Hno. reflexivity. Qed.

(** Numbers: [Number] reads back what [toString] prints. *)

Lemma digitChar_spec d :
  0 <= d <= 9 ->
  Js.isDigit (Js.digitChar d) = true /\
  Js.digitValue (Js.digitChar d) = d /\
  Ascii.eqb (Js.digitChar d) " " = false /\
  Ascii.eqb (Js.digitChar d) "/" = false.
Proof.
  intros Hd.
  assert (Hcases : d = 0 \/ d = 1 \/ d = 2 \/ d = 3 \/ d = 4 \/ d = 5 \/
                   d = 6 \/ d = 7 \/ d = 8 \/ d = 9) by lia.
  repeat (destruct Hcases as [->|Hcases]; [vm_compute; auto|]).
  subst. vm_compute. auto.
Qed.

Lemma natDigits_value fuel : forall n acc,
  0 <= n -> (Z.to_nat n < fuel)%nat ->
  exists p, forall v0,
    Js.digitsValue (Js.natDigits fuel n acc) v0
    = Js.digitsValue acc (v0 * p + n).
Proof.
  induction fuel as [|fuel IH]; intros n acc Hn Hfuel; [lia|].
  cbn [Js.natDigits].
  assert (Hmod : 0 <= n mod 10 <= 9) by (pose proof (Z.mod_pos_bound n 10); lia).
  destruct (digitChar_spec _ Hmod) as (Hdig & Hval & _).
  destruct (Z.ltb_spec n 10) as [Hsmall|Hbig].
  - exists 10. intros v0. cbn [Js.digitsValue]. rewrite Hdig, Hval.
    rewrite Z.mod_small by lia. f_equal. lia.
  - destruct (IH (n / 10) (String (Js.digitChar (n mod 10)) acc)) as [p Hp].
    + apply Z.div_pos; lia.
    + assert (n / 10 < n) by (apply Z.div_lt; lia). lia.
    + exists (10 * p). intros v0. rewrite Hp.
      cbn [Js.digitsValue]. rewrite Hdig, Hval. f_equal.
      pose proof (Z.div_mod n 10 ltac:(lia)). lia.
Qed.

Lemma natDigits_nonempty fuel : forall n c acc,
  exists c' s', Js.natDigits fuel n (String c acc) = String c' s'.
Proof.
  induction fuel as [|fuel IH]; intros n c acc; cbn [Js.natDigits]; [eauto|].
  destruct (n <? 10); [eauto|]. apply IH.
Qed.

Lemma natDigits_clean sep fuel : forall n acc,
  (forall d, 0 <= d <= 9 -> Ascii.eqb (Js.digitChar d) sep = false) ->
  Js.includes acc sep = false ->
  Js.includes (Js.natDigits fuel n acc) sep = false.
Proof.
  induction fuel as [|fuel IH]; intros n acc Hsep Hacc; cbn [Js.natDigits];
    [exact Hacc|].
  assert (Hmod : 0 <= n mod 10 <= 9) by (pose proof (Z.mod_pos_bound n 10); lia).
  assert (Hstep : Js.includes (String (Js.digitChar (n mod 10)) acc) sep = false).
  { cbn [Js.includes]. rewrite (Hsep _ Hmod), Hacc. reflexivity. }
  destruct (n <? 10); [exact Hstep|]. apply IH; assumption.
Qed.

Lemma toString_nonneg n :
  0 <= n -> Js.toString n = Js.natDigits (S (Z.to_nat n)) n EmptyString.
Proof. intros Hn. unfold Js.toString. destruct (Z.ltb_spec n 0); [lia|reflexivity]. Qed.

Lemma Number_toString n :
  0 <= n <= 2 ^ 53 -> Js.Number (Js.toString n) = Some n.
Proof.
  intros [Hn Hmax]. rewrite toString_nonneg by exact Hn.
  destruct (natDigits_value (S (Z.to_nat n)) n EmptyString Hn ltac:(lia))
    as [p Hp].
  unfold Js.Number. rewrite Hp.
  assert (Hval : Js.digitsValue EmptyString (0 * p + n) = Some n)
    by (cbn [Js.digitsValue]; f_equal; lia).
  rewrite Hval. destruct (Z.leb_spec n (2 ^ 53)); [|lia].
  cbn [Js.natDigits].
  destruct (n <? 10); [reflexivity|].
  destruct (natDigits_nonempty (Z.to_nat n) (n / 10) (Js.digitChar (n mod 10))
                               EmptyString) as (c' & s' & ->).
  reflexivity.
Qed.

Lemma toString_nonempty n : 0 <= n -> Js.toString n <> EmptyString.
Proof.
  intros Hn. rewrite toString_nonneg by exact Hn. cbn [Js.natDigits].
  destruct (n <? 10); [discriminate|].
  destruct (natDigits_nonempty (Z.to_nat n) (n / 10) (Js.digitChar (n mod 10))
                               EmptyString) as (c' & s' & ->).
  discriminate.
Qed.

Lemma toString_no_space n : 0 <= n -> Js.includes (Js.toString n) " " = false.
Proof.
  intros Hn. rewrite toString_nonneg by exact Hn.
  apply natDigits_clean; [|reflexivity].
  intros d Hd. apply (digitChar_spec d Hd).
Qed.

Lemma numberOr_toString n dflt :
  0 <= n <= 2 ^ 53 -> numberOr (Some (Js.toString n)) dflt = Some n.
Proof.
  intros Hn. unfold numberOr.
  pose proof (toString_nonempty n (proj1 Hn)) as Hne.
  pose proof (Number_toString n Hn) as Hnum.
  destruct (Js.toString n); [contradiction|exact Hnum].
Qed.

Lemma toString_digit e :
  1 <= e <= 8 -> Js.toString e = String (Js.digitChar e) EmptyString.
Proof.
  intros He.
  assert (Hcases : e = 1 \/ e = 2 \/ e = 3 \/ e = 4 \/ e = 5 \/
                   e = 6 \/ e = 7 \/ e = 8) by lia.
  repeat (destruct Hcases as [->|Hcases]; [reflexivity|]).
  subst. reflexivity.
Qed.

(** Rows: [decodeRow] rebuilds the squares [encodeRow] printed. *)

Lemma pieceChar_spec p :
  In (type p) pieceLetters ->
  Js.isDigit (pieceChar p) = false /\
  (if Ascii.eqb (pieceChar p) (Js.toUpperCase (pieceChar p)) then W else B)
  = color p /\
  Js.toLowerCase (pieceChar p) = type p /\
  Ascii.eqb (pieceChar p) " " = false /\
  Ascii.eqb (pieceChar p) "/" = false.
Proof.
  destruct p as [ty c]. unfold pieceLetters. cbn [type In].
  intros Hty.
  repeat (destruct Hty as [<-|Hty]; [destruct c; vm_compute; auto|]).
  destruct Hty.
Qed.

Lemma encodeRow_acc b r fs : forall row e,
  encodeRow b r fs row e = (row ++ encodeRow b r fs EmptyString e)%string.
Proof.
  induction fs as [|f fs IH]; intros row e; cbn [encodeRow].
  - destruct (e =? 0); [rewrite sapp_nil_r|]; reflexivity.
  - destruct (getSq b (r * 8 + f)) as [p|]; [|apply IH].
    rewrite IH.
    rewrite (IH (_ ++ String (pieceChar p) EmptyString)%string).
    destruct (e =? 0); cbn; rewrite ?sapp_assoc; reflexivity.
Qed.

Lemma toString_clean sep n :
  (forall d, 0 <= d <= 9 -> Ascii.eqb (Js.digitChar d) sep = false) ->
  0 <= n -> Js.includes (Js.toString n) sep = false.
Proof.
  intros Hsep Hn. rewrite toString_nonneg by exact Hn.
  apply natDigits_clean; [exact Hsep|reflexivity].
Qed.

Lemma encodeRow_clean b r sep fs :
  (forall i q, getSq b i = Some q -> Ascii.eqb (pieceChar q) sep = false) ->
  (forall d, 0 <= d <= 9 -> Ascii.eqb (Js.digitChar d) sep = false) ->
  forall e, 0 <= e ->
  Js.includes (encodeRow b r fs EmptyString e) sep = false.
Proof.
  intros Hpiece Hdigit.
  induction fs as [|f fs IH]; intros e He; cbn [encodeRow].
  - destruct (e =? 0); [reflexivity|].
    apply toString_clean; assumption.
  - destruct (getSq b (r * 8 + f)) as [p|] eqn:Hp; [|apply IH; lia].
    rewrite encodeRow_acc, !includes_app, IH by lia.
    cbn [Js.includes]. rewrite (Hpiece _ _ Hp).
    destruct (e =? 0); cbn [String.append Js.includes orb]; [reflexivity|].
    rewrite toString_clean by assumption. reflexivity.
Qed.

Lemma decodedUpTo_skip b B lim :
  decodedUpTo b B lim -> getSq b lim = None -> decodedUpTo b B (lim + 1).
Proof.
  intros [Hlen Hget] Hnone. split; [exact Hlen|]. intros j. rewrite Hget.
  destruct (Z.ltb_spec j lim), (Z.ltb_spec j (lim + 1)); try lia;
    try reflexivity.
  replace j with lim by lia. symmetry. exact Hnone.
Qed.

Lemma decodedUpTo_place b B lim p :
  decodedUpTo b B lim -> 0 <= lim < 64 -> getSq b lim = Some p ->
  decodedUpTo b (setSq B lim (Some p)) (lim + 1).
Proof.
  intros [Hlen Hget] Hlim Hp. split; [b64|]. intros j. bget. rewrite Hget.
  destruct (Z.eqb_spec j lim) as [->|];
    repeat match goal with
           | |- context [?a <? ?c] => destruct (Z.ltb_spec a c)
           end; try lia; try reflexivity.
  symmetry. exact Hp.
Qed.

Lemma row_round_trip b r :
  (forall i q, getSq b i = Some q -> In (type q) pieceLetters) ->
  0 <= r < 8 ->
  forall n k e B,
    (k + n = 8)%nat -> 0 <= e <= Z.of_nat k ->
    decodedUpTo b B (r * 8 + Z.of_nat k) ->
    decodedUpTo b
      (decodeRow (encodeRow b r (map Z.of_nat (seq k n)) EmptyString e)
                 r (Z.of_nat k - e) B)
      (r * 8 + 8).
Proof.
  intros Hty Hr.
  induction n as [|n IH]; intros k e B Hkn He Hdec.
  - cbn [seq map encodeRow].
    replace (r * 8 + 8) with (r * 8 + Z.of_nat k) by lia.
    destruct (Z.eqb_spec e 0); [exact Hdec|].
    rewrite toString_digit by lia. cbn [String.append decodeRow].
    destruct (digitChar_spec e ltac:(lia)) as (-> & _). exact Hdec.
  - cbn [seq map encodeRow].
    destruct (getSq b (r * 8 + Z.of_nat k)) as [p|] eqn:Hp.
    + rewrite encodeRow_acc.
      destruct (pieceChar_spec p (Hty _ _ Hp)) as (Hnd & Hcol & Hlow & _).
      assert (Hp' : mkPiece (Js.toLowerCase (pieceChar p))
                      (if Ascii.eqb (pieceChar p) (Js.toUpperCase (pieceChar p))
                       then W else Engine.B) = p).
      { rewrite Hcol, Hlow. destruct p; reflexivity. }
      assert (Hnext : decodedUpTo b (setSq B (r * 8 + Z.of_nat k) (Some p))
                                  (r * 8 + Z.of_nat (S k))).
      { replace (r * 8 + Z.of_nat (S k)) with (r * 8 + Z.of_nat k + 1) by lia.
        apply decodedUpTo_place; [exact Hdec|lia|exact Hp]. }
      specialize (IH (S k) 0 _ ltac:(lia) ltac:(lia) Hnext).
      rewrite Z.sub_0_r in IH.
      destruct (Z.eqb_spec e 0) as [->|Hne].
      * cbn [String.append decodeRow]. rewrite Hnd, Hp'.
        rewrite Z.sub_0_r.
        replace (Z.of_nat k + 1) with (Z.of_nat (S k)) by lia. exact IH.
      * rewrite toString_digit by lia. cbn [String.append decodeRow].
        destruct (digitChar_spec e ltac:(lia)) as (-> & -> & _).
        rewrite Hnd, Hp'.
        replace (Z.of_nat k - e + e) with (Z.of_nat k) by lia.
        replace (Z.of_nat k + 1) with (Z.of_nat (S k)) by lia. exact IH.
    + replace (Z.of_nat k - e) with (Z.of_nat (S k) - (e + 1)) by lia.
      apply IH; [lia|lia|].
      replace (r * 8 + Z.of_nat (S k)) with (r * 8 + Z.of_nat k + 1) by lia.
      apply decodedUpTo_skip; assumption.
Qed.

Lemma row_decoded b r B :
  (forall i q, getSq b i = Some q -> In (type q) pieceLetters) ->
  0 <= r < 8 ->
  decodedUpTo b B (r * 8) ->
  decodedUpTo b (decodeRow (encodeRow b r files EmptyString 0) r 0 B)
              ((r + 1) * 8).
Proof.
  intros Hty Hr Hdec.
  replace ((r + 1) * 8) with (r * 8 + 8) by lia.
  apply (row_round_trip b r Hty Hr 8%nat 0%nat 0 B); [reflexivity|cbn; lia|].
  replace (r * 8 + Z.of_nat 0) with (r * 8) by (cbn; lia). exact Hdec.
Qed.

Lemma decoded_all b D :
  length b = 64%nat -> decodedUpTo b D 64 -> D = b.
Proof.
  intros Hb [Hlen Hget]. apply board_ext; [congruence|].
  intros i Hi. rewrite Hget.
  destruct (Z.ltb_spec i 64); [reflexivity|lia].
Qed.

Lemma empty_decoded b : decodedUpTo b makeEmptyBoard 0.
Proof.
  split; [reflexivity|]. intros j.
  destruct (Z.ltb_spec j 0) as [Hneg|Hpos].
  - unfold getSq. destruct (Z.ltb_spec j 0); [|lia].
    destruct (Z.ltb_spec j 0); [reflexivity|lia].
  - destruct (getSq makeEmptyBoard j) as [p|] eqn:Hp; [|reflexivity].
    exfalso. revert Hp. unfold getSq, makeEmptyBoard.
    destruct (j <? 0); [discriminate|].
    destruct (_ !! Z.to_nat j) as [v|] eqn:Hl; [|discriminate].
    apply lookup_replicate in Hl. destruct Hl as [-> _]. discriminate.
Qed.

Lemma pieceChar_clean b :
  (forall i q, getSq b i = Some q -> In (type q) pieceLetters) ->
  (forall i q, getSq b i = Some q -> Ascii.eqb (pieceChar q) " " = false) /\
  (forall i q, getSq b i = Some q -> Ascii.eqb (pieceChar q) "/" = false).
Proof.
  intros Hty. split; intros i q Hq;
    destruct (pieceChar_spec q (Hty _ _ Hq)) as (_ & _ & _ & Hsp & Hsl);
    assumption.
Qed.

Lemma digit_no_space d : 0 <= d <= 9 -> Ascii.eqb (Js.digitChar d) " " = false.
Proof. intros Hd. apply (digitChar_spec d Hd). Qed.

Lemma digit_no_slash d : 0 <= d <= 9 -> Ascii.eqb (Js.digitChar d) "/" = false.
Proof. intros Hd. apply (digitChar_spec d Hd). Qed.

Lemma boardText_no_space b :
  (forall i q, getSq b i = Some q -> In (type q) pieceLetters) ->
  Js.includes (boardText b) " " = false.
Proof.
  intros Hty. destruct (pieceChar_clean b Hty) as [Hsp _].
  unfold boardText. cbn [map Js.join].
  rewrite !includes_app.
  rewrite !(encodeRow_clean b _ " " files Hsp digit_no_space 0) by lia.
  reflexivity.
Qed.

Lemma boardText_decoded b :
  length b = 64%nat ->
  (forall i q, getSq b i = Some q -> In (type q) pieceLetters) ->
  decodeRows ranks (Js.split "/" (boardText b)) makeEmptyBoard = Js.Ok b.
Proof.
  intros Hlen Hty. destruct (pieceChar_clean b Hty) as [_ Hsl].
  unfold boardText. cbn [map Js.join].
  pose proof (fun r => encodeRow_clean b r "/" files Hsl digit_no_slash 0
                                       ltac:(lia)) as Hclean.
  set (row := fun r => encodeRow b r files EmptyString 0) in *.
  change (encodeRow b 7 files EmptyString 0) with (row 7).
  change (encodeRow b 6 files EmptyString 0) with (row 6).
  change (encodeRow b 5 files EmptyString 0) with (row 5).
  change (encodeRow b 4 files EmptyString 0) with (row 4).
  change (encodeRow b 3 files EmptyString 0) with (row 3).
  change (encodeRow b 2 files EmptyString 0) with (row 2).
  change (encodeRow b 1 files EmptyString 0) with (row 1).
  change (encodeRow b 0 files EmptyString 0) with (row 0).
  change ("/" ++ ?x)%string with (String "/" x).
  cbn [String.append].
  repeat (rewrite split_cons by apply Hclean).
  rewrite split_last by apply Hclean.
  unfold ranks. cbn [decodeRows].
  change (Z.to_nat (7 - 0)) with 7%nat. change (Z.to_nat (7 - 1)) with 6%nat.
  change (Z.to_nat (7 - 2)) with 5%nat. change (Z.to_nat (7 - 3)) with 4%nat.
  change (Z.to_nat (7 - 4)) with 3%nat. change (Z.to_nat (7 - 5)) with 2%nat.
  change (Z.to_nat (7 - 6)) with 1%nat. change (Z.to_nat (7 - 7)) with 0%nat.
  cbn [lookup list_lookup]. f_equal.
  apply decoded_all; [exact Hlen|].
  subst row. cbv beta.
  apply (row_decoded b 7 _ Hty ltac:(lia)).
  apply (row_decoded b 6 _ Hty ltac:(lia)).
  apply (row_decoded b 5 _ Hty ltac:(lia)).
  apply (row_decoded b 4 _ Hty ltac:(lia)).
  apply (row_decoded b 3 _ Hty ltac:(lia)).
  apply (row_decoded b 2 _ Hty ltac:(lia)).
  apply (row_decoded b 1 _ Hty ltac:(lia)).
  apply (row_decoded b 0 _ Hty ltac:(lia)).
  apply empty_decoded.
Qed.

Lemma squares_In e : 0 <= e < 64 -> In e squares.
Proof.
  intros He. unfold squares. apply in_map_iff. exists (Z.to_nat e).
  split; [lia|]. apply in_seq. lia.
Qed.

Lemma algebraic_round_trip e :
  0 <= e < 64 ->
  Js.includes (squareToAlgebraic e) " " = false /\
  String.eqb (squareToAlgebraic e) "-" = false /\
  algebraicToSquare (squareToAlgebraic e) = Some e.
Proof.
  intros He.
  assert (Hall : forallb (fun e =>
    negb (Js.includes (squareToAlgebraic e) " ")
    && negb (String.eqb (squareToAlgebraic e) "-")
    && match algebraicToSquare (squareToAlgebraic e) with
       | Some x => x =? e
       | None => false
       end) squares = true) by (vm_compute; reflexivity).
  rewrite forallb_forall in Hall. specialize (Hall e (squares_In e He)).
  apply andb_true_iff in Hall. destruct Hall as [Hall H3].
  apply andb_true_iff in Hall. destruct Hall as [H1 H2].
  apply negb_true_iff in H1, H2.
  destruct (algebraicToSquare (squareToAlgebraic e)) as [x|]; [|discriminate].
  apply Z.eqb_eq in H3. subst x. auto.
Qed.

Lemma castleText_spec c :
  Js.includes (castleText c) " " = false /\
  mkCastling (Js.includes (castleText c) "K") (Js.includes (castleText c) "Q")
             (Js.includes (castleText c) "k") (Js.includes (castleText c) "q")
  = c.
Proof. destruct c as [[] [] [] []]; vm_compute; auto. Qed.

Lemma printable_round_trip gs :
  printable gs ->
  fenToGameState (gameStateToFEN gs) = Js.Ok (withoutHistory gs).
Proof.
  intros [Hlen Hty Hep Hhm Hfm].
  unfold gameStateToFEN. cbv zeta.
  change (Js.join "/" _) with (boardText (board gs)).
  change (if String.eqb _ "" then "-"%string else _) with (castleText (castling gs)).
  set (epText := match enPassant gs with
                 | Some sq => squareToAlgebraic sq
                 | None => "-"%string
                 end).
  set (turnText := (match turn gs with W => "w" | B => "b" end)%string).
  assert (Hepsp : Js.includes epText " " = false).
  { subst epText. destruct (enPassant gs) as [e|]; [|reflexivity].
    apply (algebraic_round_trip e (Hep e eq_refl)). }
  assert (Hturnsp : Js.includes turnText " " = false).
  { subst turnText. destruct (turn gs); reflexivity. }
  destruct (castleText_spec (castling gs)) as [Hcsp Hcastle].
  cbn [String.append]. unfold fenToGameState.
  rewrite (split_cons " " (boardText (board gs)))
    by (apply boardText_no_space; exact Hty).
  rewrite (split_cons " " turnText) by exact Hturnsp.
  rewrite (split_cons " " (castleText (castling gs))) by exact Hcsp.
  rewrite (split_cons " " epText) by exact Hepsp.
  rewrite (split_cons " " (Js.toString (halfmoveClock gs)))
    by (apply toString_no_space; apply Hhm).
  rewrite (split_last " " (Js.toString (fullmoveNumber gs)))
    by (apply toString_no_space; apply Hfm).
  rewrite (boardText_decoded (board gs) Hlen Hty). cbn [Js.bind].
  assert (Hepdec : (if String.eqb epText "-" then Js.Ok None
                    else fromModel (option_map Some (algebraicToSquare epText)))
                   = Js.Ok (enPassant gs)).
  { subst epText. destruct (enPassant gs) as [e|]; [|reflexivity].
    destruct (algebraic_round_trip e (Hep e eq_refl)) as (_ & -> & ->).
    reflexivity. }
  rewrite Hepdec. cbn [Js.bind lookup list_lookup].
  rewrite (numberOr_toString _ 0 Hhm), (numberOr_toString _ 1 Hfm).
  cbn [fromModel Js.bind]. rewrite Hcastle.
  unfold withoutHistory. subst turnText.
  destruct (turn gs); reflexivity.
Qed.

(** C4: the initial FEN string survives decoding and re-encoding, and
    every position of a game, printed and decoded again, gives the same
    board, side to move, castling rights, en-passant target and clocks
    (the history is not part of FEN and comes back empty). *)
Theorem fen_round_trip (gs : GameState) :
  reachable gs ->
  (exists gs0, fenToGameState initialFEN = Js.Ok gs0 /\
               gameStateToFEN gs0 = initialFEN) /\
  fenToGameState (gameStateToFEN gs) = Js.Ok (withoutHistory gs).
Proof.
  intros Hreach. split.
  - exists startPosition. split; [apply fenToGameState_initial|].
    vm_compute. reflexivity.
  - apply printable_round_trip, reachable_printable. exact Hreach.
Qed.

Lemma fen_round_trip_witness :
  let m := mkMove 12 28 (mkPiece "p"%char W) None None false false in
  let gs := fst (makeMove startPosition m) in
  reachable gs /\
  gameStateToFEN gs
  = "rnbqkbnr/pppppppp/8/8/4P3/8/PPPP1PPP/RNBQKBNR b KQkq e3 0 1"%string /\
  (exists gs0, fenToGameState initialFEN = Js.Ok gs0 /\
               gameStateToFEN gs0 = initialFEN) /\
  fenToGameState (gameStateToFEN gs) = Js.Ok (withoutHistory gs).
Proof.
  intros m gs.
  assert (Hreach : reachable gs).
  { apply reach_move; [apply reach_start|].
    vm_compute. do 13 right. left. reflexivity. }
  split; [exact Hreach|]. split; [vm_compute; reflexivity|].
  apply (fen_round_trip gs Hreach).
Defined.

End EngineProofs.

(** ** The search *)

Module AiWorkerProofs.
Import Engine AiWorker.

(** C2, evaluated where it fails: White (king h1) has the legal move Kg1,
    Black then mates with the queen, so at depth 2, and at the user
    interface's default depth 3, every root value is [-Infinity], the
    strict test [val > bestValue] never holds and the search posts [null].
    At depth 1 the same position yields the move. *)
Theorem search_posts_null_despite_legal_move :
  exists gs,
    fenToGameState cornered = Js.Ok gs /\
    turn gs = W /\
    map (fun m => (from m, to m)) (generateLegalMoves gs) = [(7, 6)] /\
    onmessage cornered 2 W = Js.Ok None /\
    onmessage cornered 3 W = Js.Ok None /\
    option_map (fun m => (from m, to m))
      match onmessage cornered 1 W with Js.Ok r => r | _ => None end
    = Some (7, 6).
Proof.
  eexists. split; [vm_compute; reflexivity|].
  vm_compute. repeat split; reflexivity.
Qed.

(** What does hold of the root loop: with no legal move it posts [null],
    and a move it posts is one of the legal moves. *)
Lemma rootLoop_choice gs depth isMaximizing :
  forall moves best bestValue m,
    rootLoop gs depth isMaximizing moves best bestValue = Some m ->
    best = Some m \/
    exists m0, In m0 moves /\ m = snd (makeMove gs m0).
Proof.
  induction moves as [|mv rest IH]; intros best bestValue m Hm;
    cbn [rootLoop] in Hm; [left; exact Hm|].
  destruct (makeMove gs mv) as [tempState mv'] eqn:Hmake.
  assert (Hmv : mv' = snd (makeMove gs mv)) by (rewrite Hmake; reflexivity).
  cbv zeta in Hm.
  set (val := fst (minimax (Nat.pred depth) tempState NegInf PosInf
                           (negb isMaximizing))) in Hm.
  destruct isMaximizing;
    match type of Hm with
    | (if ?c then _ else _) = _ => destruct c
    end;
    apply IH in Hm; destruct Hm as [Hm|[m0 [Hin Hm]]].
  all: try (right; exists m0; split; [right; exact Hin|exact Hm]).
  all: try (left; exact Hm).
  all: injection Hm as <-; right; exists mv; split;
    [left; reflexivity|exact Hmv].
Qed.

Lemma onmessage_no_moves fen depth c gs :
  fenToGameState fen = Js.Ok gs -> generateLegalMoves gs = [] ->
  onmessage fen depth c = Js.Ok None.
Proof.
  intros Hgs Hnone. unfold onmessage. rewrite Hgs. cbn [Js.bind].
  rewrite Hnone. reflexivity.
Qed.

Lemma onmessage_sound fen depth c m :
  onmessage fen depth c = Js.Ok (Some m) ->
  exists gs, fenToGameState fen = Js.Ok gs /\ In m (generateLegalMoves gs).
Proof.
  unfold onmessage. intros H.
  destruct (fenToGameState fen) as [gs| | |]; cbn [Js.bind] in H;
    try discriminate.
  exists gs. split; [reflexivity|].
  destruct (generateLegalMoves gs) as [|mv rest] eqn:Hlegal; [discriminate|].
  match type of H with
  | Js.Ok ?r = _ => remember r as posted eqn:Hposted
  end.
  injection H as ->. symmetry in Hposted.
  apply rootLoop_choice in Hposted.
  destruct Hposted as [H|[m0 [Hin ->]]]; [discriminate|].
  rewrite <- Hlegal in Hin.
  destruct (EngineProofs.legal_from_pseudo gs m0 Hin) as [m1 [_ Hm1]].
  rewrite Hm1, EngineProofs.makeMove_again, <- Hm1, <- Hlegal. exact Hin.
Qed.

End AiWorkerProofs.

(** ** Check detection in both engines *)

Module CheckProofs.

Lemma find_all_false {A} (f : A -> bool) (l : list A) :
  (forall a, In a l -> f a = false) -> find f l = None.
Proof.
  induction l as [|a l IH]; intros H; simpl; [reflexivity|].
  rewrite (H a (or_introl eq_refl)). apply IH.
  intros b Hb. apply H. right. exact Hb.
Qed.

Lemma engine_noKing_find gs c :
  Engine.noKing gs c -> Engine.findKingSquare gs c = None.
Proof.
  intros Hno. unfold Engine.findKingSquare. apply find_all_false.
  intros sq _. unfold Engine.isPieceAt.
  destruct (Engine.getSq (Engine.board gs) sq) as [p|] eqn:Hp; [|reflexivity].
  destruct (Ascii.eqb (Engine.type p) "k") eqn:Hk; [|reflexivity].
  apply Ascii.eqb_eq in Hk. specialize (Hno sq p Hp Hk).
  destruct (Engine.color p), c; simpl; congruence.
Qed.

Lemma coords_valid pos : In pos Server.coords -> Server.isValidPos pos = true.
Proof.
  intros Hin.
  assert (Hall : forallb Server.isValidPos Server.coords = true) by reflexivity.
  rewrite forallb_forall in Hall. apply Hall. exact Hin.
Qed.

(** On a board that has its eight rows, reading a square of the board
    does not raise. *)
Lemma at_valid st pos :
  Server.hasRows st -> Server.isValidPos pos = true ->
  exists sq, Server.at_ st pos = Js.Ok sq.
Proof.
  intros Hrows Hpos. unfold Server.isValidPos in Hpos.
  apply andb_true_iff in Hpos. destruct Hpos as [Hpos Hy8].
  apply andb_true_iff in Hpos. destruct Hpos as [Hpos Hy0].
  unfold Server.at_, Server.getXY.
  destruct (Z.ltb_spec (Server.y pos) 0); [lia|].
  destruct (lookup_lt_is_Some_2 (Server.board st) (Z.to_nat (Server.y pos)))
    as [row ->]; [unfold Server.hasRows in Hrows; lia|].
  destruct (Server.x pos <? 0); eexists; reflexivity.
Qed.

Lemma findM_all_false {A} (f : A -> Js.Outcome bool) (l : list A) :
  (forall a, In a l -> f a = Js.Ok false) -> Js.findM f l = Js.Ok None.
Proof.
  induction l as [|a l IH]; intros H; cbn [Js.findM]; [reflexivity|].
  rewrite (H a (or_introl eq_refl)). cbn [Js.bind]. apply IH.
  intros b Hb. apply H. right. exact Hb.
Qed.

Lemma server_noKing_find st c :
  Server.hasRows st -> Server.noKing st c ->
  Server.findKing st c = Js.Ok None.
Proof.
  intros Hrows Hno. unfold Server.findKing. apply findM_all_false.
  intros pos Hin. unfold Server.isPieceAt.
  destruct (at_valid st pos Hrows (coords_valid pos Hin)) as [sq Hsq].
  rewrite Hsq. cbn [Js.bind]. destruct sq as [p|]; [|reflexivity].
  destruct (Server.type p) eqn:Hk;
    try (rewrite andb_false_r; reflexivity).
  specialize (Hno pos p Hsq Hk).
  destruct (Server.color p), c; simpl; congruence.
Qed.

(** C9 as the code has it: with no king of the queried colour on the
    board neither engine fails; [inCheck] answers [false] and, on a board
    that has its eight rows, [isKingInCheck] answers [true]. *)
Theorem missing_king_answers
        (gs : Engine.GameState) (c : Engine.Color)
        (st : Server.ChessGameState) (c' : Server.ChessColor) :
  Engine.noKing gs c -> Server.noKing st c' -> Server.hasRows st ->
  Engine.inCheck gs c = false /\ Server.isKingInCheck st c' = Js.Ok true.
Proof.
  intros Hg Hs Hrows. split.
  - unfold Engine.inCheck. rewrite (engine_noKing_find gs c Hg). reflexivity.
  - unfold Server.isKingInCheck. rewrite (server_noKing_find st c' Hrows Hs).
    reflexivity.
Qed.

(** Without its rows the board cannot be searched for the king: the first
    read raises. *)
Lemma isKingInCheck_rowless c :
  Server.noKing Server.rowlessState c /\
  Server.isKingInCheck Server.rowlessState c = Js.ThrowTypeError.
Proof.
  split; [|reflexivity].
  intros pos p Hp _. exfalso. revert Hp.
  unfold Server.at_, Server.getXY. cbn [Server.board Server.rowlessState].
  destruct (Server.y pos <? 0); [discriminate|].
  rewrite lookup_nil. discriminate.
Qed.

Lemma engine_empty_noKing c : Engine.noKing Engine.emptyPosition c.
Proof.
  intros sq p Hp _. exfalso. revert Hp.
  unfold Engine.getSq.
  change (Engine.board Engine.emptyPosition)
    with (replicate 64%nat (@None Engine.Piece)).
  destruct (sq <? 0); [discriminate|].
  destruct (_ !! Z.to_nat sq) as [v|] eqn:Hl; [|discriminate].
  apply lookup_replicate in Hl. destruct Hl as [-> _]. discriminate.
Qed.

Lemma server_empty_noKing c : Server.noKing Server.emptyState c.
Proof.
  intros pos p Hp _. exfalso. revert Hp.
  unfold Server.at_, Server.getXY.
  change (Server.board Server.emptyState)
    with (replicate 8%nat (replicate 8%nat (@None Server.ChessPiece))).
  destruct (Server.y pos <? 0); [discriminate|].
  destruct (_ !! Z.to_nat (Server.y pos)) as [row|] eqn:Hr; [|discriminate].
  apply lookup_replicate in Hr. destruct Hr as [-> _].
  destruct (Server.x pos <? 0); [discriminate|].
  destruct (_ !! Z.to_nat (Server.x pos)) as [v|] eqn:Hl; [|discriminate].
  apply lookup_replicate in Hl. destruct Hl as [-> _]. discriminate.
Qed.

Lemma server_empty_rows : Server.hasRows Server.emptyState.
Proof. unfold Server.hasRows. cbn. lia. Qed.

Lemma missing_king_answers_witness :
  Engine.noKing Engine.emptyPosition Engine.W /\
  Server.noKing Server.emptyState Server.white /\
  Server.hasRows Server.emptyState /\
  Engine.inCheck Engine.emptyPosition Engine.W = false /\
  Server.isKingInCheck Server.emptyState Server.white = Js.Ok true.
Proof.
  split; [apply engine_empty_noKing|].
  split; [apply server_empty_noKing|].
  split; [apply server_empty_rows|].
  apply (missing_king_answers Engine.emptyPosition Engine.W
                              Server.emptyState Server.white).
  - apply engine_empty_noKing.
  - apply server_empty_noKing.
  - apply server_empty_rows.
Defined.

(** C9 as stated fails: on an empty board both calls return an ordinary
    boolean. *)
Lemma missing_king_returns_boolean :
  Engine.fenToGameState "8/8/8/8/8/8/8/8 w - - 0 1"
  = Js.Ok Engine.emptyPosition /\
  Engine.findKingSquare Engine.emptyPosition Engine.W = None /\
  Engine.inCheck Engine.emptyPosition Engine.W = false /\
  Server.findKing Server.emptyState Server.white = Js.Ok None /\
  Server.isKingInCheck Server.emptyState Server.white = Js.Ok true.
Proof. vm_compute. repeat split; reflexivity. Qed.

End CheckProofs.

(** ** The server's game state machine *)

Module ServerProofs.
Import Server.

(** Case analysis on the outcome of the first call of a sequence. *)
Ltac bind_cases H :=
  repeat match type of H with
         | Js.bind ?c _ = _ =>
             let E := fresh "E" in
             destruct c eqn:E; cbn [Js.bind] in H; try discriminate
         end.

Lemma makeMove_failure st pid f t promo r :
  makeMove st pid f t promo = Js.Ok r -> success r = false ->
  gameState r = None /\ exists e, error r = Some e /\ In e rejections.
Proof.
  unfold makeMove, rejections. intros H Hs.
  repeat match type of H with
         | (if ?c then _ else _) = _ => destruct c
         end;
    try (injection H as <-; simpl; split; [reflexivity|];
         eexists; split; [reflexivity|]; simpl; tauto).
  bind_cases H.
  destruct (find (matches f t promo) _) as [mv|].
  - bind_cases H. injection H as <-. simpl in Hs. discriminate.
  - injection H as <-. simpl. split; [reflexivity|].
    eexists; split; [reflexivity|]; simpl; tauto.
Qed.

(** *** What a call does to the store *)

Lemma keeps_refl n h : Store.keeps n h h.
Proof. split; [lia|reflexivity]. Qed.

Lemma keeps_trans n h1 h2 h3 :
  Store.keeps n h1 h2 -> Store.keeps n h2 h3 -> Store.keeps n h1 h3.
Proof.
  intros [Hl1 H1] [Hl2 H2]. split; [lia|].
  intros l Hl. rewrite H2, H1 by exact Hl. reflexivity.
Qed.

Lemma keeps_le m n h h' : (m <= n)%nat -> Store.keeps n h h' -> Store.keeps m h h'.
Proof. intros Hmn [Hl H]. split; [exact Hl|]. intros l Hlt. apply H. lia. Qed.

Lemma keeps_alloc n h st : (n <= length h)%nat -> Store.keeps n h (h ++ [st]).
Proof.
  intros Hn. split; [rewrite length_app; simpl; lia|].
  intros l Hl. apply lookup_app_l. lia.
Qed.

Lemma keeps_update n h r v : (n <= r)%nat -> Store.keeps n h (<[r := v]> h).
Proof.
  intros Hn. split; [rewrite length_insert; lia|].
  intros l Hl. apply list_lookup_insert_ne. lia.
Qed.

Lemma keeps_lookup n h h' l o :
  Store.keeps n h h' -> (l < n)%nat -> h !! l = Some o -> h' !! l = Some o.
Proof. intros [_ H] Hl Ho. rewrite H by exact Hl. exact Ho. Qed.

Lemma deref_run h r st : h !! r = Some st -> Store.deref r h = (Js.Ok st, h).
Proof. intros Hr. unfold Store.deref. rewrite Hr. reflexivity. Qed.

Lemma update_run h r st f :
  h !! r = Some st -> Store.update r f h = (Js.Ok tt, <[r := f st]> h).
Proof. intros Hr. unfold Store.update. rewrite Hr. reflexivity. Qed.

Lemma applyMove_run h g st mv tm :
  h !! g = Some st ->
  Store.applyMove g mv tm h =
  match Server.applyMove st mv tm with
  | Js.Ok ns => (Js.Ok (length h), h ++ [ns])
  | Js.ThrowError msg => (Js.ThrowError msg, h)
  | Js.ThrowTypeError => (Js.ThrowTypeError, h)
  | Js.Unmodelled => (Js.Unmodelled, h)
  end.
Proof.
  intros Hg. unfold Store.applyMove, Store.bind. rewrite (deref_run h g st Hg).
  unfold Store.lift, Store.alloc.
  destruct (Server.applyMove st mv tm); reflexivity.
Qed.

Lemma isKingInCheck_run h r st c :
  h !! r = Some st ->
  Store.isKingInCheck r c h = (Server.isKingInCheck st c, h).
Proof.
  intros Hr. unfold Store.isKingInCheck, Store.bind.
  rewrite (deref_run h r st Hr). unfold Store.lift.
  destruct (Server.isKingInCheck st c); reflexivity.
Qed.

Lemma lookup_new {A} (h : list A) (v : A) : (h ++ [v]) !! length h = Some v.
Proof.
  rewrite lookup_app_r by lia. rewrite Nat.sub_diag. reflexivity.
Qed.

Lemma filterLegal_run g st ms :
  forall h, h !! g = Some st ->
  exists h', Store.filterLegal g ms h = (Server.filterLegal st ms, h') /\
             Store.keeps (length h) h h'.
Proof.
  induction ms as [|mv rest IH]; intros h Hg.
  - exists h. split; [reflexivity|apply keeps_refl].
  - pose proof (lookup_lt_Some _ _ _ Hg) as Hlt.
    cbn [Store.filterLegal Server.filterLegal]. unfold Store.bind at 1.
    rewrite (applyMove_run h g st mv true Hg).
    destruct (Server.applyMove st mv true) as [ts|msg| |];
      cbn [Js.bind];
      try (eexists; split; [reflexivity|apply keeps_refl]).
    assert (Hg1 : (h ++ [ts]) !! g = Some st)
      by (rewrite lookup_app_l by lia; exact Hg).
    unfold Store.bind at 1. rewrite (deref_run _ g st Hg1).
    unfold Store.bind at 1.
    rewrite (isKingInCheck_run _ _ ts _ (lookup_new h ts)).
    destruct (Server.isKingInCheck ts (sideToMove st)) as [b|msg| |];
      cbn [Js.bind];
      try (eexists; split; [reflexivity|apply keeps_alloc; lia]).
    destruct (IH (h ++ [ts]) Hg1) as [h' [Hrun Hkeep]].
    unfold Store.bind at 1. rewrite Hrun.
    assert (Hk : Store.keeps (length h) h h').
    { apply (keeps_trans _ _ (h ++ [ts])); [apply keeps_alloc; lia|].
      apply (keeps_le _ (length (h ++ [ts]))); [|exact Hkeep].
      rewrite length_app. lia. }
    exists h'. split; [|exact Hk].
    destruct (Server.filterLegal st rest); reflexivity.
Qed.

Lemma getLegalMoves_run g st h :
  h !! g = Some st ->
  exists h', Store.getLegalMoves g h = (Server.getLegalMoves st, h') /\
             Store.keeps (length h) h h'.
Proof.
  intros Hg. unfold Store.getLegalMoves, Server.getLegalMoves.
  unfold Store.bind at 1. rewrite (deref_run h g st Hg).
  unfold Store.bind at 1. unfold Store.lift.
  destruct (generatePseudoMoves st (sideToMove st)) as [ms|msg| |];
    cbn [Js.bind];
    try (eexists; split; [reflexivity|apply keeps_refl]).
  apply filterLegal_run. exact Hg.
Qed.


Lemma reject_refines n h msg :
  Store.refines n h (Js.Ok (Store.reject msg)) (Js.Ok (Server.reject msg)).
Proof.
  eexists. split; [reflexivity|]. repeat split.
Qed.

(** The call on the store returns what the function of the state's value
    returns, the new state in a new object, and leaves every object that
    was there as it was. *)
Lemma makeMove_run g st pid f t promo h :
  h !! g = Some st ->
  exists o' h',
    Store.makeMove g pid f t promo h = (o', h') /\
    Store.keeps (length h) h h' /\
    Store.refines (length h) h' o' (Server.makeMove st pid f t promo).
Proof.
  intros Hg. pose proof (lookup_lt_Some _ _ _ Hg) as Hlt.
  unfold Store.makeMove, Server.makeMove.
  unfold Store.bind at 1. rewrite (deref_run h g st Hg).
  destruct (gameOver st);
    [do 2 eexists; split; [reflexivity|];
     split; [apply keeps_refl|apply reject_refines]|].
  destruct (negb _ && negb _);
    [do 2 eexists; split; [reflexivity|];
     split; [apply keeps_refl|apply reject_refines]|].
  destruct (_ && negb (ChessColor_eqb (sideToMove st) white));
    [do 2 eexists; split; [reflexivity|];
     split; [apply keeps_refl|apply reject_refines]|].
  destruct (_ && negb (ChessColor_eqb (sideToMove st) black));
    [do 2 eexists; split; [reflexivity|];
     split; [apply keeps_refl|apply reject_refines]|].
  destruct (getLegalMoves_run g st h Hg) as [h1 [Hrun1 Hk1]].
  unfold Store.bind at 1. rewrite Hrun1.
  destruct (Server.getLegalMoves st) as [legal|msg| |]; cbn [Js.bind];
    try (do 2 eexists; split; [reflexivity|];
         split; [exact Hk1|reflexivity]).
  destruct (find (matches f t promo) legal) as [mv|];
    [|do 2 eexists; split; [reflexivity|];
      split; [exact Hk1|apply reject_refines]].
  assert (Hg1 : h1 !! g = Some st) by (apply (keeps_lookup _ _ _ _ _ Hk1 Hlt Hg)).
  pose proof (proj1 Hk1) as Hlen1.
  unfold Store.bind at 1. rewrite (applyMove_run h1 g st mv false Hg1).
  destruct (Server.applyMove st mv false) as [ns|msg| |]; cbn [Js.bind];
    try (do 2 eexists; split; [reflexivity|];
         split; [exact Hk1|reflexivity]).
  set (n := length h1).
  assert (Hk2 : Store.keeps (length h) h (h1 ++ [ns])).
  { apply (keeps_trans _ _ h1); [exact Hk1|apply keeps_alloc; lia]. }
  destruct (getLegalMoves_run n ns (h1 ++ [ns]) (lookup_new h1 ns))
    as [h3 [Hrun3 Hk3]].
  unfold Store.bind at 1. rewrite Hrun3.
  assert (Hlen3 : (n < length h3)%nat).
  { destruct Hk3 as [Hl _]. rewrite length_app in Hl. simpl in Hl.
    subst n. lia. }
  assert (Hn3 : h3 !! n = Some ns).
  { apply (keeps_lookup _ _ _ _ _ Hk3); [|apply lookup_new].
    rewrite length_app. simpl. subst n. lia. }
  assert (Hk3' : Store.keeps (length h) h h3).
  { apply (keeps_trans _ _ (h1 ++ [ns])); [exact Hk2|].
    apply (keeps_le _ (length (h1 ++ [ns]))); [|exact Hk3].
    rewrite length_app. lia. }
  destruct (Server.getLegalMoves ns) as [nl|msg| |]; cbn [Js.bind];
    try (do 2 eexists; split; [reflexivity|];
         split; [exact Hk3'|reflexivity]).
  unfold Store.bind at 1. rewrite (deref_run h3 n ns Hn3).
  unfold Store.bind at 1. rewrite (isKingInCheck_run h3 n ns _ Hn3).
  destruct (Server.isKingInCheck ns (sideToMove ns)) as [isCheck|msg| |];
    cbn [Js.bind];
    try (do 2 eexists; split; [reflexivity|];
         split; [exact Hk3'|reflexivity]).
  unfold Store.bind at 1. rewrite (update_run h3 n ns _ Hn3).
  set (ns1 := setFlags ns (gameOver ns) (winner ns) isCheck (checkmate ns)
                       (stalemate ns) (draw ns)).
  set (h4 := <[n := ns1]> h3).
  assert (Hk4 : Store.keeps (length h) h h4).
  { apply (keeps_trans _ _ h3); [exact Hk3'|].
    apply keeps_update. subst n. lia. }
  assert (Hg4 : h4 !! g = Some st)
    by (apply (keeps_lookup _ _ _ _ _ Hk4 Hlt Hg)).
  assert (Hn4 : h4 !! n = Some ns1)
    by (apply list_lookup_insert_eq; exact Hlen3).
  unfold Store.bind at 1. rewrite (deref_run h4 g st Hg4).
  unfold Store.bind at 1. rewrite (deref_run h4 n ns1 Hn4).
  unfold Store.bind at 1. unfold Store.lift at 1.
  destruct (endOfGame st ns1 nl isCheck) as [ended|msg| |]; cbn [Js.bind];
    try (do 2 eexists; split; [reflexivity|];
         split; [exact Hk4|reflexivity]).
  unfold Store.bind at 1. rewrite (update_run h4 n ns1 _ Hn4).
  set (h5 := <[n := ended]> h4).
  assert (Hlen4 : (n < length h4)%nat)
    by (subst h4; rewrite length_insert; exact Hlen3).
  assert (Hk5 : Store.keeps (length h) h h5).
  { apply (keeps_trans _ _ h4); [exact Hk4|].
    apply keeps_update. subst n. lia. }
  assert (Hn5 : h5 !! n = Some ended)
    by (apply list_lookup_insert_eq; exact Hlen4).
  unfold Store.bind at 1. rewrite (deref_run h5 n ended Hn5).
  unfold Store.bind at 1. unfold Store.lift at 1.
  destruct (generateFen ended) as [newFen|msg| |]; cbn [Js.bind];
    try (do 2 eexists; split; [reflexivity|];
         split; [exact Hk5|reflexivity]).
  unfold Store.bind at 1. rewrite (update_run h5 n ended _ Hn5).
  assert (Hlen5 : (n < length h5)%nat)
    by (subst h5; rewrite length_insert; exact Hlen4).
  do 2 eexists. split; [reflexivity|]. split.
  - apply (keeps_trans _ _ h5); [exact Hk5|].
    apply keeps_update. subst n. lia.
  - eexists. split; [reflexivity|]. split; [reflexivity|].
    split; [reflexivity|]. cbn [Server.gameState Store.gameState].
    exists n. split; [reflexivity|]. split; [subst n; lia|].
    apply list_lookup_insert_eq. exact Hlen5.
Qed.

(** C7: a rejected submission returns an error (one of the four rejection
    messages) and no new state; every object that was in the store, the
    submitted game state among them, is after the call what it was before;
    and the same submission made again meets the same rejection, again
    with nothing changed. *)
Theorem rejected_move_is_idempotent
        (h h' : Store.Heap) (gameState : Store.Ref) (pid : string)
        (f t : ChessCoord) (promo : option ChessPieceType)
        (r : Store.MoveResult) :
  Store.makeMove gameState pid f t promo h = (Js.Ok r, h') ->
  Store.success r = false ->
  (exists e, Store.error r = Some e /\ In e rejections) /\
  Store.gameState r = None /\
  (forall l o, h !! l = Some o -> h' !! l = Some o) /\
  exists h'',
    Store.makeMove gameState pid f t promo h' = (Js.Ok r, h'') /\
    forall l o, h !! l = Some o -> h'' !! l = Some o.
Proof.
  intros Hrun Hs.
  destruct (h !! gameState) as [st|] eqn:Hg;
    [|unfold Store.makeMove, Store.bind, Store.deref in Hrun;
      rewrite Hg in Hrun; discriminate].
  destruct (makeMove_run gameState st pid f t promo h Hg)
    as (o' & h0 & Hrun0 & Hkeep & Href).
  rewrite Hrun in Hrun0. injection Hrun0 as <- <-.
  assert (Hframe : forall l o, h !! l = Some o -> h' !! l = Some o).
  { intros l o Ho.
    apply (keeps_lookup _ _ _ _ _ Hkeep (lookup_lt_Some _ _ _ Ho) Ho). }
  unfold Store.refines in Href.
  destruct (Server.makeMove st pid f t promo) as [r0|msg| |] eqn:Hpure;
    try discriminate.
  destruct Href as (r' & Hr' & Hsucc & Herr & Hstate).
  injection Hr' as <-.
  rewrite Hs in Hsucc. symmetry in Hsucc.
  destruct (makeMove_failure st pid f t promo r0 Hpure Hsucc) as [Hnone Hkind].
  rewrite Hnone in Hstate.
  split; [rewrite Herr; exact Hkind|].
  split; [exact Hstate|]. split; [exact Hframe|].
  destruct (makeMove_run gameState st pid f t promo h' (Hframe _ _ Hg))
    as (o'' & h'' & Hrun2 & Hkeep2 & Href2).
  exists h''. split.
  - rewrite Hrun2. f_equal. unfold Store.refines in Href2.
    rewrite Hpure in Href2.
    destruct Href2 as (r2 & -> & Hsucc2 & Herr2 & Hstate2).
    rewrite Hnone in Hstate2. f_equal.
    destruct r as [s1 g1 e1], r2 as [s2 g2 e2].
    cbn [Store.success Store.error Store.gameState] in *. congruence.
  - intros l o Ho. pose proof (Hframe l o Ho) as Ho'.
    apply (keeps_lookup _ _ _ _ _ Hkeep2 (lookup_lt_Some _ _ _ Ho') Ho').
Qed.

Lemma pair_with_fst {A B} (p : A * B) (a : A) : fst p = a -> p = (a, snd p).
Proof. destruct p. simpl. intros ->. reflexivity. Qed.

Lemma illegal_submission :
  fst (Store.makeMove 0%nat "white-player" (mkCoord 4 6) (mkCoord 5 5) None
                      [startGame])
  = Js.Ok (Store.reject "Illegal move").
Proof. vm_compute. reflexivity. Qed.

Lemma rejected_move_is_idempotent_witness :
  let submit :=
    Store.makeMove 0%nat "white-player" (mkCoord 4 6) (mkCoord 5 5) None in
  let r := Store.reject "Illegal move" in
  let h' := snd (submit [startGame]) in
  (submit [startGame] = (Js.Ok r, h') /\ Store.success r = false) /\
  (exists e, Store.error r = Some e /\ In e rejections) /\
  Store.gameState r = None /\
  (forall l o, [startGame] !! l = Some o -> h' !! l = Some o) /\
  exists h'',
    submit h' = (Js.Ok r, h'') /\
    forall l o, [startGame] !! l = Some o -> h'' !! l = Some o.
Proof.
  intros submit r h'.
  assert (Hrun : submit [startGame] = (Js.Ok r, h'))
    by (apply pair_with_fst; exact illegal_submission).
  split; [split; [exact Hrun|reflexivity]|].
  exact (rejected_move_is_idempotent [startGame] h' 0%nat "white-player"
           (mkCoord 4 6) (mkCoord 5 5) None r Hrun eq_refl).
Defined.

(** The rejection above is not a call that does nothing: the test copies
    of [getLegalMoves], one per pseudo-legal move, have entered the store. *)
Lemma illegal_submission_allocates :
  length (snd (Store.makeMove 0%nat "white-player" (mkCoord 4 6) (mkCoord 5 5)
                              None [startGame])) = 21%nat.
Proof. vm_compute. reflexivity. Qed.

(** The kind of rejection is fixed by the state and the submitter. *)
Lemma rejection_kinds st pid f t promo :
  (gameOver st = true ->
   makeMove st pid f t promo = Js.Ok (reject "Game is over")) /\
  (gameOver st = false ->
   p_white (players st) = pid -> sideToMove st = black ->
   makeMove st pid f t promo = Js.Ok (reject "Not your turn")) /\
  (gameOver st = false ->
   p_black (players st) = pid -> sideToMove st = white ->
   makeMove st pid f t promo = Js.Ok (reject "Not your turn")).
Proof.
  unfold makeMove. repeat split.
  - intros ->. reflexivity.
  - intros -> <- ->. rewrite String.eqb_refl. simpl.
    destruct (String.eqb (p_black (players st)) (p_white (players st)));
      reflexivity.
  - intros -> <- ->. rewrite String.eqb_refl. simpl.
    destruct (String.eqb (p_white (players st)) (p_black (players st)));
      reflexivity.
Qed.

(** C6, evaluated where it fails: both sides move a knight out and back,
    twice. After the eighth ply the starting position stands for the third
    time (the game's positions are the initial one and those in [history]),
    yet no draw is declared, because [history] never received the initial
    position. One ply later the position after 1.Nf3 stands for the third
    time and the draw is declared. *)
Theorem third_occurrence_of_start_missed (uuid : nat -> string) :
  let g0 := initializeGame uuid "white-player" "black-player" in
  exists g8 g9,
    playMoves g0 (mirrorMoves ++ mirrorMoves) = Some g8 /\
    occurrences (getPosition (fen g8)) (fen g0 :: history g8) = 3%nat /\
    draw g8 = false /\ gameOver g8 = false /\
    playMoves g8 (firstn 1 mirrorMoves) = Some g9 /\
    occurrences (getPosition (fen g9)) (fen g0 :: history g9) = 3%nat /\
    draw g9 = true /\ gameOver g9 = true.
Proof.
  intros g0. subst g0.
  eexists. eexists.
  split; [vm_compute; reflexivity|].
  split; [vm_compute; reflexivity|].
  split; [reflexivity|]. split; [reflexivity|].
  split; [vm_compute; reflexivity|].
  split; [vm_compute; reflexivity|].
  split; reflexivity.
Qed.

End ServerProofs.

(** * Further properties *)

(** ** The flat engine *)

Module EngineMore.
Import Engine EngineProofs.

Ltac move_simpl :=
  cbn [from to piece captured promotion isEnPassant isCastling].

Lemma plain_ends gs sq t p cap pr :
  cap = getSq (board gs) t ->
  (forall q, cap = Some q -> color q <> color p) ->
  (type p = "p"%char -> Z.abs (t - sq) = 16 ->
   rankOf sq = pawnStartRank (color p) /\ t = sq + 2 * pawnStep (color p)) ->
  (forall x, pr = Some x ->
             type p = "p"%char /\ rankOf t = pawnLastRank (color p)) ->
  (type p = "p"%char -> rankOf t = pawnLastRank (color p) -> pr <> None) ->
  MoveEnds gs sq p (mkMove sq t p cap pr false false).
Proof.
  intros Hcap Henemy Hjump Hpromo Hlast.
  constructor; move_simpl; auto.
Qed.

Lemma Color_neq a b : negb (Color_eqb a b) = true -> a <> b.
Proof. destruct a, b; simpl; congruence. Qed.

Lemma stepMoves_ends gs sq p reach deltas m :
  type p <> "p"%char ->
  In m (stepMoves gs sq p reach deltas) -> MoveEnds gs sq p m.
Proof.
  intros Hty Hin.
  unfold stepMoves in Hin. apply in_flat_map in Hin.
  destruct Hin as [d [Hd Hin]].
  destruct (negb (onBoard (sq + d))); [destruct Hin|].
  destruct (_ >? _); [destruct Hin|].
  destruct (getSq (board gs) (sq + d)) as [target|] eqn:Ht.
  - destruct (negb (Color_eqb (color target) (color p))) eqn:Hc;
      [|destruct Hin].
    in_cases Hin. apply plain_ends; try contradiction; try discriminate.
    + symmetry. exact Ht.
    + intros q [= <-]. apply Color_neq. exact Hc.
  - in_cases Hin. apply plain_ends; try contradiction; try discriminate.
    symmetry. exact Ht.
Qed.

Lemma slideRay_ends gs sq p dir fuel :
  type p <> "p"%char ->
  forall t lastFile m,
    In m (slideRay fuel gs sq p dir t lastFile) -> MoveEnds gs sq p m.
Proof.
  intros Hty.
  induction fuel as [|fuel IH]; intros t lastFile m Hin; [destruct Hin|].
  cbn [slideRay] in Hin.
  destruct (negb (onBoard t)); [destruct Hin|].
  destruct (wrapChecked dir && _); [destruct Hin|].
  destruct (getSq (board gs) t) as [target|] eqn:Ht.
  - destruct (negb (Color_eqb (color target) (color p))) eqn:Hc;
      [|destruct Hin].
    in_cases Hin. apply plain_ends; try contradiction; try discriminate.
    + symmetry. exact Ht.
    + intros q [= <-]. apply Color_neq. exact Hc.
  - destruct Hin as [<-|Hin]; [|apply (IH _ _ _ Hin)].
    apply plain_ends; try contradiction; try discriminate.
    symmetry. exact Ht.
Qed.

Lemma slidingMoves_ends gs sq p dirs m :
  type p <> "p"%char ->
  In m (generateSlidingMoves gs sq p dirs) -> MoveEnds gs sq p m.
Proof.
  intros Hty Hin. unfold generateSlidingMoves in Hin.
  apply in_flat_map in Hin. destruct Hin as [dir [_ Hin]].
  apply (slideRay_ends gs sq p dir slideFuel Hty _ _ m Hin).
Qed.

Lemma kingMoves_ends gs sq p m :
  type p = "k"%char ->
  In m (generateKingMoves gs sq p) -> MoveEnds gs sq p m.
Proof.
  intros Hty Hin.
  assert (Hnp : type p <> "p"%char) by (rewrite Hty; discriminate).
  unfold generateKingMoves in Hin. apply in_app_or in Hin.
  destruct Hin as [Hin|Hin]; [apply (stepMoves_ends _ _ _ _ _ _ Hnp Hin)|].
  destruct (color p) eqn:Hcol; apply in_app_or in Hin;
    destruct Hin as [Hin|Hin];
    match type of Hin with
    | In _ (if ?c then _ else _) => destruct c eqn:Hcond; [|destruct Hin]
    end;
    destruct Hin as [<-|[]];
    repeat (apply andb_true_iff in Hcond; destruct Hcond as [Hcond ?]);
    (unfold castleMove; constructor; move_simpl;
     try reflexivity; try discriminate; try contradiction;
     unfold capturedAsMade; move_simpl; symmetry; apply isEmpty_true;
     assumption).
Qed.

Lemma pawnMoves_ends gs sq p m :
  onBoard sq = true -> type p = "p"%char ->
  In m (generatePawnMoves gs sq p) -> MoveEnds gs sq p m.
Proof.
  intros Hon Hty Hin. apply onBoard_range in Hon.
  unfold generatePawnMoves in Hin. cbv zeta in Hin.
  apply in_app_or in Hin. destruct Hin as [Hin|Hin].
  - (* pushes *)
    destruct (onBoard _ && isEmpty _ _) eqn:Hone; [|destruct Hin].
    apply andb_true_iff in Hone. destruct Hone as [Hone Hempty].
    apply isEmpty_true in Hempty. apply onBoard_range in Hone.
    destruct (Z.eqb_spec (rankOf (sq + match color p with W => 8 | B => -8 end))
                         (match color p with W => 7 | B => 0 end)) as [Hlast|Hlast].
    + apply in_map_iff in Hin. destruct Hin as [pr [<- Hpr]].
      apply plain_ends; try discriminate.
      * symmetry. exact Hempty.
      * intros _ H16. destruct (color p); lia.
      * intros x _. split; [exact Hty|].
        destruct (color p); exact Hlast.
    + destruct Hin as [<-|Hin].
      * apply plain_ends; try discriminate.
        -- symmetry. exact Hempty.
        -- intros _ H16. destruct (color p); lia.
        -- intros _ Hr. exfalso. apply Hlast.
           destruct (color p); exact Hr.
      * destruct (Z.eqb_spec (rankOf sq) (match color p with W => 1 | B => 6 end))
          as [Hstart|]; [|destruct Hin].
        destruct (onBoard _ && isEmpty _ _) eqn:Htwo; [|destruct Hin].
        apply andb_true_iff in Htwo. destruct Htwo as [Htwo Hempty2].
        apply isEmpty_true in Hempty2. apply onBoard_range in Htwo.
        destruct Hin as [<-|[]].
        apply plain_ends; try discriminate.
        -- symmetry. exact Hempty2.
        -- intros _ _. unfold pawnStartRank, pawnStep.
           destruct (color p); split; (exact Hstart || reflexivity).
        -- intros _ Hr. exfalso. unfold pawnLastRank, rankOf in *.
           destruct (color p); Z.to_euclidean_division_equations; lia.
  - (* captures *)
    apply in_flat_map in Hin. destruct Hin as [d [Hd Hin]].
    assert (Hd' : Z.abs d = 7 \/ Z.abs d = 9).
    { destruct (color p); in_cases Hd; lia. }
    destruct (negb (onBoard (sq + d))) eqn:Hon'; [destruct Hin|].
    apply negb_false_iff in Hon'. apply onBoard_range in Hon'.
    destruct (negb _); [destruct Hin|].
    assert (Hep : In m match enPassant gs with
                       | Some ep =>
                           if sq + d =? ep then
                             match getSq (board gs)
                                     match color p with
                                     | W => sq + d - 8
                                     | B => sq + d + 8
                                     end with
                             | Some capPiece =>
                                 if Ascii.eqb (type capPiece) "p"
                                    && negb (Color_eqb (color capPiece) (color p))
                                 then [mkMove sq (sq + d) p (Some capPiece)
                                              None true false]
                                 else []
                             | None => []
                             end
                           else []
                       | None => []
                       end -> MoveEnds gs sq p m).
    { clear Hin. intros Hin.
      destruct (enPassant gs) as [ep|] eqn:Hepsq; [|destruct Hin].
      destruct (Z.eqb_spec (sq + d) ep) as [<-|]; [|destruct Hin].
      match type of Hin with
      | context [getSq (board gs) ?v] =>
          destruct (getSq (board gs) v) as [capPiece|] eqn:Hvic; [|destruct Hin]
      end.
      destruct (_ && _) eqn:Hcond; [|destruct Hin].
      apply andb_true_iff in Hcond. destruct Hcond as [_ Hcol].
      destruct Hin as [<-|[]].
      constructor; move_simpl; try reflexivity; try discriminate.
      - unfold capturedAsMade, enPassantVictim. move_simpl. symmetry.
        exact Hvic.
      - intros q [= <-]. apply Color_neq. exact Hcol.
      - intros _ H16. lia. }
    destruct (getSq (board gs) (sq + d)) as [target|] eqn:Ht;
      [|exact (Hep Hin)].
    destruct (negb (Color_eqb (color target) (color p))) eqn:Hc;
      [|exact (Hep Hin)].
    clear Hep.
    destruct (Z.eqb_spec (rankOf (sq + d))
                         (match color p with W => 7 | B => 0 end)) as [Hlast|Hlast].
    + apply in_map_iff in Hin. destruct Hin as [pr [<- Hpr]].
      apply plain_ends; try discriminate.
      * symmetry. exact Ht.
      * intros q [= <-]. apply Color_neq. exact Hc.
      * intros _ H16. lia.
      * intros x _. split; [exact Hty|]. destruct (color p); exact Hlast.
    + destruct Hin as [<-|[]].
      apply plain_ends; try discriminate.
      * symmetry. exact Ht.
      * intros q [= <-]. apply Color_neq. exact Hc.
      * intros _ H16. lia.
      * intros _ Hr. exfalso. apply Hlast. destruct (color p); exact Hr.
Qed.

(** Where a pseudo-legal move comes from. *)
Lemma pseudo_origin gs m :
  In m (generatePseudoLegalMoves gs) ->
  exists sq p,
    onBoard sq = true /\ getSq (board gs) sq = Some p /\
    color p = turn gs /\ In m (movesFrom gs sq) /\ MoveEnds gs sq p m.
Proof.
  intros Hin.
  unfold generatePseudoLegalMoves in Hin. apply in_flat_map in Hin.
  destruct Hin as [sq [Hsq Hin]]. apply squares_onBoard in Hsq.
  pose proof Hin as Hfrom.
  unfold movesFrom in Hin.
  destruct (getSq (board gs) sq) as [p|] eqn:Hp; [|destruct Hin].
  destruct (negb (Color_eqb (color p) (turn gs))) eqn:Hturn; [destruct Hin|].
  apply negb_false_iff, Color_eqb_eq in Hturn.
  exists sq, p. repeat (split; [assumption|]).
  destruct (Ascii.eqb_spec (type p) "p") as [Tp|Tp].
  { apply pawnMoves_ends; assumption. }
  destruct (Ascii.eqb (type p) "n").
  { eapply stepMoves_ends; eassumption. }
  destruct (Ascii.eqb (type p) "b").
  { eapply slidingMoves_ends; eassumption. }
  destruct (Ascii.eqb (type p) "r").
  { eapply slidingMoves_ends; eassumption. }
  destruct (Ascii.eqb (type p) "q").
  { eapply slidingMoves_ends; eassumption. }
  destruct (Ascii.eqb_spec (type p) "k") as [Tk|Tk]; [|destruct Hin].
  apply kingMoves_ends; assumption.
Qed.


(** [makeMove] rewrites [move.captured] with the value the generator had
    already put there. *)
Lemma makeMove_keeps_move gs m :
  In m (generatePseudoLegalMoves gs) -> snd (makeMove gs m) = m.
Proof.
  intros Hin. destruct (pseudo_origin gs m Hin) as (sq & p & _ & _ & _ & _ & He).
  pose proof (me_captured _ _ _ _ He) as Hcap.
  unfold makeMove. cbn [snd]. unfold setCaptured.
  unfold capturedAsMade in Hcap. rewrite <- Hcap.
  destruct m; reflexivity.
Qed.

Lemma legal_iff gs m :
  In m (generateLegalMoves gs) <->
  In m (generatePseudoLegalMoves gs) /\
  inCheck (fst (makeMove gs m)) (turn gs) = false /\
  (isCastling m = true ->
   forall sq, In sq (castlingPath (to m)) ->
              isSquareAttacked gs sq (opposite (turn gs)) = false).
Proof.
  unfold generateLegalMoves. rewrite in_flat_map. split.
  - intros [m0 [Hm0 Hin]].
    unfold legalOne in Hin. rewrite cloneGameState_id in Hin.
    destruct (isCastling m0 && _) eqn:Hpath; [destruct Hin|].
    pose proof (makeMove_keeps_move gs m0 Hm0) as Hkeep.
    destruct (makeMove gs m0) as [snapshot m'] eqn:Hmake.
    cbn [snd] in Hkeep. subst m'.
    destruct (negb (inCheck snapshot (turn gs))) eqn:Hsafe; [|destruct Hin].
    destruct Hin as [<-|[]].
    split; [exact Hm0|]. rewrite Hmake. cbn [fst].
    split; [apply negb_true_iff; exact Hsafe|].
    intros Hc sq Hsq. rewrite Hc in Hpath. cbn [andb] in Hpath.
    destruct (isSquareAttacked gs sq (opposite (turn gs))) eqn:Hatt;
      [|reflexivity].
    assert (Hex : existsb (fun sq => isSquareAttacked gs sq (opposite (turn gs)))
                          (castlingPath (to m0)) = true).
    { apply existsb_exists. exists sq. split; assumption. }
    congruence.
  - intros (Hm & Hsafe & Hpath). exists m. split; [exact Hm|].
    unfold legalOne. rewrite cloneGameState_id.
    assert (Hno : isCastling m
                  && existsb (fun sq => isSquareAttacked gs sq (opposite (turn gs)))
                             (castlingPath (to m)) = false).
    { destruct (isCastling m); [|reflexivity]. cbn [andb].
      destruct (existsb _ _) eqn:Hex; [|reflexivity].
      apply existsb_exists in Hex. destruct Hex as [sq [Hsq Hatt]].
      rewrite (Hpath eq_refl sq Hsq) in Hatt. discriminate. }
    rewrite Hno.
    pose proof (makeMove_keeps_move gs m Hm) as Hkeep.
    destruct (makeMove gs m) as [snapshot m'] eqn:Hmake.
    cbn [fst snd] in *. subst m'. rewrite Hsafe. left. reflexivity.
Qed.

(** X2: [makeMove] never gives a castling right back, whatever the move;
    and a king's move leaves its side with no right. *)
Theorem castling_rights_only_shrink (gs : GameState) (m : Move) :
  let before := castling gs in
  let after := castling (fst (makeMove gs m)) in
  (wks after = true -> wks before = true) /\
  (wqs after = true -> wqs before = true) /\
  (bks after = true -> bks before = true) /\
  (bqs after = true -> bqs before = true) /\
  (type (piece m) = "k"%char ->
   match color (piece m) with
   | W => wks after = false /\ wqs after = false
   | B => bks after = false /\ bqs after = false
   end).
Proof.
  cbv zeta.
  destruct (rights_kept gs m) as (Kwks & Kwqs & Kbks & Kbqs).
  split; [intros Hr; apply Kwks in Hr; tauto|].
  split; [intros Hr; apply Kwqs in Hr; tauto|].
  split; [intros Hr; apply Kbks in Hr; tauto|].
  split; [intros Hr; apply Kbqs in Hr; tauto|].
  intros Hking. destruct (color (piece m)) eqn:Hcol; split;
    apply Bool.not_true_is_false; intros Hr;
    first [apply Kwks in Hr | apply Kwqs in Hr
          | apply Kbks in Hr | apply Kbqs in Hr];
    destruct Hr as (_ & Hk & _); apply (Hk Hking); reflexivity.
Qed.

(** X1: a move is legal exactly when it is pseudo-legal, leaves the mover's
    king out of check once made, and, for castling, crosses no square the
    opponent attacks. *)
Theorem legal_iff_safe_pseudo_legal (gs : GameState) (m : Move) :
  In m (generateLegalMoves gs) <->
  In m (generatePseudoLegalMoves gs) /\
  inCheck (fst (makeMove gs m)) (turn gs) = false /\
  (isCastling m = true ->
   forall sq, In sq (castlingPath (to m)) ->
              isSquareAttacked gs sq (opposite (turn gs)) = false).
Proof. apply legal_iff. Qed.

Lemma legal_is_shaped gs m :
  In m (generateLegalMoves gs) -> MoveShape gs m.
Proof.
  intros Hin. apply pseudo_shape.
  apply (proj1 (legal_iff gs m)). exact Hin.
Qed.

Lemma legal_well_formed gs m :
  well_formed gs -> In m (generateLegalMoves gs) ->
  well_formed (fst (makeMove gs m)).
Proof.
  intros Hwf Hin. apply makeMove_well_formed; [exact Hwf|].
  apply legal_is_shaped. exact Hin.
Qed.

(** X3: a legal move made on a well-formed position gives a well-formed
    position: 64 squares, every castling right still held has its rook on
    the corner, and the en-passant target is empty. *)
Theorem legal_move_keeps_well_formed (gs : GameState) (m : Move) :
  well_formed gs -> In m (generateLegalMoves gs) ->
  well_formed (fst (makeMove gs m)).
Proof. apply legal_well_formed. Qed.

Lemma kingsPawnOpening_legal : In kingsPawnOpening (generateLegalMoves startPosition).
Proof. vm_compute. do 13 right. left. reflexivity. Qed.

Lemma legal_move_keeps_well_formed_witness :
  well_formed startPosition /\
  In kingsPawnOpening (generateLegalMoves startPosition) /\
  well_formed (fst (makeMove startPosition kingsPawnOpening)).
Proof.
  split; [apply start_well_formed|].
  split; [apply kingsPawnOpening_legal|].
  apply (legal_move_keeps_well_formed startPosition kingsPawnOpening
           start_well_formed kingsPawnOpening_legal).
Defined.

(** X4: after a legal move the en-passant target is set only by a pawn
    that advanced two ranks from its starting rank; it is then the empty
    square the pawn jumped over, on the third rank for White and the sixth
    for Black. *)
Theorem enPassant_target_is_jumped_square (gs : GameState) (m : Move) (e : Square) :
  well_formed gs -> In m (generateLegalMoves gs) ->
  enPassant (fst (makeMove gs m)) = Some e ->
  type (piece m) = "p"%char /\
  from m = e - pawnStep (turn gs) /\
  to m = e + pawnStep (turn gs) /\
  rankOf e = match turn gs with W => 2 | B => 5 end /\
  getSq (board (fst (makeMove gs m))) e = None.
Proof.
  intros Hwf Hin He.
  pose proof (legal_well_formed gs m Hwf Hin) as Hwf'.
  pose proof (wf_ep _ Hwf' e He) as Hempty.
  apply (proj1 (legal_iff gs m)) in Hin.
  destruct Hin as [Hin _].
  destruct (pseudo_origin gs m Hin) as (sq & p & Hon & Hp & Hturn & _ & Hends).
  destruct Hends as [Hfrom Hpiece _ _ Hjump _ _].
  destruct (makeMove_state gs m) as (_ & Hep & _). rewrite Hep in He.
  destruct (Ascii.eqb_spec (type (piece m)) "p") as [Hpawn|]; [|discriminate].
  destruct (Z.eqb_spec (Z.abs (to m - from m)) 16) as [H16|]; [|discriminate].
  injection He as <-.
  rewrite Hpiece in Hpawn. rewrite Hfrom in H16.
  destruct (Hjump Hpawn H16) as [Hrank Hto].
  apply onBoard_range in Hon.
  assert (Hmid : (from m + to m) / 2 = sq + pawnStep (color p)).
  { rewrite Hfrom, Hto. unfold pawnStep.
    destruct (color p); Z.to_euclidean_division_equations; lia. }
  rewrite Hmid in *. rewrite Hpiece, Hfrom, Hto, <- Hturn.
  split; [exact Hpawn|]. split; [lia|]. split; [lia|].
  split; [|exact Hempty].
  unfold pawnStartRank, pawnStep, rankOf in *.
  destruct (color p); Z.to_euclidean_division_equations; lia.
Qed.

Lemma enPassant_target_is_jumped_square_witness :
  well_formed startPosition /\
  In kingsPawnOpening (generateLegalMoves startPosition) /\
  enPassant (fst (makeMove startPosition kingsPawnOpening)) = Some 20 /\
  from kingsPawnOpening = 20 - pawnStep W /\
  getSq (board (fst (makeMove startPosition kingsPawnOpening))) 20 = None.
Proof.
  split; [apply start_well_formed|].
  split; [apply kingsPawnOpening_legal|].
  split; [reflexivity|].
  pose proof (enPassant_target_is_jumped_square startPosition kingsPawnOpening 20
                start_well_formed kingsPawnOpening_legal eq_refl) as H.
  split; [apply H|apply H].
Defined.

(** X5: a legal move on a well-formed position stays on the board, moves
    a piece of the side to move from its square to a different one, and
    never lands on a piece of the mover's own colour. *)
Theorem legal_move_geometry (gs : GameState) (m : Move) :
  well_formed gs -> In m (generateLegalMoves gs) ->
  0 <= from m < 64 /\ 0 <= to m < 64 /\ from m <> to m /\
  getSq (board gs) (from m) = Some (piece m) /\
  color (piece m) = turn gs /\
  (forall q, getSq (board gs) (to m) = Some q -> color q <> turn gs).
Proof.
  intros Hwf Hin.
  apply (proj1 (legal_iff gs m)) in Hin.
  destruct Hin as [Hin _].
  destruct (pseudo_shape gs m Hin) as [Hf Ht Hne Hp Hturn _ Hk].
  apply onBoard_range in Hf, Ht.
  repeat (split; [assumption|]).
  destruct (pseudo_origin gs m Hin) as (sq & p & _ & _ & _ & _ & Hends).
  destruct Hends as [_ Hpiece Hcap Henemy _ _ _].
  intros q Hq. rewrite <- Hturn, Hpiece.
  destruct Hk as [Hep Hc _|cp Hep _ _ _ Hepsq _ _ _|_ _ _ _ Hoff].
  - apply Henemy. rewrite Hcap. unfold capturedAsMade. rewrite Hep. exact Hq.
  - rewrite (wf_ep gs Hwf _ Hepsq) in Hq. discriminate.
  - unfold castleOffered in Hoff.
    destruct (color (piece m));
      destruct Hoff as [H|H]; decompose [and] H; subst; congruence.
Qed.

Lemma legal_move_geometry_witness :
  well_formed startPosition /\
  In kingsPawnOpening (generateLegalMoves startPosition) /\
  0 <= from kingsPawnOpening < 64 /\ 0 <= to kingsPawnOpening < 64.
Proof.
  split; [apply start_well_formed|].
  split; [apply kingsPawnOpening_legal|].
  pose proof (legal_move_geometry startPosition kingsPawnOpening
                start_well_formed kingsPawnOpening_legal) as H.
  split; apply H.
Defined.

(** X6: the name of a square of the board reads back as that square, is
    never the FEN placeholder ["-"], and holds no space. *)
Theorem square_name_round_trip (sq : Square) :
  0 <= sq < 64 ->
  algebraicToSquare (squareToAlgebraic sq) = Some sq /\
  squareToAlgebraic sq <> "-"%string /\
  Js.includes (squareToAlgebraic sq) " " = false.
Proof.
  intros Hsq. destruct (algebraic_round_trip sq Hsq) as (Hsp & Hdash & Hback).
  repeat split; try assumption.
  intros Heq. rewrite Heq in Hdash. discriminate.
Qed.

Lemma square_name_round_trip_witness :
  0 <= 28 < 64 /\
  squareToAlgebraic 28 = "e4"%string /\
  algebraicToSquare (squareToAlgebraic 28) = Some 28.
Proof.
  split; [lia|]. split; [reflexivity|].
  apply (square_name_round_trip 28). lia.
Defined.


(** *** What the detector reports, the generator can capture *)

Lemma det_step_gen dir a :
  onBoard a = true -> onBoard (a + dirVals dir) = true ->
  stepOK a (a + dirVals dir) -> wrapChecked dir = true ->
  Z.abs (fileOf (a + dirVals dir) - fileOf a) = 1.
Proof.
  intros Ha Hb Hstep Hw. destruct dir; simpl in *; try discriminate;
    board_arith.
Qed.

Lemma stepOK_of_tests a b :
  (Z.abs (fileOf a - fileOf b) >? 1) || (Z.abs (rankOf a - rankOf b) >? 1)
  = false -> stepOK a b.
Proof. intros H. apply orb_false_iff in H. unfold stepOK. lia. Qed.

Lemma genReaches_target gs c dir sq q :
  onBoard sq = true -> getSq (board gs) sq = Some q -> color q <> c ->
  genReaches gs c dir sq q sq.
Proof.
  intros Hon Hq Hcol a p fuel Hp Hfuel Hstep.
  destruct fuel as [|fuel].
  { apply onBoard_range in Hon. unfold rayMeasure in Hfuel.
    destruct (0 <? dirVals dir); lia. }
  cbn [slideRay]. rewrite Hon. cbn [negb].
  assert (Hw : wrapChecked dir
               && negb (Z.abs (fileOf sq - fileOf (sq - dirVals dir)) =? 1)
               = false).
  { destruct (wrapChecked dir); [|reflexivity]. cbn [andb].
    rewrite (Hstep eq_refl). reflexivity. }
  rewrite Hw, Hq.
  assert (Hen : negb (Color_eqb (color q) (color p)) = true).
  { rewrite Hp. destruct (color q), c; simpl; congruence. }
  rewrite Hen. left. reflexivity.
Qed.

Lemma attackRay_finds gs c dir ty sq q fuel :
  forall from,
    genReaches gs c dir sq q (from + dirVals dir) ->
    onBoard (from + dirVals dir) = true ->
    attackRay fuel (board gs) c (- dirVals dir) ty from = true ->
    exists a p,
      onBoard a = true /\ getSq (board gs) a = Some p /\ color p = c /\
      (type p = ty \/ type p = "q"%char) /\
      In (captureMove a sq p q)
         (slideRay slideFuel gs a p dir (a + dirVals dir) (fileOf a)).
Proof.
  induction fuel as [|fuel IH]; intros from Hnext Hon' Hatt; [discriminate|].
  cbn [attackRay] in Hatt.
  destruct (onBoard from) eqn:Hon; [|discriminate]. cbn [negb] in Hatt.
  destruct (_ || _) eqn:Htests; [discriminate|].
  apply stepOK_of_tests in Htests.
  replace (from - - dirVals dir) with (from + dirVals dir) in Htests by lia.
  pose proof (det_step_gen dir from Hon Hon' Htests) as Hgen.
  destruct (getSq (board gs) from) as [p|] eqn:Hp.
  - apply andb_true_iff in Hatt. destruct Hatt as [Hc Hty].
    apply Color_eqb_eq in Hc.
    exists from, p. repeat (split; [assumption|]). split.
    + apply orb_true_iff in Hty.
      destruct Hty as [Hty|Hty]; apply Ascii.eqb_eq in Hty; auto.
    + replace (fileOf from)
        with (fileOf (from + dirVals dir - dirVals dir))
        by (f_equal; lia).
      apply Hnext; [exact Hc| |].
      * apply onBoard_range in Hon'. unfold rayMeasure, slideFuel.
        destruct (0 <? dirVals dir); lia.
      * replace (from + dirVals dir - dirVals dir) with from by lia.
        exact Hgen.
  - apply (IH (from + - dirVals dir)); try assumption.
    + replace (from + - dirVals dir + dirVals dir) with from by lia.
      intros a p fuel' Hcol Hfuel Hstep.
      destruct fuel' as [|fuel'].
      { apply onBoard_range in Hon. unfold rayMeasure in Hfuel.
        destruct (0 <? dirVals dir); lia. }
      cbn [slideRay]. rewrite Hon. cbn [negb].
      assert (Hw : wrapChecked dir
                   && negb (Z.abs (fileOf from - fileOf (from - dirVals dir)) =? 1)
                   = false).
      { destruct (wrapChecked dir); [|reflexivity]. cbn [andb].
        rewrite (Hstep eq_refl). reflexivity. }
      rewrite Hw, Hp. right.
      replace (fileOf from)
        with (fileOf (from + dirVals dir - dirVals dir))
        by (f_equal; lia).
      apply Hnext; [exact Hcol| |].
      * apply onBoard_range in Hon, Hon'. unfold rayMeasure in *.
        pose proof (dirVals_nonzero dir).
        destruct (Z.ltb_spec 0 (dirVals dir)); lia.
      * replace (from + dirVals dir - dirVals dir) with from by lia.
        exact Hgen.
    + replace (from + - dirVals dir + dirVals dir) with from by lia.
      exact Hon.
Qed.

Lemma attackDirs_dir d ty :
  In (d, ty) attackDirs -> exists dir, d = - dirVals dir /\ ty = sliderOf dir.
Proof.
  unfold attackDirs. intros Hin. in_cases Hin;
    injection Hin as <- <-;
    [exists dS|exists dN|exists dW|exists dE
    |exists dSW|exists dSE|exists dNW|exists dNE]; split; reflexivity.
Qed.

Lemma movesFrom_pseudo gs sq m :
  onBoard sq = true -> In m (movesFrom gs sq) ->
  In m (generatePseudoLegalMoves gs).
Proof.
  intros Hon Hin. unfold generatePseudoLegalMoves. apply in_flat_map.
  exists sq. split; [|exact Hin].
  apply squares_In. apply onBoard_range. exact Hon.
Qed.

Lemma Color_eqb_refl c : Color_eqb c c = true.
Proof. destruct c; reflexivity. Qed.

Lemma slider_moves gs a p dir m :
  getSq (board gs) a = Some p -> color p = turn gs ->
  type p = sliderOf dir \/ type p = "q"%char ->
  In m (slideRay slideFuel gs a p dir (a + dirVals dir) (fileOf a)) ->
  In m (movesFrom gs a).
Proof.
  intros Hp Hc Hty Hin. unfold movesFrom. rewrite Hp, Hc, Color_eqb_refl.
  cbn [negb].
  assert (Hflat : forall dirs, In dir dirs ->
                               In m (generateSlidingMoves gs a p dirs)).
  { intros dirs Hd. unfold generateSlidingMoves. apply in_flat_map.
    exists dir. split; assumption. }
  destruct Hty as [Hty|Hty]; rewrite Hty.
  - destruct dir;
      change (sliderOf _) with "r"%char || change (sliderOf _) with "b"%char;
      cbn [Ascii.eqb Bool.eqb]; cbv iota; apply Hflat; simpl; tauto.
  - cbn [Ascii.eqb Bool.eqb]. cbv iota. apply Hflat.
    destruct dir; simpl; tauto.
Qed.

Lemma isPieceAt_elim b sq ty c :
  isPieceAt b sq ty c = true ->
  exists p, getSq b sq = Some p /\ type p = ty /\ color p = c.
Proof.
  unfold isPieceAt. destruct (getSq b sq) as [p|]; [|discriminate].
  intros H. apply andb_true_iff in H. destruct H as [Hty Hc].
  apply Ascii.eqb_eq in Hty. apply Color_eqb_eq in Hc. eauto.
Qed.

Lemma step_attacker_moves gs sq q from p reach deltas :
  onBoard sq = true -> getSq (board gs) sq = Some q ->
  color q <> color p -> In (sq - from) deltas ->
  negb (Z.abs (fileOf sq - fileOf from) >? reach) = true ->
  In (captureMove from sq p q) (stepMoves gs from p reach deltas).
Proof.
  intros Hon Hq Hcol Hd Hreach. unfold stepMoves. apply in_flat_map.
  exists (sq - from). split; [exact Hd|].
  replace (from + (sq - from)) with sq by lia.
  rewrite Hon. cbn [negb].
  apply negb_true_iff in Hreach.
  replace (Z.abs (fileOf from - fileOf sq)) with (Z.abs (fileOf sq - fileOf from))
    by lia.
  rewrite Hreach, Hq.
  assert (Hen : negb (Color_eqb (color q) (color p)) = true).
  { destruct (color q), (color p); simpl; congruence. }
  rewrite Hen. left. reflexivity.
Qed.

Lemma pawn_attacker_moves gs sq q from p :
  onBoard sq = true -> getSq (board gs) sq = Some q ->
  color q <> color p ->
  In from match color p with
          | W => [sq - 7; sq - 9]
          | B => [sq + 7; sq + 9]
          end ->
  (Z.abs (fileOf sq - fileOf from) =? 1) = true ->
  exists m, In m (generatePawnMoves gs from p) /\
            to m = sq /\ captured m = Some q.
Proof.
  intros Hon Hq Hcol Hfrom Hfile.
  assert (Hen : negb (Color_eqb (color q) (color p)) = true).
  { destruct (color q), (color p); simpl; congruence. }
  set (last := match color p with W => 7 | B => 0 end).
  exists (if rankOf sq =? last
          then mkMove from sq p (Some q) (Some "q"%char) false false
          else captureMove from sq p q).
  split; [|destruct (rankOf sq =? last); split; reflexivity].
  unfold generatePawnMoves. cbv zeta. apply in_or_app. right.
  apply in_flat_map. exists (sq - from). split.
  { destruct (color p); in_cases Hfrom; simpl;
      [left|right; left|left|right; left]; lia. }
  replace (from + (sq - from)) with sq by lia.
  rewrite Hon, Hfile. cbn [negb]. rewrite Hq, Hen.
  fold last. destruct (rankOf sq =? last); [|left; reflexivity].
  cbn [map promotionPieces]. left. reflexivity.
Qed.

Lemma attacked_piece_capturable gs sq q :
  onBoard sq = true -> getSq (board gs) sq = Some q ->
  color q <> turn gs ->
  isSquareAttacked gs sq (turn gs) = true ->
  exists m, In m (generatePseudoLegalMoves gs) /\
            to m = sq /\ captured m = Some q.
Proof.
  intros Hon Hq Hcol Hatt. unfold isSquareAttacked in Hatt.
  apply orb_true_iff in Hatt. destruct Hatt as [Hatt|Hking].
  apply orb_true_iff in Hatt. destruct Hatt as [Hatt|Hslide].
  apply orb_true_iff in Hatt. destruct Hatt as [Hpawn|Hknight].
  - (* a pawn *)
    apply existsb_exists in Hpawn. destruct Hpawn as [from [Hfrom Hc]].
    apply andb_true_iff in Hc. destruct Hc as [Hc Hat].
    apply andb_true_iff in Hc. destruct Hc as [Honf Hfile].
    destruct (isPieceAt_elim _ _ _ _ Hat) as (p & Hp & Hty & Hpc).
    rewrite <- Hpc in Hfrom, Hcol.
    destruct (pawn_attacker_moves gs sq q from p Hon Hq Hcol Hfrom Hfile)
      as (m & Hm & Hto & Hcap).
    exists m. repeat split; try assumption.
    apply (movesFrom_pseudo gs from m Honf).
    unfold movesFrom. rewrite Hp, Hpc, Color_eqb_refl, Hty. exact Hm.
  - (* a knight *)
    apply existsb_exists in Hknight. destruct Hknight as [d [Hd Hc]].
    cbv zeta in Hc.
    apply andb_true_iff in Hc. destruct Hc as [Hc Hat].
    apply andb_true_iff in Hc. destruct Hc as [Honf Hfile].
    destruct (isPieceAt_elim _ _ _ _ Hat) as (p & Hp & Hty & Hpc).
    rewrite <- Hpc in Hcol.
    exists (captureMove (sq + d) sq p q). repeat split.
    apply (movesFrom_pseudo gs (sq + d) _ Honf).
    unfold movesFrom. rewrite Hp, Hpc, Color_eqb_refl, Hty.
    cbn [Ascii.eqb Bool.eqb negb]. cbv iota. unfold generateKnightMoves.
    apply step_attacker_moves; try assumption.
    replace (sq - (sq + d)) with (- d) by lia.
    apply knightDeltas_sym. exact Hd.
  - (* a rook, a bishop or a queen *)
    apply existsb_exists in Hslide. destruct Hslide as [[d ty] [Hd Hray]].
    cbn [fst snd] in Hray.
    destruct (attackDirs_dir d ty Hd) as (dir & -> & ->).
    destruct (attackRay_finds gs (turn gs) dir (sliderOf dir) sq q slideFuel
                (sq + - dirVals dir)) as (a & p & Hona & Hp & Hpc & Hty & Hm).
    + replace (sq + - dirVals dir + dirVals dir) with sq by lia.
      apply genReaches_target; assumption.
    + replace (sq + - dirVals dir + dirVals dir) with sq by lia. exact Hon.
    + exact Hray.
    + exists (captureMove a sq p q). repeat split.
      apply (movesFrom_pseudo gs a _ Hona).
      apply (slider_moves gs a p dir); assumption.
  - (* the king *)
    apply existsb_exists in Hking. destruct Hking as [d [Hd Hc]].
    cbv zeta in Hc.
    apply andb_true_iff in Hc. destruct Hc as [Hc Hat].
    apply andb_true_iff in Hc. destruct Hc as [Honf Hfile].
    destruct (isPieceAt_elim _ _ _ _ Hat) as (p & Hp & Hty & Hpc).
    rewrite <- Hpc in Hcol.
    exists (captureMove (sq + d) sq p q). repeat split.
    apply (movesFrom_pseudo gs (sq + d) _ Honf).
    unfold movesFrom. rewrite Hp, Hpc, Color_eqb_refl, Hty.
    cbn [Ascii.eqb Bool.eqb negb]. cbv iota.
    unfold generateKingMoves. apply in_or_app. left.
    apply step_attacker_moves; try assumption.
    replace (sq - (sq + d)) with (- d) by lia.
    apply kingDeltas_sym. exact Hd.
Qed.

(** X7: a piece of the side not to move that [isSquareAttacked] reports
    as attacked by the side to move can be taken: some pseudo-legal move
    lands on its square and records it as captured. *)
Theorem attacked_piece_can_be_captured (gs : GameState) (sq : Square)
        (q : Piece) :
  onBoard sq = true -> getSq (board gs) sq = Some q ->
  color q <> turn gs ->
  isSquareAttacked gs sq (turn gs) = true ->
  exists m, In m (generatePseudoLegalMoves gs) /\
            to m = sq /\ captured m = Some q.
Proof. apply attacked_piece_capturable. Qed.

Lemma attacked_piece_can_be_captured_witness :
  isSquareAttacked afterE4D5 35 (turn afterE4D5) = true /\
  exists m, In m (generatePseudoLegalMoves afterE4D5) /\
            to m = 35 /\ captured m = Some (mkPiece "p"%char B).
Proof.
  split; [vm_compute; reflexivity|].
  apply (attacked_piece_can_be_captured afterE4D5 35 (mkPiece "p"%char B));
    [reflexivity|reflexivity|discriminate|vm_compute; reflexivity].
Defined.

(** *** Whole lines of play *)

Lemma undoMoves_last n gs : undoMoves (S n) gs = undoMove (undoMoves n gs).
Proof.
  revert gs. induction n as [|n IH]; intros gs; [reflexivity|].
  change (undoMoves (S (S n)) gs) with (undoMoves (S n) (undoMove gs)).
  rewrite IH. reflexivity.
Qed.

Lemma makeMove_history gs m :
  length (history (fst (makeMove gs m))) = S (length (history gs)).
Proof.
  unfold makeMove. cbn [fst history]. rewrite length_app. simpl. lia.
Qed.

Lemma line_well_formed gs ms :
  well_formed gs -> LegalLine gs ms -> well_formed (makeMoves gs ms).
Proof.
  intros Hwf Hline. induction Hline as [gs|gs m rest Hin _ IH];
    [exact Hwf|].
  cbn [makeMoves]. apply IH. apply legal_well_formed; assumption.
Qed.

Lemma undoMoves_first n gs : undoMoves (S n) gs = undoMoves n (undoMove gs).
Proof. reflexivity. Qed.

Lemma incr_small n : 0 <= n -> n + 1 < 2 ^ 53 -> Js.incr n = n + 1.
Proof. intros H0 H1. unfold Js.incr. apply roundToDouble_safe. lia. Qed.

(** A move leaves room for one move less below [2^53]. *)
Lemma makeMove_fullmove gs m k :
  0 <= fullmoveNumber gs -> fullmoveNumber gs + k < 2 ^ 53 -> 1 <= k ->
  0 <= fullmoveNumber (fst (makeMove gs m)) /\
  fullmoveNumber (fst (makeMove gs m)) + (k - 1) < 2 ^ 53.
Proof.
  intros H0 Hk H1.
  destruct (makeMove_state gs m) as (_ & _ & _ & ->).
  destruct (turn gs); [lia|]. rewrite incr_small by lia. lia.
Qed.

(** X8: after any line of legal moves played from a well-formed position,
    as many calls of [undoMove] as moves were made give the position back,
    field for field, as long as the fullmove number stays below [2^53];
    the history has grown by one entry per move. *)
Theorem undo_whole_line (gs : GameState) (ms : list Move) :
  well_formed gs ->
  0 <= fullmoveNumber gs ->
  fullmoveNumber gs + Z.of_nat (length ms) < 2 ^ 53 ->
  LegalLine gs ms ->
  undoMoves (length ms) (makeMoves gs ms) = gs /\
  length (history (makeMoves gs ms)) = (length (history gs) + length ms)%nat.
Proof.
  intros Hwf H0 Hmax Hline. induction Hline as [gs|gs m rest Hin _ IH].
  - cbn. split; [reflexivity|lia].
  - pose proof (legal_well_formed gs m Hwf Hin) as Hwf'.
    cbn [length] in Hmax.
    destruct (makeMove_fullmove gs m (Z.of_nat (S (length rest))) H0 Hmax
                ltac:(lia)) as [H0' Hmax'].
    destruct (IH Hwf' H0' ltac:(lia)) as [Hundo Hlen].
    cbn [makeMoves length]. split.
    + rewrite undoMoves_last, Hundo.
      apply undo_make_shape; [exact Hwf|lia|].
      apply legal_is_shaped. exact Hin.
    + rewrite Hlen, makeMove_history. lia.
Qed.

Lemma e4_d5_line : LegalLine startPosition [kingsPawnOpening; centreCounter].
Proof.
  apply line_cons; [apply kingsPawnOpening_legal|].
  apply line_cons; [|apply line_nil].
  vm_compute. do 7 right. left. reflexivity.
Qed.

Lemma undo_whole_line_witness :
  well_formed startPosition /\
  LegalLine startPosition [kingsPawnOpening; centreCounter] /\
  undoMove (undoMove afterE4D5) = startPosition.
Proof.
  split; [apply start_well_formed|]. split; [apply e4_d5_line|].
  apply (undo_whole_line startPosition [kingsPawnOpening; centreCounter]
           start_well_formed);
    [vm_compute; discriminate|vm_compute; reflexivity|apply e4_d5_line].
Defined.

End EngineMore.

(** ** The search *)

Module AiWorkerMore.
Import Engine AiWorker EngineProofs EngineMore.

Lemma sortMoves_In ms m : In m (sortMoves ms) -> In m ms.
Proof.
  unfold sortMoves. intros H. apply in_app_or in H.
  destruct H as [H|H]; apply list_elem_of_In, list_elem_of_filter in H;
    apply list_elem_of_In; tauto.
Qed.

Lemma minimax_restores depth :
  forall gs alpha beta isMaximizing,
    well_formed gs ->
    0 <= fullmoveNumber gs ->
    fullmoveNumber gs + Z.of_nat depth < 2 ^ 53 ->
    snd (minimax depth gs alpha beta isMaximizing) = gs.
Proof.
  induction depth as [|depth IH];
    intros gs alpha beta isMaximizing Hwf H0 Hmax;
    cbn [minimax];
    (destruct (checkmate (gameStatus gs)); [destruct isMaximizing; reflexivity|]);
    (destruct (stalemate (gameStatus gs) || draw (gameStatus gs));
     [reflexivity|]); [reflexivity|].
  assert (Hsub : forall m, In m (sortMoves (generateLegalMoves gs)) ->
                           In m (generateLegalMoves gs))
    by (intros m; apply sortMoves_In).
  generalize dependent (sortMoves (generateLegalMoves gs)). intros ms Hsub.
  assert (Hstep : forall m a b mx,
             In m ms ->
             undoMove (snd (minimax depth (fst (makeMove gs m)) a b mx)) = gs).
  { intros m a b mx Hin. apply Hsub in Hin.
    destruct (makeMove_fullmove gs m (Z.of_nat (S depth)) H0 Hmax ltac:(lia))
      as [H0' Hmax'].
    rewrite IH; [|apply legal_well_formed; assumption|exact H0'|lia].
    apply undo_make_shape; [exact Hwf|lia|].
    apply legal_is_shaped. exact Hin. }
  clear Hsub.
  destruct isMaximizing.
  - generalize NegInf. revert alpha.
    induction ms as [|m ms IHms]; intros alpha e; [reflexivity|].
    pose proof (Hstep m alpha beta false (or_introl eq_refl)) as Hm.
    destruct (minimax depth (fst (makeMove gs m)) alpha beta false)
      as [evalScore gs'] eqn:Hcall.
    cbn [snd] in Hm. rewrite Hm.
    destruct (le beta (max alpha evalScore)); [reflexivity|].
    apply IHms. intros m' a b mx Hin. apply Hstep. right. exact Hin.
  - generalize PosInf. revert beta.
    induction ms as [|m ms IHms]; intros beta e; [reflexivity|].
    pose proof (Hstep m alpha beta true (or_introl eq_refl)) as Hm.
    destruct (minimax depth (fst (makeMove gs m)) alpha beta true)
      as [evalScore gs'] eqn:Hcall.
    cbn [snd] in Hm. rewrite Hm.
    destruct (le (min beta evalScore) alpha); [reflexivity|].
    apply IHms. intros m' a b mx Hin. apply Hstep. right. exact Hin.
Qed.

(** X9: [minimax] leaves the state object as it found it: on a well-formed
    position whose fullmove number stays below [2^53] over the depth
    searched, whatever the window and the side, every [makeMove] of the
    search has been taken back by its [undoMove] when the call returns,
    pruned branches included. *)
Theorem minimax_restores_position (depth : nat) (gs : GameState)
        (alpha beta : Score) (isMaximizing : bool) :
  well_formed gs ->
  0 <= fullmoveNumber gs ->
  fullmoveNumber gs + Z.of_nat depth < 2 ^ 53 ->
  snd (minimax depth gs alpha beta isMaximizing) = gs.
Proof. apply minimax_restores. Qed.

Lemma minimax_restores_position_witness :
  well_formed startPosition /\
  snd (minimax 2 startPosition NegInf PosInf true) = startPosition.
Proof.
  split; [apply start_well_formed|].
  apply (minimax_restores_position 2 startPosition NegInf PosInf true);
    [apply start_well_formed|vm_compute; discriminate|vm_compute; reflexivity].
Defined.

(** *** What the worker posts *)






(** X11: a move the worker posts is one of the legal moves of the position
    the FEN text decodes to. *)
Theorem posted_move_is_legal (fen : string) (depth : nat) (c : Color)
        (m : Move) :
  onmessage fen depth c = Js.Ok (Some m) ->
  exists gs, fenToGameState fen = Js.Ok gs /\ In m (generateLegalMoves gs).
Proof. apply AiWorkerProofs.onmessage_sound. Qed.

Lemma cornered_depth_one :
  onmessage cornered 1 W
  = Js.Ok (Some (mkMove 7 6 (mkPiece "k"%char W) None None false false)).
Proof. vm_compute. reflexivity. Qed.

Lemma posted_move_is_legal_witness :
  exists gs, fenToGameState cornered = Js.Ok gs /\
             In (mkMove 7 6 (mkPiece "k"%char W) None None false false)
                (generateLegalMoves gs).
Proof.
  apply (posted_move_is_legal cornered 1 W). apply cornered_depth_one.
Defined.

(** *** A search of depth 1 *)







End AiWorkerMore.

(** ** The server's engine and its callers *)

Module ServerMore.
Import Server ServerProofs.

Ltac flag_simpl :=
  cbn [board sideToMove castlingRights enPassantSquare halfmoveClock
       fullmoveNumber history lastMove players fen gameOver winner check
       checkmate stalemate draw setFlags recordFen] in *.

(** *** The parts of an accepted submission *)

Lemma makeMove_accepted st pid f t promo r :
  makeMove st pid f t promo = Js.Ok r -> success r = true ->
  exists legal mv ns nl isCheck ended newFen,
    gameOver st = false /\
    playerOf st (sideToMove st) = pid /\
    playerOf st (getOpponentColor (sideToMove st)) <> pid /\
    getLegalMoves st = Js.Ok legal /\
    find (matches f t promo) legal = Some mv /\
    applyMove st mv false = Js.Ok ns /\
    getLegalMoves ns = Js.Ok nl /\
    isKingInCheck ns (sideToMove ns) = Js.Ok isCheck /\
    endOfGame st (setFlags ns (gameOver ns) (winner ns) isCheck
                           (checkmate ns) (stalemate ns) (draw ns))
              nl isCheck = Js.Ok ended /\
    generateFen ended = Js.Ok newFen /\
    r = mkResult true (Some (recordFen ended newFen)) None.
Proof.
  unfold makeMove. intros H Hs.
  destruct (gameOver st) eqn:Hover; [injection H as <-; discriminate|].
  destruct (String.eqb (p_white (players st)) pid) eqn:Hw;
    destruct (String.eqb (p_black (players st)) pid) eqn:Hb;
    destruct (sideToMove st) eqn:Hside;
    cbn [negb andb ChessColor_eqb] in H;
    try (injection H as <-; discriminate).
  all: destruct (getLegalMoves st) as [legal| | |]; cbn [Js.bind] in H;
    try discriminate.
  all: destruct (find (matches f t promo) legal) as [mv|] eqn:Hfind;
    [|injection H as <-; discriminate].
  all: destruct (applyMove st mv false) as [ns| | |] eqn:Happ;
    cbn [Js.bind] in H; try discriminate.
  all: destruct (getLegalMoves ns) as [nl| | |] eqn:Hnl;
    cbn [Js.bind] in H; try discriminate.
  all: destruct (isKingInCheck ns (sideToMove ns)) as [isCheck| | |] eqn:Hchk;
    cbn [Js.bind] in H; try discriminate.
  all: match type of H with
       | Js.bind ?c _ = _ => destruct c as [ended| | |] eqn:Hend
       end; cbn [Js.bind] in H; try discriminate.
  all: destruct (generateFen ended) as [newFen| | |] eqn:Hfen;
    cbn [Js.bind] in H; try discriminate.
  all: injection H as <-.
  all: apply String.eqb_eq in Hw || apply String.eqb_neq in Hw.
  all: apply String.eqb_eq in Hb || apply String.eqb_neq in Hb.
  all: exists legal, mv, ns, nl, isCheck, ended, newFen.
  all: cbn [playerOf getOpponentColor].
  all: repeat (split; [first [reflexivity|assumption]|]).
  all: reflexivity.
Qed.


Lemma matches_spec f t promo m :
  matches f t promo m = true ->
  from m = f /\ to m = t /\
  (forall ty, promotion m = Some ty -> promo = Some ty).
Proof.
  unfold matches. intros H.
  apply andb_true_iff in H. destruct H as [H Hp].
  apply andb_true_iff in H. destruct H as [H Hty].
  apply andb_true_iff in H. destruct H as [H Htx].
  apply andb_true_iff in H. destruct H as [Hfx Hfy].
  apply Z.eqb_eq in Hfx, Hfy, Htx, Hty.
  destruct (from m) as [fx fy], (to m) as [tx ty'], f as [x1 y1], t as [x2 y2].
  cbn [x y] in *. subst. split; [reflexivity|]. split; [reflexivity|].
  intros ty Hpr. rewrite Hpr in Hp.
  destruct promo as [ty0|]; [|discriminate].
  destruct ty, ty0; try discriminate; reflexivity.
Qed.

(** Case analysis on the calls of [applyMove] that succeeded. *)
Ltac applied H :=
  unfold applyMove in H |- *;
  destruct (at_ _ (from _)) as [[piece0|]| | |];
    cbn [Js.bind] in H |- *; try discriminate;
  repeat match type of H with
         | Js.bind ?c _ = _ =>
             destruct c; cbn [Js.bind] in H |- *; try discriminate
         end.

Lemma applyMove_fields st mv ns :
  applyMove st mv false = Js.Ok ns ->
  sideToMove ns = getOpponentColor (sideToMove st) /\
  history ns = history st /\ lastMove ns = Some mv /\
  players ns = players st /\ gameOver ns = gameOver st /\
  winner ns = winner st /\ checkmate ns = checkmate st /\
  stalemate ns = stalemate st /\ draw ns = draw st.
Proof.
  intros H. applied H. injection H as <-. repeat split.
Qed.

Lemma applyMove_modes st mv ns :
  applyMove st mv false = Js.Ok ns ->
  exists ts, applyMove st mv true = Js.Ok ts /\ board ts = board ns.
Proof.
  intros H. applied H. injection H as <-. eexists. split; reflexivity.
Qed.

Lemma filterLegal_In st ms kept mv :
  filterLegal st ms = Js.Ok kept -> In mv kept ->
  In mv ms /\
  exists ts, applyMove st mv true = Js.Ok ts /\
             isKingInCheck ts (sideToMove st) = Js.Ok false.
Proof.
  revert kept. induction ms as [|m rest IH]; intros kept Hk Hin;
    cbn [filterLegal] in Hk.
  - injection Hk as <-. destruct Hin.
  - bind_cases Hk. injection Hk as <-.
    match goal with
    | E : isKingInCheck _ _ = Js.Ok ?b |- _ => destruct b
    end; cbn [negb] in Hin.
    + destruct (IH _ eq_refl Hin) as [Hr Ht].
      split; [right; exact Hr|exact Ht].
    + destruct Hin as [<-|Hin].
      * split; [left; reflexivity|]. eexists. split; eassumption.
      * destruct (IH _ eq_refl Hin) as [Hr Ht].
        split; [right; exact Hr|exact Ht].
Qed.

Lemma getLegalMoves_In st legal mv :
  getLegalMoves st = Js.Ok legal -> In mv legal ->
  exists ts, applyMove st mv true = Js.Ok ts /\
             isKingInCheck ts (sideToMove st) = Js.Ok false.
Proof.
  unfold getLegalMoves. intros H Hin. bind_cases H.
  apply (filterLegal_In _ _ _ _ H Hin).
Qed.

(** *** Check detection reads the board only *)

Lemma existsM_same {A} (f g : A -> Js.Outcome bool) l :
  (forall a, f a = g a) -> Js.existsM f l = Js.existsM g l.
Proof.
  intros H. induction l as [|a l IH]; [reflexivity|].
  cbn [Js.existsM]. rewrite H, IH. reflexivity.
Qed.

Lemma findM_same {A} (f g : A -> Js.Outcome bool) l :
  (forall a, f a = g a) -> Js.findM f l = Js.findM g l.
Proof.
  intros H. induction l as [|a l IH]; [reflexivity|].
  cbn [Js.findM]. rewrite H, IH. reflexivity.
Qed.

Lemma isPieceAt_board a b pos c ty :
  board a = board b -> isPieceAt a pos c ty = isPieceAt b pos c ty.
Proof. intros Hb. unfold isPieceAt, at_. rewrite Hb. reflexivity. Qed.

Lemma attackedAlong_board a b pos dir c ks :
  board a = board b ->
  attackedAlong a pos dir c ks = attackedAlong b pos dir c ks.
Proof.
  intros Hb. induction ks as [|i ks IH]; [reflexivity|].
  cbn [attackedAlong]. unfold at_. rewrite Hb, IH. reflexivity.
Qed.

Lemma isSquareAttacked_board a b pos c :
  board a = board b -> isSquareAttacked a pos c = isSquareAttacked b pos c.
Proof.
  intros Hb. unfold isSquareAttacked. cbv zeta.
  rewrite !(isPieceAt_board a b) by exact Hb.
  f_equal. f_equal.
  - apply existsM_same. intros o.
    rewrite (isPieceAt_board a b) by exact Hb. reflexivity.
  - f_equal.
    + apply existsM_same. intros o. apply attackedAlong_board. exact Hb.
    + apply existsM_same. intros o.
      rewrite (isPieceAt_board a b) by exact Hb. reflexivity.
Qed.

Lemma isKingInCheck_board a b c :
  board a = board b -> isKingInCheck a c = isKingInCheck b c.
Proof.
  intros Hb. unfold isKingInCheck, findKing.
  rewrite (findM_same (fun pos => isPieceAt a pos c king)
                      (fun pos => isPieceAt b pos c king))
    by (intros pos; apply isPieceAt_board; exact Hb).
  destruct (Js.findM _ coords) as [[k|]| | |]; cbn [Js.bind]; try reflexivity.
  apply isSquareAttacked_board. exact Hb.
Qed.

Lemma generateFen_board a b :
  board a = board b -> sideToMove a = sideToMove b ->
  castlingRights a = castlingRights b ->
  enPassantSquare a = enPassantSquare b ->
  halfmoveClock a = halfmoveClock b -> fullmoveNumber a = fullmoveNumber b ->
  generateFen a = generateFen b.
Proof.
  intros Hb Hs Hc He Hh Hf. unfold generateFen.
  rewrite Hs, Hc, He, Hh, Hf.
  assert (Hrow : forall cy xs acc e, fenRow a cy xs acc e = fenRow b cy xs acc e).
  { intros cy xs. induction xs as [|cx xs IH]; intros acc e; [reflexivity|].
    cbn [fenRow]. rewrite Hb.
    destruct (getXY (board b) cx cy) as [[p|]| | |]; cbn [Js.bind];
      try reflexivity; apply IH. }
  assert (Hrows : forall ys acc, fenRows a ys acc = fenRows b ys acc).
  { intros ys. induction ys as [|cy ys IH]; intros acc; [reflexivity|].
    cbn [fenRows]. rewrite Hrow.
    destruct (fenRow b cy _ acc 0); cbn [Js.bind]; try reflexivity. apply IH. }
  rewrite Hrows. reflexivity.
Qed.

Lemma endOfGame_fields st ns nl isCheck ended :
  endOfGame st ns nl isCheck = Js.Ok ended ->
  board ended = board ns /\ sideToMove ended = sideToMove ns /\
  castlingRights ended = castlingRights ns /\
  enPassantSquare ended = enPassantSquare ns /\
  halfmoveClock ended = halfmoveClock ns /\
  fullmoveNumber ended = fullmoveNumber ns /\
  history ended = history ns /\ lastMove ended = lastMove ns /\
  players ended = players ns /\ check ended = check ns.
Proof.
  unfold endOfGame. intros H. destruct nl as [|n0 nl'].
  - injection H as <-. destruct isCheck; repeat split.
  - bind_cases H. injection H as <-.
    match goal with |- context [if ?c then _ else _] => destruct c end;
      repeat split.
Qed.

Lemma endOfGame_flags st ns nl isCheck ended :
  endOfGame st ns nl isCheck = Js.Ok ended ->
  match nl with
  | [] =>
      gameOver ended = true /\
      if isCheck
      then checkmate ended = true /\
           winner ended = Some (playerOf st (sideToMove st)) /\
           stalemate ended = stalemate ns /\ draw ended = draw ns
      else stalemate ended = true /\ draw ended = true /\
           checkmate ended = checkmate ns /\ winner ended = winner ns
  | _ =>
      checkmate ended = checkmate ns /\ stalemate ended = stalemate ns /\
      winner ended = winner ns /\
      ((gameOver ended = true /\ draw ended = true) \/
       (gameOver ended = gameOver ns /\ draw ended = draw ns))
  end.
Proof.
  unfold endOfGame. intros H. destruct nl as [|n0 nl'].
  - injection H as <-. destruct isCheck; flag_simpl; repeat split.
  - bind_cases H. injection H as <-.
    match goal with |- context [if ?c then _ else _] => destruct c end;
      flag_simpl; repeat split; auto.
Qed.


Lemma recordFen_generateFen st f : generateFen (recordFen st f) = generateFen st.
Proof. apply generateFen_board; reflexivity. Qed.

Lemma accepted_report st pid f t promo r :
  makeMove st pid f t promo = Js.Ok r -> success r = true ->
  exists st' mv legal,
    gameState r = Some st' /\ error r = None /\
    gameOver st = false /\
    playerOf st (sideToMove st) = pid /\
    playerOf st (getOpponentColor (sideToMove st)) <> pid /\
    getLegalMoves st = Js.Ok legal /\ In mv legal /\
    from mv = f /\ to mv = t /\
    (forall ty, promotion mv = Some ty -> promo = Some ty) /\
    lastMove st' = Some mv /\
    sideToMove st' = getOpponentColor (sideToMove st) /\
    players st' = players st /\
    generateFen st' = Js.Ok (fen st') /\
    history st' = history st ++ [fen st'].
Proof.
  intros H Hs.
  destruct (makeMove_accepted st pid f t promo r H Hs)
    as (legal & mv & ns & nl & isCheck & ended & newFen & Hover & Hme & Hopp
        & Hlegal & Hfind & Happ & Hnl & Hchk & Hend & Hfen & ->).
  destruct (find_some _ _ Hfind) as [Hin Hmatch].
  destruct (matches_spec f t promo mv Hmatch) as (Hf & Ht & Hpromo).
  destruct (applyMove_fields st mv ns Happ)
    as (Hside & Hhist & Hlast & Hplayers & _).
  destruct (endOfGame_fields _ _ _ _ _ Hend)
    as (_ & Hside' & _ & _ & _ & _ & Hhist' & Hlast' & Hplayers' & _).
  exists (recordFen ended newFen), mv, legal.
  cbn [gameState error recordFen lastMove sideToMove players fen history].
  rewrite recordFen_generateFen, Hlast', Hside', Hplayers', Hhist'.
  cbn [setFlags lastMove sideToMove players history].
  rewrite Hlast, Hside, Hplayers, Hhist.
  repeat (split; [first [reflexivity|assumption]|]). reflexivity.
Qed.

(** X13: what an accepted submission tells: the game was running, the
    submitter holds the side to move and not the other one, the move made is
    a legal move with the submitted squares (and promotion piece, if any),
    the turn has passed to the opponent, and the returned state carries its
    own FEN text, appended to the history. *)
Theorem accepted_move_is_reported (st : ChessGameState) (pid : string)
        (f t : ChessCoord) (promo : option ChessPieceType) (r : MoveResult) :
  makeMove st pid f t promo = Js.Ok r -> success r = true ->
  exists st' mv legal,
    gameState r = Some st' /\ error r = None /\
    gameOver st = false /\
    playerOf st (sideToMove st) = pid /\
    playerOf st (getOpponentColor (sideToMove st)) <> pid /\
    getLegalMoves st = Js.Ok legal /\ In mv legal /\
    from mv = f /\ to mv = t /\
    (forall ty, promotion mv = Some ty -> promo = Some ty) /\
    lastMove st' = Some mv /\
    sideToMove st' = getOpponentColor (sideToMove st) /\
    players st' = players st /\
    generateFen st' = Js.Ok (fen st') /\
    history st' = history st ++ [fen st'].
Proof. apply accepted_report. Qed.

Lemma opening_accepted :
  makeMove startGame "white-player" e2 e4 None = Js.Ok openingResult.
Proof. vm_compute. reflexivity. Qed.

Lemma opening_success : success openingResult = true.
Proof. vm_compute. reflexivity. Qed.

Lemma accepted_move_is_reported_witness :
  makeMove startGame "white-player" e2 e4 None = Js.Ok openingResult /\
  success openingResult = true /\
  exists st', gameState openingResult = Some st' /\
              sideToMove st' = black /\
              history st' = [fen st'].
Proof.
  split; [apply opening_accepted|]. split; [apply opening_success|].
  destruct (accepted_move_is_reported startGame "white-player" e2 e4 None
              openingResult opening_accepted opening_success)
    as (st' & mv & legal & Hst & _ & _ & _ & _ & _ & _ & _ & _ & _ & _
        & Hside & _ & _ & Hhist).
  exists st'. split; [exact Hst|]. split; [exact Hside|exact Hhist].
Defined.

Lemma accepted_king_safe st pid f t promo r :
  makeMove st pid f t promo = Js.Ok r -> success r = true ->
  exists st',
    gameState r = Some st' /\
    isKingInCheck st' (sideToMove st) = Js.Ok false /\
    isKingInCheck st' (sideToMove st') = Js.Ok (check st').
Proof.
  intros H Hs.
  destruct (makeMove_accepted st pid f t promo r H Hs)
    as (legal & mv & ns & nl & isCheck & ended & newFen & Hover & Hme & Hopp
        & Hlegal & Hfind & Happ & Hnl & Hchk & Hend & Hfen & ->).
  destruct (find_some _ _ Hfind) as [Hin _].
  destruct (getLegalMoves_In st legal mv Hlegal Hin) as (ts & Hts & Hsafe).
  destruct (applyMove_modes st mv ns Happ) as (ts' & Hts' & Hboard).
  rewrite Hts in Hts'. injection Hts' as <-.
  destruct (endOfGame_fields _ _ _ _ _ Hend)
    as (Hb & Hside' & _ & _ & _ & _ & _ & _ & _ & Hcheck).
  exists (recordFen ended newFen). split; [reflexivity|].
  assert (Hbd : board (recordFen ended newFen) = board ns)
    by (cbn [recordFen board]; rewrite Hb; reflexivity).
  split.
  - rewrite (isKingInCheck_board _ ts) by (rewrite Hbd, Hboard; reflexivity).
    exact Hsafe.
  - rewrite (isKingInCheck_board _ ns) by exact Hbd.
    cbn [recordFen sideToMove check]. rewrite Hside', Hcheck. exact Hchk.
Qed.

(** X14: in the state an accepted submission returns, the king of the
    side that moved is on the board and not attacked, and the [check] field
    says whether the king of the side now to move is. *)
Theorem accepted_move_leaves_king_safe (st : ChessGameState) (pid : string)
        (f t : ChessCoord) (promo : option ChessPieceType) (r : MoveResult) :
  makeMove st pid f t promo = Js.Ok r -> success r = true ->
  exists st',
    gameState r = Some st' /\
    isKingInCheck st' (sideToMove st) = Js.Ok false /\
    isKingInCheck st' (sideToMove st') = Js.Ok (check st').
Proof. apply accepted_king_safe. Qed.

Lemma accepted_move_leaves_king_safe_witness :
  makeMove startGame "white-player" e2 e4 None = Js.Ok openingResult /\
  success openingResult = true /\
  exists st', gameState openingResult = Some st' /\
              isKingInCheck st' white = Js.Ok false.
Proof.
  split; [apply opening_accepted|]. split; [apply opening_success|].
  destruct (accepted_move_leaves_king_safe startGame "white-player" e2 e4
              None openingResult opening_accepted opening_success)
    as (st' & Hst & Hsafe & _).
  exists st'. split; [exact Hst|exact Hsafe].
Defined.

Lemma accepted_flags st pid f t promo r :
  flagsOK st ->
  makeMove st pid f t promo = Js.Ok r -> success r = true ->
  exists st',
    gameState r = Some st' /\ flagsOK st' /\
    (checkmate st' = true -> winner st' = Some pid) /\
    (gameOver st' = true <-> checkmate st' = true \/ draw st' = true).
Proof.
  intros Hok H Hs.
  destruct (makeMove_accepted st pid f t promo r H Hs)
    as (legal & mv & ns & nl & isCheck & ended & newFen & Hover & Hme & Hopp
        & Hlegal & Hfind & Happ & Hnl & Hchk & Hend & Hfen & ->).
  destruct (fl_running st Hok Hover) as (Hmate & Hstale & Hdraw & Hwin).
  destruct (applyMove_fields st mv ns Happ)
    as (_ & _ & _ & _ & Hover' & Hwin' & Hmate' & Hstale' & Hdraw').
  rewrite Hover in Hover'. rewrite Hwin in Hwin'. rewrite Hmate in Hmate'.
  rewrite Hstale in Hstale'. rewrite Hdraw in Hdraw'.
  destruct (endOfGame_fields _ _ _ _ _ Hend)
    as (_ & _ & _ & _ & _ & _ & _ & _ & _ & Hcheck).
  pose proof (endOfGame_flags _ _ _ _ _ Hend) as Hflags.
  cbn [setFlags check checkmate stalemate draw winner gameOver] in Hcheck, Hflags.
  rewrite Hwin', Hmate', Hstale', Hdraw' in Hflags.
  exists (recordFen ended newFen). split; [reflexivity|].
  assert (Hall :
    flagsOK ended /\
    (checkmate ended = true -> winner ended = Some pid) /\
    (gameOver ended = true <-> checkmate ended = true \/ draw ended = true)).
  { destruct nl as [|n0 nl'].
    - destruct Hflags as [Hg Hflags]. destruct isCheck.
      + destruct Hflags as (Hm & Hw & Hs' & Hd).
        split; [constructor; rewrite ?Hg, ?Hm, ?Hw, ?Hs', ?Hd, ?Hcheck;
                intros; try discriminate; repeat split; congruence|].
        split; [intros _; rewrite Hw, Hme; reflexivity|].
        rewrite Hg, Hm. tauto.
      + destruct Hflags as (Hs' & Hd & Hm & Hw).
        split; [constructor; rewrite ?Hg, ?Hm, ?Hw, ?Hs', ?Hd, ?Hcheck;
                intros; try discriminate; repeat split; congruence|].
        split; [rewrite Hm; discriminate|].
        rewrite Hg, Hd. tauto.
    - destruct Hflags as (Hm & Hs' & Hw & [[Hg Hd]|[Hg Hd]]).
      + split; [constructor; rewrite ?Hg, ?Hm, ?Hw, ?Hs', ?Hd, ?Hcheck;
                intros; try discriminate; repeat split; congruence|].
        split; [rewrite Hm; discriminate|].
        rewrite Hg, Hd. tauto.
      + rewrite Hover' in Hg.
        split; [constructor; rewrite ?Hg, ?Hm, ?Hw, ?Hs', ?Hd, ?Hcheck;
                intros; try discriminate; repeat split; congruence|].
        split; [rewrite Hm; discriminate|].
        rewrite Hg, Hm, Hd. split; [discriminate|intros [|]; discriminate]. }
  destruct Hall as (Hok' & Hwinner & Hiff).
  split; [|split; [exact Hwinner|exact Hiff]].
  destruct Hok' as [R1 R2 R3 R4]. constructor; assumption.
Qed.

(** X15: the end-of-game fields stay consistent under accepted moves: a
    running game has no winner, no draw and no mate flag; checkmate comes
    with check and a winner and without a draw; stalemate is a draw without
    check; a draw has no winner.  The winner of a checkmate is the player
    who moved, and the game is over exactly when it is mate or drawn. *)
Theorem accepted_move_keeps_flags_consistent (st : ChessGameState)
        (pid : string) (f t : ChessCoord) (promo : option ChessPieceType)
        (r : MoveResult) :
  flagsOK st ->
  makeMove st pid f t promo = Js.Ok r -> success r = true ->
  exists st',
    gameState r = Some st' /\ flagsOK st' /\
    (checkmate st' = true -> winner st' = Some pid) /\
    (gameOver st' = true <-> checkmate st' = true \/ draw st' = true).
Proof. apply accepted_flags. Qed.

Lemma startGame_flagsOK : flagsOK startGame.
Proof. constructor; cbn; intros; try discriminate; repeat split. Qed.

Lemma accepted_move_keeps_flags_consistent_witness :
  flagsOK startGame /\
  makeMove startGame "white-player" e2 e4 None = Js.Ok openingResult /\
  success openingResult = true /\
  exists st', gameState openingResult = Some st' /\ flagsOK st'.
Proof.
  split; [apply startGame_flagsOK|].
  split; [apply opening_accepted|]. split; [apply opening_success|].
  destruct (accepted_move_keeps_flags_consistent startGame "white-player"
              e2 e4 None openingResult startGame_flagsOK opening_accepted
              opening_success) as (st' & Hst & Hok & _).
  exists st'. split; [exact Hst|exact Hok].
Defined.


(** *** The submitted object *)

Lemma accepted_store h h' g pid f t promo r :
  Store.makeMove g pid f t promo h = (Js.Ok r, h') ->
  Store.success r = true ->
  (forall l o, h !! l = Some o -> h' !! l = Some o) /\
  exists l st st',
    Store.gameState r = Some l /\ (length h <= l)%nat /\
    h !! g = Some st /\ h' !! l = Some st' /\
    makeMove st pid f t promo = Js.Ok (mkResult true (Some st') None) /\
    exists h'' r2,
      Store.makeMove g pid f t promo h' = (Js.Ok r2, h'') /\
      Store.success r2 = true /\
      exists l2, Store.gameState r2 = Some l2 /\ h'' !! l2 = Some st'.
Proof.
  intros Hrun Hs.
  destruct (h !! g) as [st|] eqn:Hg;
    [|unfold Store.makeMove, Store.bind, Store.deref in Hrun;
      rewrite Hg in Hrun; discriminate].
  destruct (makeMove_run g st pid f t promo h Hg)
    as (o' & h0 & Hrun0 & Hkeep & Href).
  rewrite Hrun in Hrun0. injection Hrun0 as <- <-.
  assert (Hframe : forall l o, h !! l = Some o -> h' !! l = Some o).
  { intros l o Ho.
    apply (keeps_lookup _ _ _ _ _ Hkeep (lookup_lt_Some _ _ _ Ho) Ho). }
  split; [exact Hframe|].
  unfold Store.refines in Href.
  destruct (makeMove st pid f t promo) as [r0|msg| |] eqn:Hpure;
    try discriminate.
  destruct Href as (r' & Hr' & Hsucc & Herr & Hstate).
  injection Hr' as <-. rewrite Hs in Hsucc. symmetry in Hsucc.
  destruct (makeMove_accepted st pid f t promo r0 Hpure Hsucc)
    as (legal & mv & ns & nl & isCheck & ended & newFen & _ & _ & _
        & _ & _ & _ & _ & _ & _ & _ & ->).
  cbn [gameState] in Hstate. destruct Hstate as (l & Hl & Hnew & Hat).
  exists l, st, (recordFen ended newFen).
  split; [exact Hl|]. split; [exact Hnew|]. split; [reflexivity|].
  split; [exact Hat|]. split; [exact Hpure|].
  destruct (makeMove_run g st pid f t promo h' (Hframe _ _ Hg))
    as (o2 & h'' & Hrun2 & Hkeep2 & Href2).
  unfold Store.refines in Href2. rewrite Hpure in Href2.
  destruct Href2 as (r2 & -> & Hsucc2 & _ & Hstate2).
  cbn [gameState success] in Hstate2, Hsucc2.
  destruct Hstate2 as (l2 & Hl2 & _ & Hat2).
  exists h'', r2. split; [exact Hrun2|]. split; [exact Hsucc2|].
  exists l2. split; [exact Hl2|exact Hat2].
Qed.

(** X16: an accepted submission does not advance the submitted object
    either.  The new state is a new object, at an address the store did not
    have; every object that was there, the submitted game state among them,
    is as it was; so the same submission made again on the same object is
    accepted again and yields the same new state.  A caller has to keep the
    returned state for the game to go on. *)
Theorem accepted_move_returns_new_object
        (h h' : Store.Heap) (gameState : Store.Ref) (pid : string)
        (f t : ChessCoord) (promo : option ChessPieceType)
        (r : Store.MoveResult) :
  Store.makeMove gameState pid f t promo h = (Js.Ok r, h') ->
  Store.success r = true ->
  (forall l o, h !! l = Some o -> h' !! l = Some o) /\
  exists l st st',
    Store.gameState r = Some l /\ (length h <= l)%nat /\
    h !! gameState = Some st /\ h' !! l = Some st' /\
    makeMove st pid f t promo = Js.Ok (mkResult true (Some st') None) /\
    exists h'' r2,
      Store.makeMove gameState pid f t promo h' = (Js.Ok r2, h'') /\
      Store.success r2 = true /\
      exists l2, Store.gameState r2 = Some l2 /\ h'' !! l2 = Some st'.
Proof. apply accepted_store. Qed.

Lemma opening_on_store :
  fst (Store.makeMove 0%nat "white-player" e2 e4 None [startGame])
  = Js.Ok (Store.mkResult true (Some 21%nat) None).
Proof. vm_compute. reflexivity. Qed.

Lemma accepted_move_returns_new_object_witness :
  let h' := snd (Store.makeMove 0%nat "white-player" e2 e4 None [startGame]) in
  Store.makeMove 0%nat "white-player" e2 e4 None [startGame]
  = (Js.Ok (Store.mkResult true (Some 21%nat) None), h') /\
  h' !! 0%nat = Some startGame.
Proof.
  intros h'.
  assert (Hrun : Store.makeMove 0%nat "white-player" e2 e4 None [startGame]
                 = (Js.Ok (Store.mkResult true (Some 21%nat) None), h'))
    by exact (pair_with_fst
                (Store.makeMove 0%nat "white-player" e2 e4 None [startGame])
                _ opening_on_store).
  split; [exact Hrun|].
  pose proof (accepted_move_returns_new_object [startGame] h' 0%nat
                "white-player" e2 e4 None _ Hrun eq_refl) as [Hframe _].
  exact (Hframe 0%nat startGame eq_refl).
Defined.

Lemma resign_store h h' g pid res :
  Store.resignGame g pid h = (Js.Ok res, h') ->
  Store.r_success res = true ->
  exists st w,
    h !! g = Some st /\ gameOver st = false /\
    (w = p_black (players st) /\ p_white (players st) = pid \/
     w = p_white (players st) /\ p_white (players st) <> pid /\
     p_black (players st) = pid) /\
    Store.r_winner res = Some w /\
    h' = <[g := setFlags st true (Some w) (check st) (checkmate st)
                         (stalemate st) false]> h /\
    (forall pid' f t promo,
       Store.makeMove g pid' f t promo h'
       = (Js.Ok (Store.reject "Game is over"), h')) /\
    (forall pid',
       Store.resignGame g pid' h'
       = (Js.Ok (Store.mkResign false None (Some "Game is already over"%string)),
          h')).
Proof.
  unfold Store.resignGame at 1. unfold Store.bind at 1. unfold Store.deref at 1.
  intros Hrun Hs.
  destruct (h !! g) as [st|] eqn:Hg; [|discriminate].
  destruct (gameOver st) eqn:Hover;
    [injection Hrun as <- <-; discriminate|].
  destruct (String.eqb (p_white (players st)) pid) eqn:Hw;
    destruct (String.eqb (p_black (players st)) pid) eqn:Hb;
    cbn [negb andb] in Hrun;
    try (injection Hrun as <- <-; discriminate).
  all: unfold Store.bind, Store.update, Store.ret in Hrun; rewrite Hg in Hrun.
  all: injection Hrun as <- <-.
  all: apply String.eqb_eq in Hw || apply String.eqb_neq in Hw.
  all: apply String.eqb_eq in Hb || apply String.eqb_neq in Hb.
  all: pose proof (lookup_lt_Some _ _ _ Hg) as Hlt.
  all: eexists st, _.
  all: split; [reflexivity|]. all: split; [exact Hover|].
  all: split; [first [left; split; [reflexivity|assumption]
                     |right; repeat split; assumption]|].
  all: split; [reflexivity|]. all: split; [reflexivity|].
  all: split;
    [intros pid' f t promo; unfold Store.makeMove, Store.bind, Store.deref;
     rewrite list_lookup_insert_eq by exact Hlt; reflexivity
    |intros pid'; unfold Store.resignGame, Store.bind, Store.deref;
     rewrite list_lookup_insert_eq by exact Hlt; reflexivity].
Qed.

(** X17: a resignation that succeeds is written into the submitted object
    itself: the game was running and is now over, won by the opponent of
    the player who resigned, with [draw] cleared and nothing else changed;
    from then on every move submitted against that object is rejected with
    'Game is over', and every further resignation with 'Game is already
    over', both leaving the store as it is. *)
Theorem resignation_ends_the_game
        (h h' : Store.Heap) (gameState : Store.Ref) (pid : string)
        (res : Store.ResignResult) :
  Store.resignGame gameState pid h = (Js.Ok res, h') ->
  Store.r_success res = true ->
  exists st w,
    h !! gameState = Some st /\ gameOver st = false /\
    (w = p_black (players st) /\ p_white (players st) = pid \/
     w = p_white (players st) /\ p_white (players st) <> pid /\
     p_black (players st) = pid) /\
    Store.r_winner res = Some w /\
    h' = <[gameState := setFlags st true (Some w) (check st) (checkmate st)
                                 (stalemate st) false]> h /\
    (forall pid' f t promo,
       Store.makeMove gameState pid' f t promo h'
       = (Js.Ok (Store.reject "Game is over"), h')) /\
    (forall pid',
       Store.resignGame gameState pid' h'
       = (Js.Ok (Store.mkResign false None (Some "Game is already over"%string)),
          h')).
Proof. apply resign_store. Qed.

Lemma resignation_ends_the_game_witness :
  let res := Store.mkResign true (Some "white-player"%string) None in
  let h' := [setFlags startGame true (Some "white-player"%string)
                      false false false false] in
  Store.resignGame 0%nat "black-player" [startGame] = (Js.Ok res, h') /\
  Store.makeMove 0%nat "white-player" e2 e4 None h'
  = (Js.Ok (Store.reject "Game is over"), h').
Proof.
  intros res h'.
  assert (Hrun : Store.resignGame 0%nat "black-player" [startGame]
                 = (Js.Ok res, h')) by reflexivity.
  split; [exact Hrun|].
  destruct (resignation_ends_the_game [startGame] h' 0%nat "black-player" res
              Hrun eq_refl) as (st & w & _ & _ & _ & _ & _ & Hmove & _).
  apply Hmove.
Defined.

(** *** Square names *)

Lemma algebraic_there_and_back c :
  isValidPos c = true ->
  fromAlgebraic (toAlgebraic c) = (Some (x c), Some (y c)).
Proof.
  destruct c as [cx cy]. unfold isValidPos. cbn [x y]. intros H.
  apply andb_true_iff in H. destruct H as [H Hy8].
  apply andb_true_iff in H. destruct H as [H Hy0].
  apply andb_true_iff in H. destruct H as [Hx0 Hx8].
  assert (Hx : cx = 0 \/ cx = 1 \/ cx = 2 \/ cx = 3 \/
               cx = 4 \/ cx = 5 \/ cx = 6 \/ cx = 7) by lia.
  assert (Hy : cy = 0 \/ cy = 1 \/ cy = 2 \/ cy = 3 \/
               cy = 4 \/ cy = 5 \/ cy = 6 \/ cy = 7) by lia.
  repeat (destruct Hx as [->|Hx]); try subst cx;
    repeat (destruct Hy as [->|Hy]); try subst cy; reflexivity.
Qed.

(** X18: on the board, [fromAlgebraic] reads back the square that
    [toAlgebraic] names, with no NaN coordinate. *)
Theorem server_square_name_round_trip (c : ChessCoord) :
  isValidPos c = true ->
  fromAlgebraic (toAlgebraic c) = (Some (x c), Some (y c)).
Proof. apply algebraic_there_and_back. Qed.

Lemma server_square_name_round_trip_witness :
  toAlgebraic e4 = "e4"%string /\
  fromAlgebraic (toAlgebraic e4) = (Some 4, Some 4).
Proof.
  split; [reflexivity|].
  apply (server_square_name_round_trip e4). reflexivity.
Defined.

End ServerMore.

(** ** The server engine raises nothing in a game *)

Module ServerSafe.
Import Server ServerProofs ServerMore.

(** *** The moves the generators make *)

Lemma flatMapM_In {A B} (f : A -> Js.Outcome (list B)) l :
  forall ys y, Js.flatMapM f l = Js.Ok ys -> In y ys ->
               exists a xs, In a l /\ f a = Js.Ok xs /\ In y xs.
Proof.
  induction l as [|a l IH]; intros ys y H Hin; cbn [Js.flatMapM] in H.
  - injection H as <-. destruct Hin.
  - bind_cases H. injection H as <-.
    apply in_app_or in Hin. destruct Hin as [Hin|Hin].
    + eexists a, _. split; [left; reflexivity|]. split; eassumption.
    + destruct (IH _ y eq_refl Hin) as (a' & xs & Ha & Hf & Hy).
      exists a', xs. split; [right; exact Ha|]. split; assumption.
Qed.

Lemma valid_range pos :
  isValidPos pos = true <-> 0 <= x pos < 8 /\ 0 <= y pos < 8.
Proof. unfold isValidPos. rewrite !andb_true_iff. lia. Qed.

Lemma simple_facts st c f t p cap :
  isValidPos f = true -> isValidPos t = true ->
  at_ st f = Js.Ok (Some p) -> color p = c ->
  at_ st t = Js.Ok cap ->
  (type p = pawn -> Z.abs (y t - y f) = 2 -> y f + y t = 10 \/ y f + y t = 4) ->
  MoveFacts st c (simpleMove f t p cap).
Proof.
  intros Hf Ht Hp Hc Hcap Hdbl. constructor; cbn [simpleMove from to];
    try assumption.
  exists p. split; [exact Hp|]. split; [exact Hc|].
  apply kind_plain; cbn [from to isEnPassant isCastle capture promotion];
    try reflexivity; try assumption.
  intros ty Hty. discriminate.
Qed.

Lemma promotion_facts st c f t p cap mv :
  isValidPos f = true -> isValidPos t = true ->
  at_ st f = Js.Ok (Some p) -> color p = c -> type p = pawn ->
  at_ st t = Js.Ok cap -> Z.abs (y t - y f) = 1 ->
  In mv (addPromotionMoves f t p cap) ->
  MoveFacts st c mv.
Proof.
  intros Hf Ht Hp Hc Hty Hcap Hstep Hin. unfold addPromotionMoves in Hin.
  apply in_map_iff in Hin. destruct Hin as [ty [<- Hin]].
  constructor; cbn [from to]; try assumption.
  exists p. split; [exact Hp|]. split; [exact Hc|].
  apply kind_plain; cbn [from to isEnPassant isCastle capture promotion];
    try reflexivity; try assumption.
  - intros ty' [= <-]. split; [exact Hty|exact Hin].
  - intros _ H2. lia.
Qed.

Lemma stepMoves_facts st f p offsets ms mv :
  isValidPos f = true -> at_ st f = Js.Ok (Some p) -> type p <> pawn ->
  generateStepMoves st f p offsets = Js.Ok ms -> In mv ms ->
  MoveFacts st (color p) mv.
Proof.
  intros Hf Hp Hty Hgen Hin. unfold generateStepMoves in Hgen.
  destruct (flatMapM_In _ _ _ _ Hgen Hin) as (off & xs & _ & Hoff & Hmv).
  cbv beta zeta in Hoff.
  match type of Hoff with
  | context [isValidPos ?t] => destruct (isValidPos t) eqn:Ht
  end; [|injection Hoff as <-; destruct Hmv].
  bind_cases Hoff. injection Hoff as <-.
  match goal with
  | E : at_ st _ = Js.Ok ?sq |- _ => destruct sq as [target|]
  end.
  - destruct (negb _); [|destruct Hmv].
    destruct Hmv as [<-|[]].
    apply simple_facts; try assumption; try reflexivity.
    intros Hpawn. contradiction.
  - destruct Hmv as [<-|[]].
    apply simple_facts; try assumption; try reflexivity.
    intros Hpawn. contradiction.
Qed.

Lemma slideAlong_facts st f p dir ks :
  isValidPos f = true -> at_ st f = Js.Ok (Some p) -> type p <> pawn ->
  forall ms mv, slideAlong st f p dir ks = Js.Ok ms -> In mv ms ->
                MoveFacts st (color p) mv.
Proof.
  intros Hf Hp Hty. induction ks as [|i ks IH]; intros ms mv Hgen Hin;
    cbn [slideAlong] in Hgen.
  - injection Hgen as <-. destruct Hin.
  - cbv beta zeta in Hgen.
    match type of Hgen with
    | context [isValidPos ?t] => destruct (isValidPos t) eqn:Ht
    end; cbn [negb] in Hgen; [|injection Hgen as <-; destruct Hin].
    bind_cases Hgen.
    match goal with
    | E : at_ st _ = Js.Ok ?sq |- _ => destruct sq as [target|]
    end.
    + injection Hgen as <-. destruct (negb _); [|destruct Hin].
      destruct Hin as [<-|[]].
      apply simple_facts; try assumption; try reflexivity.
      intros Hpawn. contradiction.
    + bind_cases Hgen. injection Hgen as <-.
      destruct Hin as [<-|Hin].
      * apply simple_facts; try assumption; try reflexivity.
        intros Hpawn. contradiction.
      * apply (IH _ _ eq_refl Hin).
Qed.

Lemma slidingMoves_facts st f p ms mv :
  isValidPos f = true -> at_ st f = Js.Ok (Some p) -> type p <> pawn ->
  generateSlidingMoves st f p = Js.Ok ms -> In mv ms ->
  MoveFacts st (color p) mv.
Proof.
  intros Hf Hp Hty Hgen Hin. unfold generateSlidingMoves in Hgen.
  cbv zeta in Hgen.
  destruct (flatMapM_In _ _ _ _ Hgen Hin) as (dir & xs & _ & Hdir & Hmv).
  apply (slideAlong_facts st f p dir steps Hf Hp Hty xs mv Hdir Hmv).
Qed.

Lemma andM_true a b : Js.andM a b = Js.Ok true -> a = Js.Ok true.
Proof.
  unfold Js.andM. destruct a as [[|]| | |]; cbn [Js.bind]; intros H;
    try discriminate; reflexivity.
Qed.

Lemma kingMoves_facts st f p ms mv :
  isValidPos f = true -> at_ st f = Js.Ok (Some p) -> type p = king ->
  generateKingMoves st f p = Js.Ok ms -> In mv ms ->
  MoveFacts st (color p) mv.
Proof.
  intros Hf Hp Hty Hgen Hin. unfold generateKingMoves in Hgen.
  bind_cases Hgen. injection Hgen as <-.
  apply in_app_or in Hin. destruct Hin as [Hin|Hin].
  { eapply stepMoves_facts; try eassumption. rewrite Hty. discriminate. }
  match goal with
  | E : Js.bind (Js.andM _ _) _ = Js.Ok _ |- _ => rename E into Hc
  end.
  bind_cases Hc.
  match goal with
  | E : Js.andM (Js.Ok (negb (hasMoved p))) _ = Js.Ok ?b |- _ =>
      destruct b; [apply andM_true in E; injection E as Hmoved
                  |injection Hc as <-; destruct Hin]
  end.
  apply negb_true_iff in Hmoved.
  cbv zeta in Hc. bind_cases Hc. injection Hc as <-.
  assert (Hcastle : forall side,
    rightOf (castlingRights st) (color p) side = true ->
    MoveFacts st (color p)
      (mkMove f (mkCoord match side with kingSide => 6 | queenSide => 2 end
                         (homeRow (color p)))
              (id p) None None false (Some side))).
  { intros side Hright. constructor; cbn [from to]; [exact Hf| |].
    - destruct side, (color p); reflexivity.
    - exists p. split; [exact Hp|]. split; [reflexivity|].
      apply (kind_castle _ _ _ side); try reflexivity; assumption. }
  apply in_app_or in Hin. destruct Hin as [Hin|Hin].
  - match goal with
    | E : Js.andM (Js.Ok ?r) _ = Js.Ok ?b |- _ =>
        match type of Hin with context [if b then _ else _] =>
          destruct b; [apply andM_true in E; injection E as Hright
                      |destruct Hin]
        end
    end.
    destruct Hin as [<-|[]].
    specialize (Hcastle kingSide). unfold homeRow in Hcastle.
    destruct (color p); apply Hcastle; exact Hright.
  - match goal with
    | E : Js.andM (Js.Ok ?r) _ = Js.Ok ?b |- _ =>
        match type of Hin with context [if b then _ else _] =>
          destruct b; [apply andM_true in E; injection E as Hright
                      |destruct Hin]
        end
    end.
    destruct Hin as [<-|[]].
    specialize (Hcastle queenSide). unfold homeRow in Hcastle.
    destruct (color p); apply Hcastle; exact Hright.
Qed.


Ltac by_promotion H :=
  match type of H with
  | In _ (addPromotionMoves ?f ?t ?p ?cap) =>
      apply (promotion_facts _ (color p) f t p cap)
  end.

Lemma coord_eq (a b : ChessCoord) : x a = x b -> y a = y b -> a = b.
Proof. destruct a, b. cbn. intros -> ->. reflexivity. Qed.

Lemma enPassant_facts st f p t mv ms :
  isValidPos f = true -> isValidPos t = true ->
  at_ st f = Js.Ok (Some p) -> type p = pawn ->
  Z.abs (y t - y f) = 1 ->
  match enPassantSquare st with
  | Some ep =>
      if (x t =? x ep) && (y t =? y ep) then
        let* capturedPawn := getXY (board st) (x t) (y f) in
        Js.Ok match capturedPawn with
              | Some capturedPawn =>
                  if negb (ChessColor_eqb (color capturedPawn) (color p))
                  then [mkMove f t (id p) (Some capturedPawn) None true None]
                  else []
              | None => []
              end
      else Js.Ok []
  | None => Js.Ok []
  end = Js.Ok ms ->
  In mv ms -> MoveFacts st (color p) mv.
Proof.
  intros Hf Ht Hp Hty Hstep Hgen Hin.
  destruct (enPassantSquare st) as [ep|] eqn:Hep;
    [|injection Hgen as <-; destruct Hin].
  destruct ((x t =? x ep) && (y t =? y ep)) eqn:Heq;
    [|injection Hgen as <-; destruct Hin].
  apply andb_true_iff in Heq. destruct Heq as [Hx Hy].
  apply Z.eqb_eq in Hx, Hy.
  bind_cases Hgen. injection Hgen as <-.
  match goal with
  | E : getXY _ _ _ = Js.Ok ?sq |- _ => destruct sq as [cp|]; [|destruct Hin]
  end.
  destruct (negb _); [|destruct Hin]. destruct Hin as [<-|[]].
  constructor; cbn [from to]; try assumption.
  exists p. split; [exact Hp|]. split; [reflexivity|].
  apply kind_enPassant;
    cbn [from to isEnPassant isCastle capture promotion];
    try reflexivity; try assumption.
  rewrite Hep. f_equal. symmetry. apply coord_eq; assumption.
Qed.

Lemma pawnMoves_facts st f p ms mv :
  isValidPos f = true -> at_ st f = Js.Ok (Some p) -> type p = pawn ->
  generatePawnMoves st f p = Js.Ok ms -> In mv ms ->
  MoveFacts st (color p) mv.
Proof.
  intros Hf Hp Hty Hgen Hin. unfold generatePawnMoves in Hgen.
  cbv zeta in Hgen.
  set (direction := match color p with white => -1 | black => 1 end) in *.
  set (startRank := match color p with white => 6 | black => 1 end) in *.
  set (promotionRank := match color p with white => 0 | black => 7 end) in *.
  assert (Hdir : direction = 1 \/ direction = -1)
    by (subst direction; destruct (color p); auto).
  pose proof (proj1 (valid_range f) Hf) as Hfr.
  bind_cases Hgen. injection Hgen as <-.
  apply in_app_or in Hin. destruct Hin as [Hin|Hin].
  - (* forward *)
    match goal with
    | E : (if isValidPos ?t then _ else _) = Js.Ok _ |- _ =>
        rename E into Hfw; destruct (isValidPos t) eqn:Ht1;
          [|injection Hfw as <-; destruct Hin]
    end.
    bind_cases Hfw.
    match goal with
    | E : at_ st _ = Js.Ok ?sq |- _ =>
        rename E into Hsq1; destruct sq as [blocker|];
          cbn [Engine.isSome negb] in Hfw;
          [injection Hfw as <-; destruct Hin|]
    end.
    cbn [y x] in Hfw.
    destruct (y f + direction =? promotionRank).
    + injection Hfw as <-.
      by_promotion Hin; try assumption; try reflexivity.
      cbn [y]. lia.
    + bind_cases Hfw. injection Hfw as <-.
      destruct Hin as [<-|Hin].
      * apply simple_facts; try assumption; try reflexivity.
        cbn [y]. intros _ H2. lia.
      * match goal with
        | E : (if _ =? startRank then _ else _) = Js.Ok _ |- _ =>
            rename E into Htwo
        end.
        destruct (Z.eqb_spec (y f) startRank) as [Hstart|Hstart];
          [|injection Htwo as <-; destruct Hin].
        bind_cases Htwo. injection Htwo as <-.
        match goal with
        | E : at_ st _ = Js.Ok ?sq |- _ =>
            destruct sq as [blocker|]; cbn [Engine.isSome negb] in Hin;
              [destruct Hin|]
        end.
        destruct Hin as [<-|[]].
        apply simple_facts; try assumption; try reflexivity.
        -- apply valid_range. cbn [x y]. subst startRank direction.
           destruct (color p); lia.
        -- cbn [y]. intros _ _. subst startRank direction.
           destruct (color p); lia.
  - (* captures *)
    match goal with
    | E : Js.flatMapM _ _ = Js.Ok _ |- _ =>
        destruct (flatMapM_In _ _ _ _ E Hin) as (off & xs & Hoff & Hcap & Hmv)
    end.
    cbv beta zeta in Hcap.
    assert (Hoff' : off = -1 \/ off = 1) by (simpl in Hoff; intuition lia).
    match type of Hcap with
    | context [isValidPos ?t] => destruct (isValidPos t) eqn:Ht
    end; [|injection Hcap as <-; destruct Hmv].
    assert (Hstep : Z.abs (y (mkCoord (x f + off) (y f + direction)) - y f) = 1)
      by (cbn [y]; lia).
    bind_cases Hcap.
    match goal with
    | E : at_ st _ = Js.Ok ?sq |- _ =>
        rename E into Htarget; destruct sq as [target|]
    end.
    + destruct (negb (ChessColor_eqb (color target) (color p))).
      * injection Hcap as <-. cbn [y] in Hmv.
        destruct (y f + direction =? promotionRank).
        -- by_promotion Hmv; try assumption; reflexivity.
        -- destruct Hmv as [<-|[]].
           apply simple_facts; try assumption; try reflexivity.
           intros _ H2. rewrite Hstep in H2. discriminate.
      * exact (enPassant_facts st f p _ mv xs Hf Ht Hp Hty Hstep Hcap Hmv).
    + exact (enPassant_facts st f p _ mv xs Hf Ht Hp Hty Hstep Hcap Hmv).
Qed.

Lemma pseudoMoves_facts st c ms mv :
  generatePseudoMoves st c = Js.Ok ms -> In mv ms -> MoveFacts st c mv.
Proof.
  intros Hgen Hin. unfold generatePseudoMoves in Hgen.
  destruct (flatMapM_In _ _ _ _ Hgen Hin) as (f & xs & Hf & Hgen' & Hmv).
  apply CheckProofs.coords_valid in Hf. cbv beta in Hgen'.
  bind_cases Hgen'.
  match goal with
  | E : at_ st f = Js.Ok ?sq |- _ =>
      rename E into Hp; destruct sq as [p|];
        [|injection Hgen' as <-; destruct Hmv]
  end.
  destruct (ChessColor_eqb (color p) c) eqn:Hc;
    [|injection Hgen' as <-; destruct Hmv].
  assert (Hcol : color p = c) by (destruct (color p), c; auto; discriminate).
  rewrite <- Hcol.
  destruct (type p) eqn:Hty.
  - eapply kingMoves_facts; eassumption.
  - eapply slidingMoves_facts; try eassumption. rewrite Hty. discriminate.
  - eapply slidingMoves_facts; try eassumption. rewrite Hty. discriminate.
  - eapply slidingMoves_facts; try eassumption. rewrite Hty. discriminate.
  - eapply stepMoves_facts; try eassumption. rewrite Hty. discriminate.
  - eapply pawnMoves_facts; eassumption.
Qed.


(** *** Reading and writing squares *)

Lemma getXY_ok (b : Board) cx cy :
  (8 <= length b)%nat -> 0 <= cy < 8 -> exists sq, getXY b cx cy = Js.Ok sq.
Proof.
  intros Hlen Hcy. unfold getXY.
  destruct (Z.ltb_spec cy 0); [lia|].
  destruct (lookup_lt_is_Some_2 b (Z.to_nat cy)) as [row ->]; [lia|].
  destruct (cx <? 0); eexists; reflexivity.
Qed.

Lemma setXY_ok (b : Board) cx cy v :
  (8 <= length b)%nat -> 0 <= cy < 8 -> exists b', setXY b cx cy v = Js.Ok b'.
Proof.
  intros Hlen Hcy. unfold setXY.
  destruct (Z.ltb_spec cy 0); [lia|].
  destruct (lookup_lt_is_Some_2 b (Z.to_nat cy)) as [row ->]; [lia|].
  destruct (cx <? 0); [eexists; reflexivity|].
  destruct (cx <? _); eexists; reflexivity.
Qed.

Lemma setXY_length (b : Board) cx cy v b' :
  setXY b cx cy v = Js.Ok b' -> length b' = length b.
Proof.
  unfold setXY. destruct (cy <? 0); [discriminate|].
  destruct (b !! Z.to_nat cy) as [row|]; [|discriminate].
  destruct (cx <? 0); [intros [= <-]; reflexivity|].
  destruct (cx <? _); intros [= <-]; apply length_insert.
Qed.

Lemma getXY_setXY (b : Board) cx cy v b' cx' cy' :
  0 <= cx -> setXY b cx cy v = Js.Ok b' ->
  getXY b' cx' cy' =
  if (cx' =? cx) && (cy' =? cy) then Js.Ok v else getXY b cx' cy'.
Proof.
  intros Hcx. unfold setXY.
  destruct (Z.ltb_spec cy 0) as [|Hcy]; [discriminate|].
  destruct (b !! Z.to_nat cy) as [row|] eqn:Hrow; [|discriminate].
  pose proof (lookup_lt_Some _ _ _ Hrow) as Hlt.
  destruct (Z.ltb_spec cx 0); [lia|].
  unfold getXY.
  destruct (Z.ltb_spec cy' 0) as [Hneg|Hcy'].
  { intros _. destruct (Z.eqb_spec cy' cy); [lia|].
    rewrite andb_false_r. reflexivity. }
  destruct (Z.eqb_spec cy' cy) as [->|Hne].
  2:{ rewrite andb_false_r.
      destruct (cx <? _); intros [= <-];
        (rewrite list_lookup_insert_ne by lia); reflexivity. }
  rewrite andb_true_r, Hrow.
  destruct (Z.ltb_spec cx (Z.of_nat (length row))) as [Hin|Hout];
    intros [= <-]; rewrite list_lookup_insert_eq by exact Hlt.
  - destruct (Z.ltb_spec cx' 0).
    { destruct (Z.eqb_spec cx' cx); [lia|reflexivity]. }
    destruct (Z.eqb_spec cx' cx) as [->|Hx].
    + rewrite list_lookup_insert_eq by lia. reflexivity.
    + rewrite list_lookup_insert_ne by lia. reflexivity.
  - destruct (Z.ltb_spec cx' 0).
    { destruct (Z.eqb_spec cx' cx); [lia|reflexivity]. }
    destruct (Z.eqb_spec cx' cx) as [->|Hx].
    + rewrite app_assoc, lookup_app_r
        by (rewrite length_app, length_replicate; lia).
      rewrite length_app, length_replicate.
      replace (Z.to_nat cx - (length row + (Z.to_nat cx - length row)))%nat
        with 0%nat by lia.
      reflexivity.
    + destruct (Z.ltb_spec cx' (Z.of_nat (length row))) as [Hl|Hl].
      * rewrite lookup_app_l by lia. reflexivity.
      * rewrite lookup_app_r by lia.
        rewrite (lookup_ge_None_2 row) by lia.
        destruct (Z.ltb_spec cx' cx) as [Hlt'|Hge].
        -- rewrite lookup_app_l by (rewrite length_replicate; lia).
           rewrite lookup_replicate_2 by lia. reflexivity.
        -- rewrite lookup_app_r by (rewrite length_replicate; lia).
           rewrite length_replicate.
           rewrite lookup_ge_None_2 by (cbn [length]; lia). reflexivity.
Qed.


(** *** The readers do not raise on a board with its rows *)

Lemma orM_ok a b :
  (exists u, a = Js.Ok u) -> (exists v, b = Js.Ok v) ->
  exists w, Js.orM a b = Js.Ok w.
Proof.
  intros [u ->] [v ->]. unfold Js.orM. cbn [Js.bind].
  destruct u; eexists; reflexivity.
Qed.

Lemma andM_ok a b :
  (exists u, a = Js.Ok u) -> (exists v, b = Js.Ok v) ->
  exists w, Js.andM a b = Js.Ok w.
Proof.
  intros [u ->] [v ->]. unfold Js.andM. cbn [Js.bind].
  destruct u; eexists; reflexivity.
Qed.

Lemma existsM_ok {A} (f : A -> Js.Outcome bool) l :
  (forall a, In a l -> exists u, f a = Js.Ok u) ->
  exists w, Js.existsM f l = Js.Ok w.
Proof.
  induction l as [|a l IH]; intros H; cbn [Js.existsM].
  - eexists; reflexivity.
  - apply orM_ok; [apply H; left; reflexivity|].
    apply IH. intros a' Ha'. apply H. right. exact Ha'.
Qed.

Lemma findM_ok {A} (f : A -> Js.Outcome bool) l :
  (forall a, In a l -> exists u, f a = Js.Ok u) ->
  exists w, Js.findM f l = Js.Ok w.
Proof.
  induction l as [|a l IH]; intros H; cbn [Js.findM].
  - eexists; reflexivity.
  - destruct (H a (or_introl eq_refl)) as [u ->]. cbn [Js.bind].
    destruct u; [eexists; reflexivity|].
    apply IH. intros a' Ha'. apply H. right. exact Ha'.
Qed.

Lemma findM_In {A} (f : A -> Js.Outcome bool) l a :
  Js.findM f l = Js.Ok (Some a) -> In a l.
Proof.
  induction l as [|a' l IH]; cbn [Js.findM]; intros H; [discriminate|].
  bind_cases H.
  match goal with E : f a' = Js.Ok ?u |- _ => destruct u end.
  - injection H as <-. left. reflexivity.
  - right. apply IH. exact H.
Qed.

Lemma flatMapM_ok {A B} (f : A -> Js.Outcome (list B)) l :
  (forall a, In a l -> exists xs, f a = Js.Ok xs) ->
  exists ys, Js.flatMapM f l = Js.Ok ys.
Proof.
  induction l as [|a l IH]; intros H; cbn [Js.flatMapM].
  - eexists; reflexivity.
  - destruct (H a (or_introl eq_refl)) as [xs ->]. cbn [Js.bind].
    destruct IH as [ys ->]; [intros a' Ha'; apply H; right; exact Ha'|].
    cbn [Js.bind]. eexists; reflexivity.
Qed.

Lemma at_ok st pos :
  hasRows st -> 0 <= y pos < 8 -> exists sq, at_ st pos = Js.Ok sq.
Proof. intros Hrows Hy. apply getXY_ok; assumption. Qed.

Lemma isPieceAt_ok st pos c ty :
  hasRows st -> 0 <= y pos < 8 -> exists u, isPieceAt st pos c ty = Js.Ok u.
Proof.
  intros Hrows Hy. unfold isPieceAt.
  destruct (at_ok st pos Hrows Hy) as [sq ->]. cbn [Js.bind].
  eexists; reflexivity.
Qed.

Lemma attackedAlong_ok st pos dir c ks :
  hasRows st -> exists u, attackedAlong st pos dir c ks = Js.Ok u.
Proof.
  intros Hrows. induction ks as [|i ks IH]; cbn [attackedAlong].
  - eexists; reflexivity.
  - cbv zeta.
    match goal with
    | |- context [isValidPos ?t] => destruct (isValidPos t) eqn:Ht
    end; cbn [negb]; [|eexists; reflexivity].
    apply valid_range in Ht.
    match goal with
    | |- context [at_ st ?t] =>
        destruct (at_ok st t Hrows) as [sq ->]; [apply Ht|]
    end.
    cbn [Js.bind]. destruct sq; [eexists; reflexivity|exact IH].
Qed.

Lemma stepsFrom_ok st pos c ty offsets :
  hasRows st ->
  exists u,
    Js.existsM (fun off =>
      let t := mkCoord (x pos + x off) (y pos + y off) in
      if isValidPos t then isPieceAt st t c ty else Js.Ok false)
      offsets = Js.Ok u.
Proof.
  intros Hrows. apply existsM_ok. intros off _. cbv zeta.
  match goal with
  | |- context [isValidPos ?t] => destruct (isValidPos t) eqn:Ht
  end; [|eexists; reflexivity].
  apply valid_range in Ht. apply isPieceAt_ok; [exact Hrows|apply Ht].
Qed.

Lemma isSquareAttacked_ok st pos c :
  hasRows st -> exists u, isSquareAttacked st pos c = Js.Ok u.
Proof.
  intros Hrows. unfold isSquareAttacked. cbv zeta.
  apply orM_ok.
  - match goal with
    | |- context [(0 <=? ?r) && (?r <? 8)] =>
        destruct ((0 <=? r) && (r <? 8)) eqn:Hr
    end; [|eexists; reflexivity].
    apply andb_true_iff in Hr. destruct Hr as [Hr0 Hr8].
    apply Z.leb_le in Hr0. apply Z.ltb_lt in Hr8.
    apply orM_ok.
    + destruct (0 <? x pos); [|eexists; reflexivity].
      apply isPieceAt_ok; [exact Hrows|cbn [y]; lia].
    + destruct (x pos <? 7); [|eexists; reflexivity].
      apply isPieceAt_ok; [exact Hrows|cbn [y]; lia].
  - apply orM_ok; [apply stepsFrom_ok; exact Hrows|].
    apply orM_ok; [|apply stepsFrom_ok; exact Hrows].
    apply existsM_ok. intros dir _. apply attackedAlong_ok. exact Hrows.
Qed.

Lemma findKing_ok st c :
  hasRows st -> exists k, findKing st c = Js.Ok k.
Proof.
  intros Hrows. unfold findKing. apply findM_ok. intros pos Hin.
  apply CheckProofs.coords_valid in Hin. apply valid_range in Hin.
  apply isPieceAt_ok; [exact Hrows|apply Hin].
Qed.

Lemma isKingInCheck_ok st c :
  hasRows st -> exists u, isKingInCheck st c = Js.Ok u.
Proof.
  intros Hrows. unfold isKingInCheck.
  destruct (findKing_ok st c Hrows) as [k ->]. cbn [Js.bind].
  destruct k; [apply isSquareAttacked_ok; exact Hrows|eexists; reflexivity].
Qed.


(** *** The generators do not raise on a board with its rows *)

Ltac read_square Hrows :=
  match goal with
  | |- context [at_ ?st ?t] =>
      let sq := fresh "sq" in
      destruct (at_ok st t Hrows) as [sq ->];
        [try (cbn [y]; lia)|cbn [Js.bind]]
  end.

Lemma stepMoves_ok st f p offsets :
  hasRows st -> exists ms, generateStepMoves st f p offsets = Js.Ok ms.
Proof.
  intros Hrows. unfold generateStepMoves. apply flatMapM_ok.
  intros off _. cbv zeta.
  match goal with
  | |- context [isValidPos ?t] => destruct (isValidPos t) eqn:Ht
  end; [|eexists; reflexivity].
  apply valid_range in Ht. cbn [x y] in Ht.
  read_square Hrows. eexists; reflexivity.
Qed.

Lemma slideAlong_ok st f p dir ks :
  hasRows st -> exists ms, slideAlong st f p dir ks = Js.Ok ms.
Proof.
  intros Hrows. induction ks as [|i ks IH]; cbn [slideAlong].
  - eexists; reflexivity.
  - cbv zeta.
    match goal with
    | |- context [isValidPos ?t] => destruct (isValidPos t) eqn:Ht
    end; cbn [negb]; [|eexists; reflexivity].
    apply valid_range in Ht. cbn [x y] in Ht.
    read_square Hrows. destruct sq; [eexists; reflexivity|].
    destruct IH as [more ->]. cbn [Js.bind]. eexists; reflexivity.
Qed.

Lemma slidingMoves_ok st f p :
  hasRows st -> exists ms, generateSlidingMoves st f p = Js.Ok ms.
Proof.
  intros Hrows. unfold generateSlidingMoves. cbv zeta.
  apply flatMapM_ok. intros dir _. apply slideAlong_ok. exact Hrows.
Qed.

Lemma pawnMoves_ok st f p :
  hasRows st -> isValidPos f = true ->
  exists ms, generatePawnMoves st f p = Js.Ok ms.
Proof.
  intros Hrows Hf. apply valid_range in Hf.
  unfold generatePawnMoves. cbv zeta.
  set (direction := match color p with white => -1 | black => 1 end).
  set (startRank := match color p with white => 6 | black => 1 end).
  set (promotionRank := match color p with white => 0 | black => 7 end).
  assert (Hforward : exists forward,
    (if isValidPos (mkCoord (x f) (y f + direction)) then
       let* sq1 := at_ st (mkCoord (x f) (y f + direction)) in
       if negb (Engine.isSome sq1) then
         if y (mkCoord (x f) (y f + direction)) =? promotionRank
         then Js.Ok (addPromotionMoves f (mkCoord (x f) (y f + direction)) p None)
         else
           let* two :=
             if y f =? startRank then
               let* sq2 := at_ st (mkCoord (x f) (y f + direction * 2)) in
               Js.Ok (if negb (Engine.isSome sq2)
                      then [simpleMove f (mkCoord (x f) (y f + direction * 2))
                                       p None]
                      else [])
             else Js.Ok [] in
           Js.Ok (simpleMove f (mkCoord (x f) (y f + direction)) p None :: two)
       else Js.Ok []
     else Js.Ok []) = Js.Ok forward).
  { destruct (isValidPos _) eqn:Ht; [|eexists; reflexivity].
    apply valid_range in Ht. cbn [x y] in Ht.
    read_square Hrows.
    destruct (negb _); [|eexists; reflexivity].
    destruct (_ =? promotionRank); [eexists; reflexivity|].
    destruct (Z.eqb_spec (y f) startRank) as [Hs|Hs].
    - destruct (at_ok st (mkCoord (x f) (y f + direction * 2)) Hrows)
        as [sq2 ->].
      { cbn [y]. subst startRank direction. destruct (color p); lia. }
      cbn [Js.bind]. eexists; reflexivity.
    - cbn [Js.bind]. eexists; reflexivity. }
  destruct Hforward as [forward ->]. cbn [Js.bind].
  match goal with
  | |- context [Js.flatMapM ?g ?l] =>
      destruct (flatMapM_ok g l) as [captures ->]
  end; [|cbn [Js.bind]; eexists; reflexivity].
  intros off _. cbv beta.
  destruct (isValidPos _) eqn:Ht; [|eexists; reflexivity].
  apply valid_range in Ht. cbn [x y] in Ht.
  assert (Hep : exists xs,
    match enPassantSquare st with
    | Some ep =>
        if (x (mkCoord (x f + off) (y f + direction)) =? x ep)
           && (y (mkCoord (x f + off) (y f + direction)) =? y ep) then
          let* capturedPawn :=
            getXY (board st) (x (mkCoord (x f + off) (y f + direction))) (y f) in
          Js.Ok match capturedPawn with
                | Some capturedPawn =>
                    if negb (ChessColor_eqb (color capturedPawn) (color p))
                    then [mkMove f (mkCoord (x f + off) (y f + direction))
                                 (id p) (Some capturedPawn) None true None]
                    else []
                | None => []
                end
        else Js.Ok []
    | None => Js.Ok []
    end = Js.Ok xs).
  { destruct (enPassantSquare st) as [ep|]; [|eexists; reflexivity].
    destruct (_ && _); [|eexists; reflexivity].
    match goal with
    | |- context [getXY ?b ?cx ?cy] =>
        destruct (getXY_ok b cx cy Hrows) as [cp ->]; [lia|]
    end.
    cbn [Js.bind]. eexists; reflexivity. }
  read_square Hrows.
  destruct sq as [target|]; [|exact Hep].
  destruct (negb _); [eexists; reflexivity|exact Hep].
Qed.

Lemma empty_ok st cx cy :
  hasRows st -> 0 <= cy < 8 -> exists u, empty_ st cx cy = Js.Ok u.
Proof.
  intros Hrows Hcy. unfold empty_.
  destruct (getXY_ok (board st) cx cy Hrows Hcy) as [sq ->].
  cbn [Js.bind]. eexists; reflexivity.
Qed.

Lemma notAttacked_ok st pos c :
  hasRows st -> exists u, notAttacked st pos c = Js.Ok u.
Proof.
  intros Hrows. unfold notAttacked.
  destruct (isSquareAttacked_ok st pos c Hrows) as [a ->].
  cbn [Js.bind]. eexists; reflexivity.
Qed.

Lemma kingMoves_ok st f p :
  hasRows st -> exists ms, generateKingMoves st f p = Js.Ok ms.
Proof.
  intros Hrows. unfold generateKingMoves.
  destruct (stepMoves_ok st f p kingOffsets Hrows) as [stepMoves ->].
  cbn [Js.bind].
  match goal with
  | |- context [Js.andM (Js.Ok (negb (hasMoved p))) ?c] =>
      destruct (andM_ok (Js.Ok (negb (hasMoved p))) c) as [free ->]
  end.
  { eexists; reflexivity. }
  { destruct (isKingInCheck_ok st (color p) Hrows) as [chk ->].
    cbn [Js.bind]. eexists; reflexivity. }
  cbn [Js.bind]. destruct free; [|cbn [Js.bind]; eexists; reflexivity].
  cbv zeta.
  assert (Hcy : 0 <= match color p with white => 7 | black => 0 end < 8)
    by (destruct (color p); lia).
  match goal with
  | |- context [Js.bind (Js.andM ?a ?b) _] =>
      destruct (andM_ok a b) as [ks ->]
  end.
  { eexists; reflexivity. }
  { repeat (apply andM_ok;
            [first [apply empty_ok; assumption
                   |apply notAttacked_ok; assumption]|]).
    apply notAttacked_ok; assumption. }
  cbn [Js.bind].
  match goal with
  | |- context [Js.bind (Js.andM ?a ?b) _] =>
      destruct (andM_ok a b) as [qs ->]
  end.
  { eexists; reflexivity. }
  { repeat (apply andM_ok;
            [first [apply empty_ok; assumption
                   |apply notAttacked_ok; assumption]|]).
    apply notAttacked_ok; assumption. }
  cbn [Js.bind]. eexists; reflexivity.
Qed.

Lemma pseudoMoves_ok st c :
  hasRows st -> exists ms, generatePseudoMoves st c = Js.Ok ms.
Proof.
  intros Hrows. unfold generatePseudoMoves. apply flatMapM_ok.
  intros f Hin. apply CheckProofs.coords_valid in Hin.
  pose proof (proj1 (valid_range f) Hin) as Hr.
  destruct (at_ok st f Hrows) as [sq ->]; [apply Hr|]. cbn [Js.bind].
  destruct sq as [p|]; [|eexists; reflexivity].
  destruct (ChessColor_eqb _ _); [|eexists; reflexivity].
  destruct (type p).
  - apply kingMoves_ok; assumption.
  - apply slidingMoves_ok; assumption.
  - apply slidingMoves_ok; assumption.
  - apply slidingMoves_ok; assumption.
  - apply stepMoves_ok; assumption.
  - apply pawnMoves_ok; assumption.
Qed.

(** *** Writing the position down does not raise either *)

Lemma fenRow_ok st cy xs :
  hasRows st -> 0 <= cy < 8 ->
  forall acc empty, exists s, fenRow st cy xs acc empty = Js.Ok s.
Proof.
  intros Hrows Hcy. induction xs as [|cx xs IH]; intros acc empty;
    cbn [fenRow].
  - eexists; reflexivity.
  - destruct (getXY_ok (board st) cx cy Hrows Hcy) as [sq ->].
    cbn [Js.bind]. destruct sq; apply IH.
Qed.

Lemma fenRows_ok st ys :
  hasRows st -> (forall cy, In cy ys -> 0 <= cy < 8) ->
  forall acc, exists s, fenRows st ys acc = Js.Ok s.
Proof.
  intros Hrows. induction ys as [|cy ys IH]; intros Hys acc; cbn [fenRows].
  - eexists; reflexivity.
  - destruct (fenRow_ok st cy [0; 1; 2; 3; 4; 5; 6; 7] Hrows
                (Hys cy (or_introl eq_refl)) acc 0) as [s ->].
    cbn [Js.bind]. apply IH. intros cy' H. apply Hys. right. exact H.
Qed.

Lemma generateFen_ok st :
  hasRows st -> exists s, generateFen st = Js.Ok s.
Proof.
  intros Hrows. unfold generateFen.
  destruct (fenRows_ok st [0; 1; 2; 3; 4; 5; 6; 7] Hrows) with (acc := EmptyString)
    as [s ->].
  { intros cy Hin. simpl in Hin. intuition lia. }
  cbn [Js.bind]. eexists; reflexivity.
Qed.

Lemma isThreefoldRepetition_ok st :
  hasRows st -> exists u, isThreefoldRepetition st = Js.Ok u.
Proof.
  intros Hrows. unfold isThreefoldRepetition.
  destruct (generateFen_ok st Hrows) as [s ->]. cbn [Js.bind].
  eexists; reflexivity.
Qed.


(** *** A move of the generators keeps the state consistent *)

Lemma rightOf_clearKing c' r c s :
  rightOf (clearKing c' r) c s = true -> c <> c' /\ rightOf r c s = true.
Proof.
  destruct c', c, s; cbn; intros H; try discriminate;
    (split; [discriminate|exact H]).
Qed.

Lemma rightOf_clearCorner pos r c s :
  rightOf (clearCorner pos r) c s = true ->
  rightOf r c s = true /\ ~ (x pos = rookFile s /\ y pos = homeRow c).
Proof.
  unfold clearCorner.
  destruct (Z.eqb_spec (x pos) 0), (Z.eqb_spec (x pos) 7),
           (Z.eqb_spec (y pos) 0), (Z.eqb_spec (y pos) 7);
    try lia; cbn [andb]; destruct c, s;
    cbn [rightOf rookFile homeRow whiteKingSide whiteQueenSide
         blackKingSide blackQueenSide];
    intros H; try discriminate; (split; [exact H|lia]).
Qed.

Lemma type_eqb_spec a b : ChessPieceType_eqb a b = true <-> a = b.
Proof. destruct a, b; cbn; split; intros H; congruence. Qed.

Lemma rights_after r piece mv c s :
  let r1 := if ChessPieceType_eqb (type piece) king
            then clearKing (color piece) r else r in
  let r2 := if ChessPieceType_eqb (type piece) rook
            then clearCorner (from mv) r1 else r1 in
  let r3 := match capture mv with
            | Some c0 => if ChessPieceType_eqb (type c0) rook
                         then clearCorner (to mv) r2 else r2
            | None => r2
            end in
  rightOf r3 c s = true ->
  rightOf r c s = true /\
  (type piece = king -> c <> color piece) /\
  (type piece = rook ->
   ~ (x (from mv) = rookFile s /\ y (from mv) = homeRow c)) /\
  (forall cp, capture mv = Some cp -> type cp = rook ->
              ~ (x (to mv) = rookFile s /\ y (to mv) = homeRow c)).
Proof.
  intros r1 r2 r3 H.
  assert (H3 : rightOf r2 c s = true /\
               forall cp, capture mv = Some cp -> type cp = rook ->
                 ~ (x (to mv) = rookFile s /\ y (to mv) = homeRow c)).
  { subst r3. destruct (capture mv) as [c0|].
    - destruct (ChessPieceType_eqb (type c0) rook) eqn:Hc0.
      + apply rightOf_clearCorner in H. destruct H as [H Hne].
        split; [exact H|]. intros cp _ _. exact Hne.
      + split; [exact H|]. intros cp [= <-] Hcp.
        apply type_eqb_spec in Hcp. congruence.
    - split; [exact H|]. intros cp [=]. }
  destruct H3 as [H2 Hcap].
  assert (H2' : rightOf r1 c s = true /\
                (type piece = rook ->
                 ~ (x (from mv) = rookFile s /\ y (from mv) = homeRow c))).
  { subst r2. destruct (ChessPieceType_eqb (type piece) rook) eqn:Hp.
    - apply rightOf_clearCorner in H2. destruct H2 as [H2 Hne].
      split; [exact H2|]. intros _. exact Hne.
    - split; [exact H2|]. intros Hp'. apply type_eqb_spec in Hp'.
      congruence. }
  destruct H2' as [H1 Hrook].
  assert (H1' : rightOf r c s = true /\
                (type piece = king -> c <> color piece)).
  { subst r1. destruct (ChessPieceType_eqb (type piece) king) eqn:Hp.
    - apply rightOf_clearKing in H1. destruct H1 as [Hne H1].
      split; [exact H1|]. intros _. exact Hne.
    - split; [exact H1|]. intros Hp'. apply type_eqb_spec in Hp'.
      congruence. }
  destruct H1' as [H0 Hking]. auto.
Qed.

Lemma applyMove_tail st mv piece (b : Board) (tm : bool) :
  consistent st ->
  length b = length (board st) ->
  (forall cx cy q, getXY b cx cy = Js.Ok (Some q) -> hasMoved q = false ->
                   getXY (board st) cx cy = Js.Ok (Some q)) ->
  (forall c s,
      rightOf (castlingRights st) c s = true ->
      (type piece = king -> c <> color piece) ->
      (type piece = rook ->
       ~ (x (from mv) = rookFile s /\ y (from mv) = homeRow c)) ->
      (forall cp, capture mv = Some cp -> type cp = rook ->
                  ~ (x (to mv) = rookFile s /\ y (to mv) = homeRow c)) ->
      exists q, getXY b (rookFile s) (homeRow c) = Js.Ok (Some q) /\
                type q = rook) ->
  (type piece = pawn -> Z.abs (y (to mv) - y (from mv)) = 2 ->
   y (from mv) + y (to mv) = 10 \/ y (from mv) + y (to mv) = 4) ->
  consistent
    (let ep :=
       if ChessPieceType_eqb (type piece) pawn
          && (Z.abs (y (to mv) - y (from mv)) =? 2)
       then Some (mkCoord (x (from mv)) ((y (from mv) + y (to mv)) / 2))
       else None in
     let r := castlingRights st in
     let r := if ChessPieceType_eqb (type piece) king
              then clearKing (color piece) r else r in
     let r := if ChessPieceType_eqb (type piece) rook
              then clearCorner (from mv) r else r in
     let r := match capture mv with
              | Some c => if ChessPieceType_eqb (type c) rook
                          then clearCorner (to mv) r else r
              | None => r
              end in
     if tm then
       mkState b (sideToMove st) r ep (halfmoveClock st)
               (fullmoveNumber st) (history st) (lastMove st)
               (players st) (fen st) (gameOver st) (winner st)
               (check st) (checkmate st) (stalemate st) (draw st)
     else
       mkState b (getOpponentColor (sideToMove st)) r ep
               (if ChessPieceType_eqb (type piece) pawn
                   || Engine.isSome (capture mv)
                then 0 else Js.incr (halfmoveClock st))
               (match sideToMove st with
                | black => Js.incr (fullmoveNumber st)
                | white => fullmoveNumber st
                end)
               (history st) (Some mv)
               (players st) (fen st) (gameOver st) (winner st)
               (check st) (checkmate st) (stalemate st) (draw st)).
Proof.
  intros Hco Hlen Hkings Hrooks Hdbl.
  assert (Hall : forall st',
    board st' = b ->
    castlingRights st' =
      (let r1 := if ChessPieceType_eqb (type piece) king
                 then clearKing (color piece) (castlingRights st)
                 else castlingRights st in
       let r2 := if ChessPieceType_eqb (type piece) rook
                 then clearCorner (from mv) r1 else r1 in
       match capture mv with
       | Some c0 => if ChessPieceType_eqb (type c0) rook
                    then clearCorner (to mv) r2 else r2
       | None => r2
       end) ->
    enPassantSquare st' =
      (if ChessPieceType_eqb (type piece) pawn
          && (Z.abs (y (to mv) - y (from mv)) =? 2)
       then Some (mkCoord (x (from mv)) ((y (from mv) + y (to mv)) / 2))
       else None) ->
    consistent st').
  { intros st' Hb Hr He. constructor.
    - unfold hasRows. rewrite Hb, Hlen. apply (co_rows _ Hco).
    - intros c s Hright. unfold rookAt. rewrite Hb. rewrite Hr in Hright.
      apply rights_after in Hright.
      destruct Hright as (Ha & Hb1 & Hc1 & Hd1).
      apply (Hrooks c s Ha Hb1 Hc1 Hd1).
    - intros pos p Hp Hty Hmoved. unfold at_ in Hp. rewrite Hb in Hp.
      apply (co_king _ Hco pos p); [|exact Hty|exact Hmoved].
      apply Hkings; assumption.
    - intros ep Hep. rewrite He in Hep.
      destruct (ChessPieceType_eqb (type piece) pawn) eqn:Hp;
        [|discriminate].
      destruct (Z.eqb_spec (Z.abs (y (to mv) - y (from mv))) 2) as [H2|H2];
        [|discriminate].
      cbn [andb] in Hep. injection Hep as <-. cbn [y].
      apply type_eqb_spec in Hp. destruct (Hdbl Hp H2) as [H|H];
        rewrite H; [right|left]; reflexivity. }
  destruct tm; apply Hall; reflexivity.
Qed.


Ltac split_if H :=
  match type of H with
  | (if ?c then _ else _) = _ => destruct c
  end.

Ltac on_square E Hx Hy :=
  apply andb_true_iff in E; destruct E as [Hx Hy];
  apply Z.eqb_eq in Hx; apply Z.eqb_eq in Hy.

Lemma homeRow_cases c : homeRow c = 0 \/ homeRow c = 7.
Proof. destruct c; [right|left]; reflexivity. Qed.

Lemma rookFile_cases s : rookFile s = 0 \/ rookFile s = 7.
Proof. destruct s; [right|left]; reflexivity. Qed.

Lemma homeRow_inj c c' : homeRow c = homeRow c' -> c = c'.
Proof. destruct c, c'; cbn; intros H; congruence. Qed.

Lemma applyMove_consistent st c mv tm :
  consistent st -> MoveFacts st c mv ->
  exists st', applyMove st mv tm = Js.Ok st' /\ consistent st'.
Proof.
  intros Hco [Hfrom Hto (p0 & Hp0 & Hcol & Hkind)].
  pose proof (co_rows _ Hco) as Hrows. unfold hasRows in Hrows.
  apply valid_range in Hfrom, Hto.
  destruct Hfrom as [Hfx Hfy], Hto as [Htx Hty].
  unfold applyMove. rewrite Hp0. cbn [Js.bind].
  set (piece := match promotion mv with
                | Some ty => withType (withMoved p0) ty
                | None => withMoved p0
                end).
  assert (Hpiece : hasMoved piece = true /\ color piece = color p0 /\
                   type piece = match promotion mv with
                                | Some ty => ty
                                | None => type p0
                                end)
    by (subst piece; destruct (promotion mv); cbn; auto).
  destruct Hpiece as (Hpm & Hpc & Hpt). clearbody piece.
  destruct (setXY_ok (board st) (x (to mv)) (y (to mv)) (Some piece) Hrows)
    as [b1 Hb1]; [lia|].
  rewrite Hb1. cbn [Js.bind].
  pose proof (setXY_length _ _ _ _ _ Hb1) as Hl1.
  destruct (setXY_ok b1 (x (from mv)) (y (from mv)) None) as [b2 Hb2];
    [lia|lia|].
  rewrite Hb2. cbn [Js.bind].
  pose proof (setXY_length _ _ _ _ _ Hb2) as Hl2.
  assert (Hget2 : forall cx cy,
    getXY b2 cx cy =
    if (cx =? x (from mv)) && (cy =? y (from mv)) then Js.Ok None
    else if (cx =? x (to mv)) && (cy =? y (to mv)) then Js.Ok (Some piece)
    else getXY (board st) cx cy).
  { intros cx cy.
    rewrite (getXY_setXY _ _ _ _ _ cx cy (proj1 Hfx) Hb2),
            (getXY_setXY _ _ _ _ _ cx cy (proj1 Htx) Hb1).
    reflexivity. }
  destruct Hkind as [Hep Hcas Hcap Hpromo Hdbl
                    |Hep Hcas Hpromo Hpawn Hsq Hstep
                    |side Hcas Hep Hcap Hpromo Hking Hmoved Hright Hto'].
  - (* an ordinary move or capture *)
    rewrite Hep, andb_false_r, Hcas. cbn [Js.bind].
    eexists. split; [reflexivity|].
    apply applyMove_tail; [exact Hco|lia| | |].
    + intros cx cy q Hq Hm. rewrite Hget2 in Hq.
      split_if Hq; [discriminate|].
      split_if Hq; [injection Hq as Hq; subst q; congruence|exact Hq].
    + intros c0 s Hr0 Hk Hr Hc.
      destruct (co_rook _ Hco c0 s Hr0) as (q & Hq & Hqt).
      rewrite Hget2.
      destruct ((rookFile s =? x (from mv)) && (homeRow c0 =? y (from mv)))
        eqn:E1.
      { exfalso. on_square E1 Hx Hy. unfold at_ in Hp0.
        rewrite <- Hx, <- Hy, Hq in Hp0. injection Hp0 as ->.
        destruct (promotion mv) as [ty|] eqn:Hpr.
        - destruct (Hpromo ty eq_refl) as [Hpw _]. congruence.
        - apply Hr; [congruence|]. split; symmetry; assumption. }
      destruct ((rookFile s =? x (to mv)) && (homeRow c0 =? y (to mv)))
        eqn:E2.
      { exfalso. on_square E2 Hx Hy. unfold at_ in Hcap.
        rewrite <- Hx, <- Hy, Hq in Hcap. injection Hcap as Hcap.
        apply (Hc q); [symmetry; exact Hcap|exact Hqt|].
        split; symmetry; assumption. }
      exists q. split; assumption.
    + intros Hpw H2. rewrite Hpt in Hpw.
      destruct (promotion mv) as [ty|] eqn:Hpr.
      * destruct (Hpromo ty eq_refl) as [_ Hin].
        destruct Hin as [H|[H|[H|[H|[]]]]]; congruence.
      * apply Hdbl; assumption.
  - (* en passant *)
    pose proof (co_ep _ Hco _ Hsq) as Hrank.
    rewrite Hep, andb_true_r, Hcas.
    assert (Hb3 : exists b3,
      (if Engine.isSome (capture mv)
       then setXY b2 (x (to mv)) (y (from mv)) None
       else Js.Ok b2) = Js.Ok b3 /\
      length b3 = length (board st) /\
      forall cx cy,
        getXY b3 cx cy =
        if Engine.isSome (capture mv) && (cx =? x (to mv))
           && (cy =? y (from mv))
        then Js.Ok None else getXY b2 cx cy).
    { destruct (Engine.isSome (capture mv)); cbn [andb].
      - destruct (setXY_ok b2 (x (to mv)) (y (from mv)) None) as [b3 Hb3];
          [lia|lia|].
        exists b3. split; [exact Hb3|].
        split; [rewrite (setXY_length _ _ _ _ _ Hb3); lia|].
        intros cx cy.
        apply (getXY_setXY _ _ _ _ _ cx cy (proj1 Htx) Hb3).
      - exists b2. split; [reflexivity|]. split; [lia|reflexivity]. }
    destruct Hb3 as (b3 & -> & Hl3 & Hget3). cbn [Js.bind].
    eexists. split; [reflexivity|].
    apply applyMove_tail; [exact Hco|exact Hl3| | |].
    + intros cx cy q Hq Hm. rewrite Hget3, Hget2 in Hq.
      split_if Hq; [discriminate|].
      split_if Hq; [discriminate|].
      split_if Hq; [injection Hq as Hq; subst q; congruence|exact Hq].
    + intros c0 s Hr0 Hk Hr Hc.
      destruct (co_rook _ Hco c0 s Hr0) as (q & Hq & Hqt).
      exists q. split; [|exact Hqt].
      pose proof (homeRow_cases c0) as Hrow.
      rewrite Hget3, Hget2.
      destruct (Z.eqb_spec (homeRow c0) (y (from mv))); [lia|].
      destruct (Z.eqb_spec (homeRow c0) (y (to mv))); [lia|].
      rewrite !andb_false_r. exact Hq.
    + intros _ H2. lia.
  - (* castling *)
    rewrite Hep, andb_false_r. cbn [Js.bind]. rewrite Hcas.
    assert (Hyf : y (from mv) = homeRow (color p0))
      by (apply (co_king _ Hco (from mv) p0 Hp0 Hking Hmoved)).
    destruct (co_rook _ Hco (color p0) side Hright) as (q0 & Hq0 & Hq0t).
    assert (Htoy : y (to mv) = homeRow (color p0))
      by (rewrite Hto'; reflexivity).
    assert (Htox : x (to mv) = match side with kingSide => 6 | queenSide => 2 end)
      by (rewrite Hto'; reflexivity).
    assert (Hptk : type piece = king)
      by (rewrite Hpt, Hpromo; exact Hking).
    assert (Hrook : getXY b2 (rookFile side) (y (from mv)) = Js.Ok (Some q0)).
    { rewrite Hget2.
      destruct ((rookFile side =? x (from mv))
                && (y (from mv) =? y (from mv))) eqn:E1.
      { exfalso. on_square E1 Hx Hy. unfold at_ in Hp0.
        rewrite <- Hx, Hyf, Hq0 in Hp0. injection Hp0 as ->. congruence. }
      destruct (Z.eqb_spec (rookFile side) (x (to mv))) as [Hx|Hx].
      { exfalso. rewrite Htox in Hx. destruct side; discriminate. }
      cbn [andb]. rewrite Hyf. exact Hq0. }
    cbv zeta.
    change (match side with kingSide => 7 | queenSide => 0 end)
      with (rookFile side).
    rewrite Hrook. cbn [Js.bind option_map].
    set (dst := match side with kingSide => 5 | queenSide => 3 end).
    assert (Hdst : 0 <= dst) by (subst dst; destruct side; lia).
    assert (Hsrc : 0 <= rookFile side) by (destruct side; cbn; lia).
    destruct (setXY_ok b2 dst (y (from mv)) (Some (withMoved q0)))
      as [b4 Hb4]; [lia|lia|].
    rewrite Hb4. cbn [Js.bind].
    pose proof (setXY_length _ _ _ _ _ Hb4) as Hl4.
    destruct (setXY_ok b4 (rookFile side) (y (from mv)) None)
      as [b5 Hb5]; [lia|lia|].
    rewrite Hb5. cbn [Js.bind].
    pose proof (setXY_length _ _ _ _ _ Hb5) as Hl5.
    assert (Hget5 : forall cx cy,
      getXY b5 cx cy =
      if (cx =? rookFile side) && (cy =? y (from mv)) then Js.Ok None
      else if (cx =? dst) && (cy =? y (from mv))
           then Js.Ok (Some (withMoved q0))
      else getXY b2 cx cy).
    { intros cx cy.
      rewrite (getXY_setXY _ _ _ _ _ cx cy Hsrc Hb5),
              (getXY_setXY _ _ _ _ _ cx cy Hdst Hb4).
      reflexivity. }
    eexists. split; [reflexivity|].
    apply applyMove_tail; [exact Hco|lia| | |].
    + intros cx cy q Hq Hm. rewrite Hget5, Hget2 in Hq.
      split_if Hq; [discriminate|].
      split_if Hq; [injection Hq as Hq; subst q; discriminate|].
      split_if Hq; [discriminate|].
      split_if Hq; [injection Hq as Hq; subst q; congruence|exact Hq].
    + intros c0 s Hr0 Hk Hr Hc.
      destruct (co_rook _ Hco c0 s Hr0) as (q & Hq & Hqt).
      exists q. split; [|exact Hqt].
      assert (Hrow : homeRow c0 <> homeRow (color p0)).
      { intros Heq. apply homeRow_inj in Heq.
        apply (Hk Hptk). congruence. }
      rewrite Hget5, Hget2.
      destruct (Z.eqb_spec (homeRow c0) (y (from mv))); [congruence|].
      destruct (Z.eqb_spec (homeRow c0) (y (to mv))); [congruence|].
      rewrite !andb_false_r. exact Hq.
    + intros Hpw. congruence.
Qed.


Lemma filterLegal_ok st c ms :
  consistent st -> (forall mv, In mv ms -> MoveFacts st c mv) ->
  exists kept, filterLegal st ms = Js.Ok kept /\
               forall mv, In mv kept -> In mv ms.
Proof.
  intros Hco. induction ms as [|mv ms IH]; intros Hms; cbn [filterLegal].
  - exists []. split; [reflexivity|auto].
  - destruct (applyMove_consistent st c mv true Hco
                (Hms mv (or_introl eq_refl))) as (ts & -> & Hts).
    cbn [Js.bind].
    destruct (isKingInCheck_ok ts (sideToMove st) (co_rows _ Hts))
      as [inCheck ->].
    cbn [Js.bind].
    destruct IH as (kept & -> & Hkept);
      [intros mv' H; apply Hms; right; exact H|].
    cbn [Js.bind]. eexists. split; [reflexivity|].
    intros mv' Hin. destruct (negb inCheck).
    + destruct Hin as [<-|Hin]; [left; reflexivity|right; auto].
    + right. auto.
Qed.

Lemma getLegalMoves_ok st :
  consistent st ->
  exists ms, getLegalMoves st = Js.Ok ms /\
             forall mv, In mv ms -> MoveFacts st (sideToMove st) mv.
Proof.
  intros Hco. unfold getLegalMoves.
  destruct (pseudoMoves_ok st (sideToMove st) (co_rows _ Hco))
    as [pseudo Hpseudo].
  rewrite Hpseudo. cbn [Js.bind].
  destruct (filterLegal_ok st (sideToMove st) pseudo Hco) as (ms & -> & Hms).
  { intros mv Hin. apply (pseudoMoves_facts _ _ _ _ Hpseudo Hin). }
  exists ms. split; [reflexivity|].
  intros mv Hin. apply (pseudoMoves_facts _ _ _ _ Hpseudo). auto.
Qed.

Lemma consistent_same st st' :
  board st' = board st -> castlingRights st' = castlingRights st ->
  enPassantSquare st' = enPassantSquare st ->
  consistent st -> consistent st'.
Proof.
  intros Hb Hr He [Hrows Hrook Hking Hep]. constructor.
  - unfold hasRows. rewrite Hb. exact Hrows.
  - intros c s H. unfold rookAt. rewrite Hb. rewrite Hr in H.
    apply Hrook. exact H.
  - intros pos p H. unfold at_ in H. rewrite Hb in H. apply Hking. exact H.
  - intros ep H. rewrite He in H. apply Hep. exact H.
Qed.

Lemma endOfGame_ok st newState next isCheck :
  consistent newState ->
  exists st', endOfGame st newState next isCheck = Js.Ok st' /\
              consistent st'.
Proof.
  intros Hco. unfold endOfGame. destruct next as [|mv next].
  - eexists. split; [reflexivity|].
    destruct isCheck; apply (consistent_same newState); auto.
  - destruct (isThreefoldRepetition_ok newState (co_rows _ Hco)) as [u Hu].
    unfold Js.orM. cbn [Js.bind].
    destruct (isInsufficientMaterial newState); cbn [Js.bind].
    { eexists. split; [reflexivity|].
      apply (consistent_same newState); auto. }
    destruct (100 <=? halfmoveClock newState); cbn [Js.bind].
    { eexists. split; [reflexivity|].
      apply (consistent_same newState); auto. }
    rewrite Hu. cbn [Js.bind]. eexists. split; [reflexivity|].
    destruct u; [apply (consistent_same newState); auto|exact Hco].
Qed.

Lemma find_In {A} (f : A -> bool) l a : find f l = Some a -> In a l.
Proof. intros H. apply find_some in H. apply H. Qed.

Lemma initializeGame_consistent uuid w b :
  consistent (initializeGame uuid w b).
Proof.
  constructor.
  - unfold hasRows. cbn. lia.
  - intros c s _. destruct c, s; eexists; split; reflexivity.
  - intros pos p. unfold at_, getXY.
    destruct (Z.ltb_spec (y pos) 0) as [|Hy]; [discriminate|].
    destruct (Z.ltb_spec (x pos) 0) as [|Hx].
    { destruct (_ !! _); discriminate. }
    cbn [board initializeGame createInitialBoard].
    destruct (Z.to_nat (y pos)) as [|[|[|[|[|[|[|[|n]]]]]]]] eqn:Hn;
      cbn; try discriminate;
      destruct (Z.to_nat (x pos)) as [|[|[|[|[|[|[|[|m]]]]]]]];
      cbn; try discriminate; intros [= <-]; cbn; try discriminate;
      intros _ _; lia.
  - intros ep [=].
Qed.

(** One submission in a consistent state. *)
Lemma makeMove_step st pid f t promo :
  consistent st ->
  exists r, makeMove st pid f t promo = Js.Ok r /\
            forall st', gameState r = Some st' -> consistent st'.
Proof.
  intros Hco. unfold makeMove.
  destruct (gameOver st).
  { eexists. split; [reflexivity|]. intros st' [=]. }
  destruct (negb _ && negb _).
  { eexists. split; [reflexivity|]. intros st' [=]. }
  destruct (_ && negb _).
  { eexists. split; [reflexivity|]. intros st' [=]. }
  destruct (_ && negb _).
  { eexists. split; [reflexivity|]. intros st' [=]. }
  destruct (getLegalMoves_ok st Hco) as (legal & -> & Hlegal).
  cbn [Js.bind].
  destruct (find (matches f t promo) legal) as [move|] eqn:Hfind.
  2:{ eexists. split; [reflexivity|]. intros st' [=]. }
  apply find_In in Hfind.
  destruct (applyMove_consistent st (sideToMove st) move false Hco
              (Hlegal move Hfind)) as (newState & -> & Hnew).
  cbn [Js.bind].
  destruct (getLegalMoves_ok newState Hnew) as (next & -> & _).
  cbn [Js.bind].
  destruct (isKingInCheck_ok newState (sideToMove newState)
              (co_rows _ Hnew)) as [isCheck ->].
  cbn [Js.bind].
  match goal with
  | |- context [endOfGame st ?ns next isCheck] =>
      destruct (endOfGame_ok st ns next isCheck) as (final & -> & Hfinal)
  end.
  { apply (consistent_same newState); auto. }
  cbn [Js.bind].
  destruct (generateFen_ok final (co_rows _ Hfinal)) as [newFen ->].
  cbn [Js.bind]. eexists. split; [reflexivity|].
  intros st' [= <-]. apply (consistent_same final); auto.
Qed.

Lemma playMoves_consistent subs :
  forall st st', consistent st -> playMoves st subs = Some st' ->
                 consistent st'.
Proof.
  induction subs as [|sub subs IH]; intros st st' Hco H; cbn [playMoves] in H.
  - injection H as <-. exact Hco.
  - destruct (makeMove_step st (s_player sub) (s_from sub) (s_to sub)
                (s_promotion sub) Hco) as (r & Hr & Hst).
    rewrite Hr in H. destruct (gameState r) as [st1|]; [|discriminate].
    destruct (success r); [|discriminate].
    apply (IH st1 st' (Hst st1 eq_refl) H).
Qed.

(** X19: whatever move is submitted in a consistent state, [makeMove]
    returns a result and raises nothing, and a state it hands back is
    consistent again: its board has the eight rows, each castling right
    still held has its rook on the corner, a king that has not moved
    stands on its home row and the en-passant square lies on the third or
    the sixth rank. *)
Theorem makeMove_never_raises st pid f t promo :
  consistent st ->
  exists r, makeMove st pid f t promo = Js.Ok r /\
            forall st', gameState r = Some st' -> consistent st'.
Proof. exact (makeMove_step st pid f t promo). Qed.

Lemma makeMove_never_raises_witness :
  exists r, makeMove startGame "white-player" e2 e4 None = Js.Ok r /\
            forall st', gameState r = Some st' -> consistent st'.
Proof.
  exact (makeMove_never_raises startGame "white-player" e2 e4 None
           (initializeGame_consistent _ _ _)).
Defined.

Lemma opening_played :
  playMoves startGame [mkSubmission "white-player" e2 e4 None]
  = gameState openingResult.
Proof. vm_compute. reflexivity. Qed.

Lemma opening_state : exists st', gameState openingResult = Some st'.
Proof. vm_compute. eexists. reflexivity. Qed.

(** X20: in a game begun with [initializeGame] and continued, as
    [playMoves] does, with the state each accepted move returns, no
    submission makes [makeMove] raise, whoever submits it and whatever
    squares and promotion it names. *)
Theorem game_never_raises uuid w b subs st pid f t promo :
  playMoves (initializeGame uuid w b) subs = Some st ->
  exists r, makeMove st pid f t promo = Js.Ok r.
Proof.
  intros Hplay.
  destruct (makeMove_step st pid f t promo) as (r & Hr & _).
  - apply (playMoves_consistent subs (initializeGame uuid w b) st);
      [apply initializeGame_consistent|exact Hplay].
  - exists r. exact Hr.
Qed.

Lemma game_never_raises_witness :
  exists st,
    playMoves startGame [mkSubmission "white-player" e2 e4 None] = Some st /\
    exists r, makeMove st "black-player" e4 e2 None = Js.Ok r.
Proof.
  destruct opening_state as [st' Hst'].
  exists st'. split; [rewrite opening_played; exact Hst'|].
  apply (game_never_raises (fun _ => EmptyString) "white-player"
           "black-player" [mkSubmission "white-player" e2 e4 None]).
  rewrite <- Hst'. exact opening_played.
Defined.

End ServerSafe.
